(** * Timeline Trace: the normalisation engine and the day index of [app.js]

    A shallow embedding of the parsing, day-indexing and navigation code of
    [src/app.js], with the properties of its specification stated over it.

    Conventions of the embedding:
    - a JavaScript string is its sequence of UTF-16 code units ([jsstring]);
    - a JavaScript number is a binary64 float ([float]); where the code only
      ever holds an integer or NaN (time values, packed day keys) the number
      is an [option Z], [None] standing for NaN;
    - a thrown exception is the [Throw] branch of [result];
    - services of the JavaScript engine that the repository does not
      implement (time zone, [Date.parse], case mapping, number formatting,
      [JSON.parse]) are the fields of the class [Runtime]. *)

From Stdlib Require Import ZArith NArith List Bool String Ascii Floats Lia.
From Stdlib Require Import Sorting.Sorted Sorting.Permutation.
Import ListNotations.

Open Scope Z_scope.

(* ================================================================== *)
(** * Strings *)
(* ================================================================== *)

Definition codeunit := N.
Definition jsstring := list codeunit.

(** An ASCII literal as a JavaScript string. *)
Definition js (s : string) : jsstring :=
  List.map N_of_ascii (list_ascii_of_string s).

Module Str.

Fixpoint eqb (a b : jsstring) : bool :=
  match a, b with
  | [], [] => true
  | x :: a', y :: b' => N.eqb x y && eqb a' b'
  | _, _ => false
  end.

Lemma eqb_spec a b : reflect (a = b) (eqb a b).
Proof.
  revert b; induction a as [|x a IH]; intros [|y b]; simpl;
    try (constructor; congruence).
  destruct (N.eqb_spec x y) as [->|N]; simpl.
  - destruct (IH b) as [->|N']; constructor; congruence.
  - constructor; congruence.
Qed.

Lemma eqb_refl a : eqb a a = true.
Proof. destruct (eqb_spec a a); congruence. Qed.

Lemma eqb_eq a b : eqb a b = true <-> a = b.
Proof. destruct (eqb_spec a b); split; congruence. Qed.

(** [WhiteSpace] and [LineTerminator] of ECMAScript: what [\s] matches, what
    [trim] removes and what [Number] skips around a numeric literal. *)
Definition isSpace (c : codeunit) : bool :=
  let c := Z.of_N c in
  ((9 <=? c) && (c <=? 13)) || (c =? 32) || (c =? 160) || (c =? 5760)
  || ((8192 <=? c) && (c <=? 8202)) || (c =? 8232) || (c =? 8233)
  || (c =? 8239) || (c =? 8287) || (c =? 12288) || (c =? 65279).

Definition isDigit (c : codeunit) : bool :=
  let c := Z.of_N c in (48 <=? c) && (c <=? 57).

(** [\w] of a regular expression without the [u] and [i] flags. *)
Definition isWord (c : codeunit) : bool :=
  let c := Z.of_N c in
  ((48 <=? c) && (c <=? 57)) || ((65 <=? c) && (c <=? 90))
  || ((97 <=? c) && (c <=? 122)) || (c =? 95).

Fixpoint dropWhile (p : codeunit -> bool) (s : jsstring) : jsstring :=
  match s with
  | c :: s' => if p c then dropWhile p s' else s
  | [] => []
  end.

Fixpoint span (p : codeunit -> bool) (s : jsstring) : jsstring * jsstring :=
  match s with
  | c :: s' =>
      if p c then let (a, b) := span p s' in (c :: a, b) else ([], s)
  | [] => ([], [])
  end.

(** [s.trim()] *)
Definition trim (s : jsstring) : jsstring :=
  rev (dropWhile isSpace (rev (dropWhile isSpace s))).

(** [s.split(",")] and the like, for a one-unit separator. *)
Fixpoint split (sep : codeunit) (s : jsstring) : list jsstring :=
  match s with
  | [] => [[]]
  | c :: s' =>
      if N.eqb c sep then [] :: split sep s'
      else match split sep s' with
           | p :: ps => (c :: p) :: ps
           | [] => [[c]]
           end
  end.

Fixpoint isPrefix (p s : jsstring) : bool :=
  match p, s with
  | [], _ => true
  | x :: p', y :: s' => N.eqb x y && isPrefix p' s'
  | _ :: _, [] => false
  end.

(** [s.includes(p)] *)
Fixpoint includes (s p : jsstring) : bool :=
  isPrefix p s ||
  match s with
  | [] => false
  | _ :: s' => includes s' p
  end.

(** [s.replaceAll(a, b)] for one-unit strings [a] and [b]. *)
Definition replaceAll1 (a b : codeunit) (s : jsstring) : jsstring :=
  List.map (fun c => if N.eqb c a then b else c) s.

(** The decimal digits of a natural number, as [String(n)] prints an
    integer below 10^21. *)
Fixpoint digitsFuel (fuel : nat) (n : Z) (acc : jsstring) : jsstring :=
  match fuel with
  | O => acc
  | S f =>
      let acc' := Z.to_N (48 + n mod 10) :: acc in
      if n <? 10 then acc' else digitsFuel f (n / 10) acc'
  end.

Definition ofNat (n : Z) : jsstring :=
  digitsFuel (S (Z.to_nat (Z.log2 n))) n [].

End Str.

(* ================================================================== *)
(** * Numbers *)
(* ================================================================== *)

Module Num.

Definition nan : float := PrimFloat.nan.

(** [Number.isFinite(x)] for a number [x]. *)
Definition isFinite (x : float) : bool := PrimFloat.is_finite x.

(** The double nearest to [m * 10^e] (ties to even), with sign [neg]. *)
Definition ofDecimal (neg : bool) (m : Z) (e : Z) : float :=
  match m with
  | Zpos p =>
      if 400 <? e then (if neg then neg_infinity else infinity)
      else if 0 <=? e then
        SF2Prim (binary_round prec emax neg (p * Z.to_pos (10 ^ e)) 0)
      else
        let '(q, e2, l) :=
          SFdiv_core_binary prec emax (Zpos p) 0 (10 ^ (- e)) 0 in
        SF2Prim (binary_round_aux prec emax neg q e2 l)
  | _ => if neg then (-0)%float else 0%float
  end.

(** The value of a string of digits in base [b]. *)
Definition digitVal (c : N) : Z :=
  let c := Z.of_N c in
  if (48 <=? c) && (c <=? 57) then c - 48
  else if (97 <=? c) && (c <=? 102) then c - 87
  else if (65 <=? c) && (c <=? 70) then c - 55
  else 99.

Definition valueIn (b : Z) (s : jsstring) : Z :=
  fold_left (fun acc c => acc * b + digitVal c) s 0.

Definition allDigitsIn (b : Z) (s : jsstring) : bool :=
  negb (Nat.eqb (List.length s) 0) && forallb (fun c => digitVal c <? b) s.

(** [ExponentPart] and end of input: the exponent to add, if well formed. *)
Definition exponentPart (s : jsstring) : option Z :=
  match s with
  | [] => Some 0
  | c :: r =>
      if N.eqb c 101 || N.eqb c 69 then
        let '(neg, r') :=
          match r with
          | 45%N :: r' => (true, r')
          | 43%N :: r' => (false, r')
          | _ => (false, r)
          end in
        if allDigitsIn 10 r'
        then Some (if neg then - valueIn 10 r' else valueIn 10 r')
        else None
      else None
  end.

(** [StrUnsignedDecimalLiteral] without [Infinity]: mantissa, decimal
    exponent and the number of digits read. *)
Definition unsignedDecimal (s : jsstring) : option (Z * Z * Z) :=
  let (ip, r1) := Str.span Str.isDigit s in
  match r1 with
  | 46%N :: r2 =>
      let (fp, r3) := Str.span Str.isDigit r2 in
      match ip, fp with
      | [], [] => None
      | _, _ =>
          match exponentPart r3 with
          | Some e =>
              Some (valueIn 10 (ip ++ fp), e - Z.of_nat (List.length fp),
                    Z.of_nat (List.length ip + List.length fp))
          | None => None
          end
      end
  | _ =>
      match ip with
      | [] => None
      | _ =>
          match exponentPart r1 with
          | Some e => Some (valueIn 10 ip, e, Z.of_nat (List.length ip))
          | None => None
          end
      end
  end.

Definition strDecimalLiteral (s : jsstring) : float :=
  let '(neg, u) :=
    match s with
    | 45%N :: r => (true, r)
    | 43%N :: r => (false, r)
    | _ => (false, s)
    end in
  if Str.eqb u (js "Infinity") then (if neg then neg_infinity else infinity)
  else
    match unsignedDecimal u with
    | Some (m, e, len) =>
        if len + e <? -400 then (if neg then (-0)%float else 0%float)
        else ofDecimal neg m e
    | None => nan
    end.

(** [StringToNumber]: what [Number(s)] is for a string [s]. *)
Definition ofString (s : jsstring) : float :=
  match Str.trim s with
  | [] => 0%float
  | 48%N :: c :: r =>
      if N.eqb c 120 || N.eqb c 88 then
        (if allDigitsIn 16 r then ofDecimal false (valueIn 16 r) 0 else nan)
      else if N.eqb c 111 || N.eqb c 79 then
        (if allDigitsIn 8 r then ofDecimal false (valueIn 8 r) 0 else nan)
      else if N.eqb c 98 || N.eqb c 66 then
        (if allDigitsIn 2 r then ofDecimal false (valueIn 2 r) 0 else nan)
      else strDecimalLiteral (48%N :: c :: r)
  | t => strDecimalLiteral t
  end.

(** [ToIntegerOrInfinity] of a finite number: truncation towards zero. *)
Definition truncate (x : float) : option Z :=
  match Prim2SF x with
  | S754_zero _ => Some 0
  | S754_finite s m e =>
      let a := if 0 <=? e then Zpos m * 2 ^ e else Zpos m / 2 ^ (- e) in
      Some (if s then - a else a)
  | _ => None
  end.

End Num.

(* ================================================================== *)
(** * Regular expressions *)
(* ================================================================== *)

(** The backtracking matcher of ECMAScript for the operators the source
    uses: atoms, sequence, greedy [?], [*] and [+], and capturing groups. *)
Module Regex.

Inductive re : Type :=
| Chr (p : codeunit -> bool)
| Seq (a b : re)
| Opt (a : re)
| Star (a : re)
| Group (n : nat) (a : re).

Definition Plus (a : re) : re := Seq a (Star a).

Definition captures := list (nat * jsstring).

Section Matcher.
  Variable A : Type.

(** [run r s c k]: match [r] at the head of [s], then continue with [k] on
    what is left; alternatives are tried in order, the first success wins. *)
Fixpoint run (r : re) (s : jsstring) (c : captures)
    (k : jsstring -> captures -> option A) {struct r} : option A :=
  match r with
  | Chr p =>
      match s with
      | x :: s' => if p x then k s' c else None
      | [] => None
      end
  | Seq a b => run a s c (fun s' c' => run b s' c' k)
  | Opt a =>
      match run a s c k with
      | Some x => Some x
      | None => k s c
      end
  | Star a =>
      (fix loop (n : nat) (s : jsstring) (c : captures) : option A :=
         match n with
         | O => k s c
         | S n' =>
             match run a s c (fun s' c' =>
                      if Nat.ltb (List.length s') (List.length s)
                      then loop n' s' c' else None) with
             | Some x => Some x
             | None => k s c
             end
         end) (List.length s) s c
  | Group n a =>
      run a s c (fun s' c' =>
        k s' ((n, firstn (List.length s - List.length s') s) :: c'))
  end.
End Matcher.
Arguments run {A} r s c k.

(** [r.exec(s)] for a pattern without the [g] and [y] flags: the match at
    the leftmost position where there is one, as its captures. *)
Fixpoint exec (r : re) (s : jsstring) : option captures :=
  match run r s [] (fun _ c => Some c) with
  | Some c => Some c
  | None =>
      match s with
      | [] => None
      | _ :: s' => exec r s'
      end
  end.

Fixpoint capture (n : nat) (c : captures) : jsstring :=
  match c with
  | [] => []
  | (m, x) :: c' => if Nat.eqb m n then x else capture n c'
  end.

Definition lit (a : codeunit) : codeunit -> bool := N.eqb a.

(** [.]: anything but a line terminator. *)
Definition dot (c : codeunit) : bool :=
  negb (N.eqb c 10 || N.eqb c 13 || N.eqb c 8232 || N.eqb c 8233).

End Regex.

(* ================================================================== *)
(** * Values, exceptions and the engine's services *)
(* ================================================================== *)

(** What [JSON.parse] returns, and [undefined] for what a property access
    returns when the property is absent. An object is the list of its own
    properties; a key occurs once in what [JSON.parse] builds. *)
#[warnings="-register-all"]
Inductive value : Type :=
| VUndefined
| VNull
| VBool (b : bool)
| VNum (x : float)
| VStr (s : jsstring)
| VArr (l : list value)
| VObj (fs : list (jsstring * value)).

Record exn : Type := { exnName : jsstring; exnMessage : jsstring }.

Inductive result (A : Type) : Type :=
| Ok (a : A)
| Throw (e : exn).
Arguments Ok {A} a.
Arguments Throw {A} e.

Definition bind {A B} (m : result A) (f : A -> result B) : result B :=
  match m with
  | Ok a => f a
  | Throw e => Throw e
  end.

Notation "x <- m ;; k" := (bind m (fun x => k))
  (at level 61, m at next level, right associativity).

Definition TypeError (msg : string) : exn :=
  {| exnName := js "TypeError"; exnMessage := js msg |}.

(** [String(e)] for an error object. *)
Definition exnToString (e : exn) : jsstring :=
  exnName e ++ js ": " ++ exnMessage e.

(** A JavaScript [Date]: its time value in milliseconds since the epoch, or
    NaN ("Invalid Date"). *)
Definition Date : Type := option Z.

Class Runtime : Type := {
  (** [LocalTZA(t, isUTC)]: the offset of local time, in milliseconds. *)
  LocalTZA : Z -> bool -> Z;
  (** [Date.parse(s)]: a time value, or NaN. *)
  Date_parse : jsstring -> Date;
  (** [s.toLowerCase()], [s.toUpperCase()] *)
  toLowerCase : jsstring -> jsstring;
  toUpperCase : jsstring -> jsstring;
  (** [Number::toString(x)], [x.toFixed(1)], [Math.round(x)] *)
  Number_toString : float -> jsstring;
  toFixed1 : float -> jsstring;
  Math_round : float -> float;
  (** [JSON.parse(text)]: the value, or the [SyntaxError] thrown. *)
  JSON_parse : jsstring -> result value
}.

Fixpoint lookup (k : jsstring) (fs : list (jsstring * value)) : value :=
  match fs with
  | [] => VUndefined
  | (k', v) :: fs' => if Str.eqb k k' then v else lookup k fs'
  end.

(** [v.k]. Reading a property of [undefined] or [null] throws; a primitive
    or an array has none of the properties the source reads ([k] is never
    [length], an index or a method name). *)
Definition get (v : value) (k : string) : result value :=
  match v with
  | VUndefined | VNull =>
      Throw (TypeError "Cannot read properties of undefined or null")
  | VObj fs => Ok (lookup (js k) fs)
  | _ => Ok VUndefined
  end.

(** [v?.k] *)
Definition getOpt (v : value) (k : string) : value :=
  match v with
  | VObj fs => lookup (js k) fs
  | _ => VUndefined
  end.

(** [ToBoolean] *)
Definition truthy (v : value) : bool :=
  match v with
  | VUndefined | VNull => false
  | VBool b => b
  | VNum x => negb (PrimFloat.eqb x 0 || PrimFloat.is_nan x)
  | VStr s => negb (Str.eqb s [])
  | VArr _ | VObj _ => true
  end.

(** [a || b], [a ?? b], [Array.isArray(v)], [v != null] *)
Definition orElse (a b : value) : value := if truthy a then a else b.

Definition nullish (v : value) : bool :=
  match v with
  | VUndefined | VNull => true
  | _ => false
  end.

Definition coalesce (a b : value) : value := if nullish a then b else a.

Definition asArray (v : value) : option (list value) :=
  match v with
  | VArr l => Some l
  | _ => None
  end.

Section Conversions.
  Context {RT : Runtime}.

Definition join (sep : jsstring) (parts : list jsstring) : jsstring :=
  match parts with
  | [] => []
  | p :: ps => p ++ List.concat (List.map (fun q => sep ++ q) ps)
  end.

(** [ToString]: what [String(v)] and a template literal make of [v]. *)
Fixpoint toString (v : value) : jsstring :=
  match v with
  | VUndefined => js "undefined"
  | VNull => js "null"
  | VBool b => if b then js "true" else js "false"
  | VNum x => Number_toString x
  | VStr s => s
  | VArr l =>
      join (js ",")
        (List.map (fun e => if nullish e then [] else toString e) l)
  | VObj _ => js "[object Object]"
  end.

(** [ToNumber]: what [Number(v)] is. *)
Definition toNumber (v : value) : float :=
  match v with
  | VUndefined => Num.nan
  | VNull => 0%float
  | VBool b => if b then 1%float else 0%float
  | VNum x => x
  | VStr s => Num.ofString s
  | VArr _ | VObj _ => Num.ofString (toString v)
  end.
End Conversions.

(* ================================================================== *)
(** * Dates *)
(* ================================================================== *)

(** The time arithmetic of ECMAScript ("Time Values and Time Range", "Date
    constructor"), over exact integers. *)
Module Dates.

Definition msPerDay : Z := 86400000.

Definition Day (t : Z) : Z := t / msPerDay.

Definition DayFromYear (y : Z) : Z :=
  365 * (y - 1970) + (y - 1969) / 4 - (y - 1901) / 100 + (y - 1601) / 400.

Definition InLeapYear (y : Z) : Z :=
  if negb (y mod 4 =? 0) then 0
  else if negb (y mod 100 =? 0) then 1
  else if negb (y mod 400 =? 0) then 0
  else 1.

(** The largest [y] with [DayFromYear y <= d]. *)
Definition YearFromDay (d : Z) : Z :=
  let y := 1970 + (d * 400) / 146097 in
  if d <? DayFromYear y then y - 1
  else if DayFromYear (y + 1) <=? d then y + 1
  else y.

Definition YearFromTime (t : Z) : Z := YearFromDay (Day t).

Definition DayWithinYear (t : Z) : Z := Day t - DayFromYear (YearFromTime t).

(** The day within the year on which month [m] (0-based) starts. *)
Definition monthStart (leap m : Z) : Z :=
  match m with
  | 0 => 0
  | 1 => 31
  | 2 => 59 + leap
  | 3 => 90 + leap
  | 4 => 120 + leap
  | 5 => 151 + leap
  | 6 => 181 + leap
  | 7 => 212 + leap
  | 8 => 243 + leap
  | 9 => 273 + leap
  | 10 => 304 + leap
  | 11 => 334 + leap
  | _ => 365 + leap
  end.

Definition MonthFromTime (t : Z) : Z :=
  let d := DayWithinYear t in
  let leap := InLeapYear (YearFromTime t) in
  if d <? monthStart leap 1 then 0
  else if d <? monthStart leap 2 then 1
  else if d <? monthStart leap 3 then 2
  else if d <? monthStart leap 4 then 3
  else if d <? monthStart leap 5 then 4
  else if d <? monthStart leap 6 then 5
  else if d <? monthStart leap 7 then 6
  else if d <? monthStart leap 8 then 7
  else if d <? monthStart leap 9 then 8
  else if d <? monthStart leap 10 then 9
  else if d <? monthStart leap 11 then 10
  else 11.

Definition DateFromTime (t : Z) : Z :=
  DayWithinYear t
  - monthStart (InLeapYear (YearFromTime t)) (MonthFromTime t) + 1.

Definition MakeDay (year month date : Z) : Z :=
  let ym := year + month / 12 in
  let mn := month mod 12 in
  DayFromYear ym + monthStart (InLeapYear ym) mn + date - 1.

Definition MakeDate (day time : Z) : Z := day * msPerDay + time.

Definition TimeClip (t : Z) : Date :=
  if 8640000000000000 <? Z.abs t then None else Some t.

(** [new Date(x)] for a number [x]. *)
Definition ofNumber (x : float) : Date :=
  match Num.truncate x with
  | Some t => TimeClip t
  | None => None
  end.

Section Local.
  Context {RT : Runtime}.

Definition LocalTime (t : Z) : Z := t + LocalTZA t true.
Definition UTC (t : Z) : Z := t - LocalTZA t false.

(** [d.getFullYear()], [d.getMonth()], [d.getDate()]: NaN on an invalid
    date. *)
Definition getFullYear (d : Date) : option Z :=
  option_map (fun t => YearFromTime (LocalTime t)) d.
Definition getMonth (d : Date) : option Z :=
  option_map (fun t => MonthFromTime (LocalTime t)) d.
Definition getDate (d : Date) : option Z :=
  option_map (fun t => DateFromTime (LocalTime t)) d.

(** [new Date(y, m, d)] for numbers that are integers or NaN: a year from
    0 to 99 stands for 1900 + year. *)
Definition ofYMD (y m d : option Z) : Date :=
  match y, m, d with
  | Some y, Some m, Some d =>
      let yr := if (0 <=? y) && (y <=? 99) then 1900 + y else y in
      TimeClip (UTC (MakeDate (MakeDay yr m d) 0))
  | _, _, _ => None
  end.
End Local.

End Dates.

(** Arithmetic on numbers that are an integer or NaN. *)
Definition lift2 (f : Z -> Z -> Z) (a b : option Z) : option Z :=
  match a, b with
  | Some x, Some y => Some (f x y)
  | _, _ => None
  end.

(* ================================================================== *)
(** * The data model of [app.js] *)
(* ================================================================== *)

Record LatLng : Type := { lat : float; lng : float }.

Inductive ItemKind : Type := activity | visit | rawpoint.

(** The typedef [Item]; [end_] is its property [end]. *)
Record Item : Type := {
  kind : ItemKind;
  start : Date;
  end_ : option Date;
  title : jsstring;
  subtitle : jsstring;
  emoji : jsstring;
  point : option LatLng;
  path : list LatLng;
  distanceMeters : option float;
  activityType : option jsstring
}.

Inductive Format : Type :=
| timelineObjects
| semanticSegments
| recordsLocations
| unknown.

(** The typedef [ParsedData]. *)
Record ParsedData : Type := {
  pdItems : list Item;
  pdFormat : Format
}.

(** String literals of the source that are not ASCII, by the code units
    the source file holds. *)
Module Lit.
  (** The two units that precede [\s] in the character class of
      [parseLatLngString]. *)
Definition degreeUnits : list codeunit := [172; 8734]%N.
Definition move : jsstring := [193; 223; 170; 194; 227; 239]%N.
Definition noMove : jsstring := [8222; 197; 198]%N ++ move.
Definition unknownPlace : jsstring :=
    [8240; 8719; 231; 202; 242; 233; 8222; 197; 8482; 194; 8224; 165; 202;
     226; 196]%N.
Definition unknownAddress : jsstring :=
    [8240; 937; 232; 202; 226; 196; 8240; 8719; 231; 202; 242; 233]%N.
Definition visited : jsstring := [203; 174; 8482; 194; 239; 232]%N.
Definition pin : jsstring := [63743; 252; 236; 231]%N.
Definition bullet : jsstring := [8218; 196; 162]%N.
Definition walk : jsstring := [63743; 252; 246; 8706]%N.
Definition bike : jsstring := [63743; 252; 246; 165]%N.
Definition train : jsstring := [63743; 252; 246; 220]%N.
Definition bus : jsstring := [63743; 252; 246; 229]%N.
Definition plane : jsstring := [8218; 250; 224; 212; 8719; 232]%N.
Definition car : jsstring := [63743; 252; 246; 243]%N.
Definition still : jsstring := [63743; 252; 223; 231]%N.
Definition arrow : jsstring := [8218; 251; 176; 212; 8719; 232]%N.
Definition searched : jsstring :=
    js "timelineObjects / semanticSegments / locations[] "
    ++ [8222; 199; 237; 202; 233; 162; 8222; 197; 243; 8222; 197; 230; 8222;
        197; 243; 8222; 197; 252]%N.
End Lit.

(* ================================================================== *)
(** * Decoders *)
(* ================================================================== *)

(** The pattern [/(-?\d+(?:\.\d+)?).*(-?\d+(?:\.\d+)?)/]. *)
Definition floatPattern : Regex.re :=
  Regex.Seq (Regex.Opt (Regex.Chr (Regex.lit 45%N)))
    (Regex.Seq (Regex.Plus (Regex.Chr Str.isDigit))
       (Regex.Opt (Regex.Seq (Regex.Chr (Regex.lit 46%N))
                     (Regex.Plus (Regex.Chr Str.isDigit))))).

Definition twoFloatsPattern : Regex.re :=
  Regex.Seq (Regex.Group 1 floatPattern)
    (Regex.Seq (Regex.Star (Regex.Chr Regex.dot))
       (Regex.Group 2 floatPattern)).

(** The class of the pattern [/[..\s]/g] of [parseLatLngString]. *)
Definition stripped (c : codeunit) : bool :=
  existsb (N.eqb c) Lit.degreeUnits || Str.isSpace c.

Definition finitePair (a b : float) : option LatLng :=
  if Num.isFinite a && Num.isFinite b
  then Some {| lat := a; lng := b |} else None.

Definition parseLatLngString (s : value) : option LatLng :=
  match s with
  | VStr s =>
      if Str.eqb s [] then None
      else
        let cleaned := filter (fun c => negb (stripped c)) s in
        let fallback :=
          match Regex.exec twoFloatsPattern cleaned with
          | Some m =>
              finitePair (Num.ofString (Regex.capture 1 m))
                         (Num.ofString (Regex.capture 2 m))
          | None => None
          end in
        match Str.split 44%N cleaned with
        | p0 :: p1 :: _ =>
            match finitePair (Num.ofString p0) (Num.ofString p1) with
            | Some r => Some r
            | None => fallback
            end
        | _ => fallback
        end
  | _ => None
  end.

(** The literal [1e-7], the double nearest to 10^-7. *)
Definition e7 : float := 0x1.ad7f29abcaf48p-24%float.

Section Parsers.
  Context {RT : Runtime}.

Definition latE7ToNum (v : value) : option float :=
  let n := toNumber v in
  if Num.isFinite n then Some (n * e7)%float else None.

(** Returns a [Date] object or [null]. *)
Definition parseDateDual (isoString msString : value) : option Date :=
  let fromMs :=
    match msString with
    | VStr _ | VNum _ =>
        let ms := toNumber msString in
        if Num.isFinite ms then
          match Dates.ofNumber ms with
          | Some t => Some (Some t)
          | None => None
          end
        else None
    | _ => None
    end in
  match isoString with
  | VStr s =>
      match Date_parse s with
      | Some t => Some (Some t)
      | None => fromMs
      end
  | _ => fromMs
  end.

Fixpoint pickFirstString (candidates : list value) : jsstring :=
  match candidates with
  | [] => []
  | c :: cs =>
      match c with
      | VStr s =>
          if negb (Nat.eqb (List.length (Str.trim s)) 0) then Str.trim s
          else pickFirstString cs
      | _ => pickFirstString cs
      end
  end.

(** [activityType] is a string or [null]. *)
Definition activityEmoji (activityType : option jsstring) : jsstring :=
  let t := toUpperCase
             match activityType with
             | Some s => s
             | None => []
             end in
  if Str.includes t (js "WALK") then Lit.walk
  else if Str.includes t (js "BIC") || Str.includes t (js "CYCLE")
  then Lit.bike
  else if Str.includes t (js "TRAIN") || Str.includes t (js "SUBWAY")
          || Str.includes t (js "TRAM")
  then Lit.train
  else if Str.includes t (js "BUS") then Lit.bus
  else if Str.includes t (js "FLY") then Lit.plane
  else if Str.includes t (js "PASSENGER") || Str.includes t (js "CAR")
          || Str.includes t (js "VEHICLE")
  then Lit.car
  else if Str.includes t (js "STILL") then Lit.still
  else Lit.arrow.

(** [s.replace(/\b\w/g, c => c.toUpperCase())]: [inWord] tells whether
    the unit before is a word unit. *)
Fixpoint capitalize (inWord : bool) (s : jsstring) : jsstring :=
  match s with
  | [] => []
  | c :: s' =>
      (if Str.isWord c && negb inWord then toUpperCase [c] else [c])
      ++ capitalize (Str.isWord c) s'
  end.

(** [t.replaceAll("_"," ").toLowerCase().replace(/\b\w/g, ...)] *)
Definition titleOf (t : jsstring) : jsstring :=
  capitalize false (toLowerCase (Str.replaceAll1 95%N 32%N t)).

(** The subtitle of a movement, from its distance (a number or [null]). *)
Definition distanceLabel (d : option float) : jsstring :=
  match d with
  | Some d =>
      if Num.isFinite d then
        if (1000 <=? d)%float
        then toFixed1 (d / 1000)%float ++ js " km " ++ Lit.noMove
        else Number_toString (Math_round d) ++ js " m " ++ Lit.noMove
      else Lit.move
  | None => Lit.move
  end.

Definition finiteOrNull (d : option float) : option float :=
  match d with
  | Some x => if Num.isFinite x then Some x else None
  | None => None
  end.

(** [v != null ? Number(v) : null] *)
Definition numberOrNull (v : value) : option float :=
  if nullish v then None else Some (toNumber v).

(** [(v && String(v)) || null] *)
Definition stringOrNull (v : value) : option jsstring :=
  if truthy v then
    match toString v with
    | [] => None
    | s => Some s
    end
  else None.

Definition pair (a b : option float) : option LatLng :=
  match a, b with
  | Some x, Some y => Some {| lat := x; lng := y |}
  | _, _ => None
  end.

Definition push {A} (l : list A) (x : option A) : list A :=
  match x with
  | Some a => l ++ [a]
  | None => l
  end.

(** [a && b] and [a || b] with a right operand that might throw. *)
Definition andM (a : value) (b : result value) : result value :=
  if truthy a then b else Ok a.
Definition orM (a : value) (b : result value) : result value :=
  if truthy a then Ok a else b.

(** A [for (const x of xs)] loop over the state [s]. *)
Fixpoint forOf {A S} (xs : list A) (body : S -> A -> result S) (s : S)
    : result S :=
  match xs with
  | [] => Ok s
  | x :: xs' => s' <- body s x ;; forOf xs' body s'
  end.
End Parsers.

(* ================================================================== *)
(** * The three format parsers and the dispatcher *)
(* ================================================================== *)

Section FormatParsers.
  Context {RT : Runtime}.

(** [{lat, lng}] of the properties [la] and [lo] of [p?.], when both
    decode. *)
Definition e7Point (p : value) (la lo : string) : option LatLng :=
  pair (latE7ToNum (getOpt p la)) (latE7ToNum (getOpt p lo)).

(** The waypoint loop of an [activitySegment]. *)
Definition waypoints (wps : value) : list LatLng :=
  match asArray wps with
  | Some ps => fold_left (fun path p => push path (e7Point p "latE7" "lngE7")) ps []
  | None => []
  end.

(** The [activitySegment] block of the loop body, for a truthy [seg]. *)
Definition activitySegment (items : list Item) (seg : value)
    : result (list Item) :=
  duration <- get seg "duration" ;;
  let dur := orElse duration (VObj []) in
  startTimestamp <- get dur "startTimestamp" ;;
  startTimestampMs <- get dur "startTimestampMs" ;;
  let start := parseDateDual startTimestamp startTimestampMs in
  endTimestamp <- get dur "endTimestamp" ;;
  endTimestampMs <- get dur "endTimestampMs" ;;
  let end' := parseDateDual endTimestamp endTimestampMs in
  rawType <- get seg "activityType" ;;
  let activityType := stringOrNull rawType in
  distance <- get seg "distance" ;;
  let distanceMeters := numberOrNull distance in
  let title :=
    match activityType with
    | Some t => titleOf t
    | None => Lit.move
    end in
  let subtitle := distanceLabel distanceMeters in
  waypointPath <- get seg "waypointPath" ;;
  let path := waypoints (getOpt waypointPath "waypoints") in
  sLoc <- get seg "startLocation" ;;
  eLoc <- get seg "endLocation" ;;
  let path :=
    match path with
    | [] =>
        push (push [] (e7Point sLoc "latitudeE7" "longitudeE7"))
             (e7Point eLoc "latitudeE7" "longitudeE7")
    | _ => path
    end in
  let emoji := activityEmoji activityType in
  match start with
  | Some start =>
      Ok (items ++ [{| kind := activity;
                       start := start;
                       end_ := end';
                       title := title;
                       subtitle := subtitle;
                       emoji := emoji;
                       point := None;
                       path := path;
                       distanceMeters := finiteOrNull distanceMeters;
                       activityType := activityType |}])
  | None => Ok items
  end.

(** [(v && String(v)) || fallback] *)
Definition stringOr (v : value) (fallback : jsstring) : jsstring :=
  match stringOrNull v with
  | Some s => s
  | None => fallback
  end.

(** The [placeVisit] block of the loop body, for a truthy [v]. *)
Definition placeVisit (items : list Item) (v : value)
    : result (list Item) :=
  duration <- get v "duration" ;;
  let dur := orElse duration (VObj []) in
  startTimestamp <- get dur "startTimestamp" ;;
  startTimestampMs <- get dur "startTimestampMs" ;;
  let start := parseDateDual startTimestamp startTimestampMs in
  endTimestamp <- get dur "endTimestamp" ;;
  endTimestampMs <- get dur "endTimestampMs" ;;
  let end' := parseDateDual endTimestamp endTimestampMs in
  location <- get v "location" ;;
  let loc := orElse location (VObj []) in
  locName <- get loc "name" ;;
  let name := stringOr locName Lit.unknownPlace in
  locAddress <- get loc "address" ;;
  let address := stringOr locAddress Lit.unknownAddress in
  latitudeE7 <- get loc "latitudeE7" ;;
  longitudeE7 <- get loc "longitudeE7" ;;
  let lat := latE7ToNum latitudeE7 in
  let lng := latE7ToNum longitudeE7 in
  match start with
  | Some start =>
      Ok (items ++ [{| kind := visit;
                       start := start;
                       end_ := end';
                       title := name;
                       subtitle := address;
                       emoji := Lit.pin;
                       point := pair lat lng;
                       path := [];
                       distanceMeters := None;
                       activityType := None |}])
  | None => Ok items
  end.

(** One turn of the loop of [parseTimelineObjects]. *)
Definition timelineObject (items : list Item) (obj : value)
    : result (list Item) :=
  seg <- andM obj (get obj "activitySegment") ;;
  items <- (if truthy seg then activitySegment items seg else Ok items) ;;
  v <- andM obj (get obj "placeVisit") ;;
  if truthy v then placeVisit items v else Ok items.

Definition parseTimelineObjects (timelineObjects : list value)
    : result (list Item) :=
  forOf timelineObjects timelineObject [].

(** [(typeof v === "string") ? new Date(v) : null] *)
Definition dateOfString (v : value) : option Date :=
  match v with
  | VStr s => Some (Date_parse s)
  | _ => None
  end.

(** [(end && !isNaN(end.getTime())) ? end : null] *)
Definition validOrNull (d : option Date) : option Date :=
  match d with
  | Some (Some t) => Some (Some t)
  | _ => None
  end.

(** The [visit] branch of the loop body. *)
Definition semanticVisit (items : list Item) (seg : value)
    (start : Date) (end' : option Date) : result (list Item) :=
  segVisit <- get seg "visit" ;;
  let top := orElse (getOpt segVisit "topCandidate") (VObj []) in
  placeLocation <- get top "placeLocation" ;;
  placeLoc <-
    orM placeLocation
      (placeLocationLatLng <- get top "placeLocationLatLng" ;;
       orM placeLocationLatLng (Ok (getOpt placeLocation "latLng"))) ;;
  let latLngStr :=
    match getOpt placeLocation "latLng", placeLocation, placeLoc with
    | VStr s, _, _ => VStr s
    | _, VStr s, _ => VStr s
    | _, _, VStr s => VStr s
    | _, _, _ => VNull
    end in
  let point := parseLatLngString latLngStr in
  placeName <- get top "placeName" ;;
  topName <- get top "name" ;;
  placeId <- get top "placeId" ;;
  semanticType <- get top "semanticType" ;;
  let name :=
    pickFirstString
      [placeName; topName; placeId; semanticType;
       getOpt (getOpt segVisit "topCandidate") "semanticType";
       VStr (js "Visit")] in
  placeAddress <- get top "placeAddress" ;;
  topAddress <- get top "address" ;;
  let hierarchyLevel := getOpt segVisit "hierarchyLevel" in
  let addr :=
    pickFirstString
      [placeAddress; topAddress; getOpt segVisit "address";
       if nullish hierarchyLevel then VNull
       else VStr (js "hierarchyLevel=" ++ toString hierarchyLevel);
       VStr []] in
  Ok (items ++ [{| kind := visit;
                   start := start;
                   end_ := validOrNull end';
                   title := name;
                   subtitle := match addr with
                               | [] => Lit.visited
                               | _ => addr
                               end;
                   emoji := Lit.pin;
                   point := point;
                   path := [];
                   distanceMeters := None;
                   activityType := None |}]).

(** The [timelinePath] loop of the [activity] branch. *)
Definition timelinePath (tp : value) : list LatLng :=
  match asArray tp with
  | Some ps =>
      fold_left
        (fun path p => push path (parseLatLngString (getOpt p "point")))
        ps []
  | None => []
  end.

(** The [activity] branch of the loop body. *)
Definition semanticActivity (items : list Item) (seg : value)
    (start : Date) (end' : option Date) : result (list Item) :=
  segActivity <- get seg "activity" ;;
  let top := orElse (getOpt segActivity "topCandidate") (VObj []) in
  topType <- get top "type" ;;
  let type :=
    pickFirstString
      [topType; getOpt segActivity "type"; VStr (js "ACTIVITY")] in
  let title :=
    match type with
    | [] => Lit.move
    | _ => titleOf type
    end in
  let dist := numberOrNull (getOpt segActivity "distanceMeters") in
  let subtitle := distanceLabel dist in
  let startPt :=
    parseLatLngString (getOpt (getOpt segActivity "start") "latLng") in
  let endPt :=
    parseLatLngString (getOpt (getOpt segActivity "end") "latLng") in
  tp <- get seg "timelinePath" ;;
  let path := timelinePath tp in
  let path :=
    match path with
    | [] => push (push [] startPt) endPt
    | _ => path
    end in
  Ok (items ++ [{| kind := activity;
                   start := start;
                   end_ := validOrNull end';
                   title := title;
                   subtitle := subtitle;
                   emoji := activityEmoji (Some type);
                   point := None;
                   path := path;
                   distanceMeters := finiteOrNull dist;
                   activityType := match type with
                                   | [] => None
                                   | _ => Some type
                                   end |}]).

(** One turn of the loop of [parseSemanticSegments]. *)
Definition semanticSegment (items : list Item) (seg : value)
    : result (list Item) :=
  let start := dateOfString (getOpt seg "startTime") in
  let end' := dateOfString (getOpt seg "endTime") in
  match start with
  | Some (Some t) =>
      segVisit <- get seg "visit" ;;
      if truthy segVisit then semanticVisit items seg (Some t) end'
      else
        segActivity <- get seg "activity" ;;
        if truthy segActivity
        then semanticActivity items seg (Some t) end'
        else Ok items
  | _ => Ok items
  end.

Definition parseSemanticSegments (semanticSegments : list value)
    : result (list Item) :=
  forOf semanticSegments semanticSegment [].

(** One turn of the loop of [parseRecordsLocations]. *)
Definition recordsLocation (items : list Item) (loc : value)
    : result (list Item) :=
  let ms :=
    coalesce (coalesce (coalesce (getOpt loc "timestampMs")
                                 (getOpt loc "timestampMS"))
                       (getOpt loc "timestamp")) VNull in
  match parseDateDual VNull ms with
  | Some t =>
      match latE7ToNum (getOpt loc "latitudeE7"),
            latE7ToNum (getOpt loc "longitudeE7") with
      | Some lat, Some lng =>
          Ok (items ++ [{| kind := rawpoint;
                           start := t;
                           end_ := None;
                           title := js "Location point";
                           subtitle :=
                             js "accuracy="
                             ++ toString (coalesce (getOpt loc "accuracy")
                                                   (VStr (js "?")))
                             ++ js "m";
                           emoji := Lit.bullet;
                           point := Some {| lat := lat; lng := lng |};
                           path := [];
                           distanceMeters := None;
                           activityType := None |}])
      | _, _ => Ok items
      end
  | None => Ok items
  end.

Definition parseRecordsLocations (locations : list value)
    : result (list Item) :=
  forOf locations recordsLocation [].

(** [json && Array.isArray(json.k)]: the array, when the test holds. *)
Definition arrayField (json : value) (k : string)
    : result (option (list value)) :=
  if truthy json then v <- get json k ;; Ok (asArray v) else Ok None.

Definition parseAnyGoogleTimeline (json : value) : result ParsedData :=
  a <- arrayField json "timelineObjects" ;;
  match a with
  | Some arr =>
      items <- parseTimelineObjects arr ;;
      Ok {| pdItems := items; pdFormat := timelineObjects |}
  | None =>
      a <- arrayField json "semanticSegments" ;;
      match a with
      | Some arr =>
          items <- parseSemanticSegments arr ;;
          Ok {| pdItems := items; pdFormat := semanticSegments |}
      | None =>
          a <- arrayField json "locations" ;;
          match a with
          | Some arr =>
              items <- parseRecordsLocations arr ;;
              Ok {| pdItems := items; pdFormat := recordsLocations |}
          | None => Ok {| pdItems := []; pdFormat := unknown |}
          end
      end
  end.
End FormatParsers.

(* ================================================================== *)
(** * Arrays and sets of numbers *)
(* ================================================================== *)

(** [Array.prototype.sort(cmp)]: a stable sort, here by insertion. (The
    language fixes the result only for a consistent comparator.) *)
Section Sort.
  Variable A : Type.
  Variable cmp : A -> A -> Z.

Fixpoint insert (x : A) (l : list A) : list A :=
  match l with
  | [] => [x]
  | y :: l' => if 0 <? cmp x y then y :: insert x l' else x :: l
  end.

Fixpoint sortBy (l : list A) : list A :=
  match l with
  | [] => []
  | x :: l' => insert x (sortBy l')
  end.
End Sort.
Arguments insert {A} cmp x l.
Arguments sortBy {A} cmp l.

(** [a - b] as a comparator result: NaN counts as 0. *)
Definition cmpNum (a b : option Z) : Z :=
  match lift2 Z.sub a b with
  | Some z => z
  | None => 0
  end.

(** [a === b] on numbers: NaN equals nothing. *)
Definition strictEq (a b : option Z) : bool :=
  match a, b with
  | Some x, Some y => x =? y
  | _, _ => false
  end.

(** A [Set] of numbers, in insertion order; [SameValueZero] identifies NaN
    with itself. *)
Definition sameValueZero (a b : option Z) : bool :=
  match a, b with
  | Some x, Some y => x =? y
  | None, None => true
  | _, _ => false
  end.

Definition setAdd (s : list (option Z)) (k : option Z) : list (option Z) :=
  if existsb (sameValueZero k) s then s else s ++ [k].

(** [arr.findIndex(p)] *)
Fixpoint findIndex {A} (p : A -> bool) (l : list A) : Z :=
  match l with
  | [] => -1
  | x :: l' =>
      if p x then 0
      else let i := findIndex p l' in if i <? 0 then -1 else i + 1
  end.

(* ================================================================== *)
(** * The session state, the day index and the navigator *)
(* ================================================================== *)

(** The global [state], without the map, and what the code writes to the
    page: the two navigation buttons and the toast. *)
Record State : Type := {
  items : list Item;
  sortedDays : list Date;
  dayKeySet : list (option Z);
  selectedDay : option Date;
  detectedFormat : Format;
  monthAnchor : option Date;
  prevDisabled : bool;
  nextDisabled : bool;
  toast : option (jsstring * jsstring)
}.

Section Session.
  Context {RT : Runtime}.

(** YYYYMMDD in local time. *)
Definition dayKey (d : Date) : option Z :=
  let y := Dates.getFullYear d in
  let m := lift2 Z.add (Dates.getMonth d) (Some 1) in
  let dd := Dates.getDate d in
  lift2 Z.add
    (lift2 Z.add (lift2 Z.mul y (Some 10000)) (lift2 Z.mul m (Some 100)))
    dd.

Definition startOfDay (d : Date) : Date :=
  Dates.ofYMD (Dates.getFullYear d) (Dates.getMonth d) (Dates.getDate d).

(** Find nearest available day index for selected day. *)
Definition currentDayIndex (st : State) : Z :=
  match selectedDay st with
  | None => -1
  | Some d =>
      let k := dayKey d in
      findIndex (fun d' => strictEq (dayKey d') k) (sortedDays st)
  end.

Definition updateNavButtons (st : State) : State :=
  let idx := currentDayIndex st in
  let has := negb (Nat.eqb (List.length (sortedDays st)) 0) in
  {| items := items st;
     sortedDays := sortedDays st;
     dayKeySet := dayKeySet st;
     selectedDay := selectedDay st;
     detectedFormat := detectedFormat st;
     monthAnchor := monthAnchor st;
     prevDisabled := negb has || (idx <=? 0);
     nextDisabled :=
       negb has || (idx <? 0)
       || (Z.of_nat (List.length (sortedDays st)) - 1 <=? idx);
     toast := toast st |}.

(** The main render: of what it writes, the model keeps the buttons. *)
Definition renderAll (st : State) : State := updateNavButtons st.

Definition select (d : option Date) (st : State) : State :=
  {| items := items st;
     sortedDays := sortedDays st;
     dayKeySet := dayKeySet st;
     selectedDay := d;
     detectedFormat := detectedFormat st;
     monthAnchor := monthAnchor st;
     prevDisabled := prevDisabled st;
     nextDisabled := nextDisabled st;
     toast := toast st |}.

Definition goPrev (st : State) : State :=
  let idx := currentDayIndex st in
  if 0 <? idx
  then renderAll (select (nth_error (sortedDays st) (Z.to_nat (idx - 1))) st)
  else st.

Definition goNext (st : State) : State :=
  let idx := currentDayIndex st in
  if (0 <=? idx) && (idx <? Z.of_nat (List.length (sortedDays st)) - 1)
  then renderAll (select (nth_error (sortedDays st) (Z.to_nat (idx + 1))) st)
  else st.

(** The key [k] of a day back to a [Date]. *)
Definition dayOfKey (k : option Z) : Date :=
  let y := option_map (fun k => k / 10000) k in
  let m := option_map (fun k => Z.rem k 10000 / 100 - 1) k in
  let d := option_map (fun k => Z.rem k 100) k in
  Dates.ofYMD y m d.

(** Build availability set and sorted days. *)
Definition rebuildDays (st : State) : State :=
  let set := fold_left (fun s it => setAdd s (dayKey (start it)))
               (items st) [] in
  let keys := sortBy cmpNum set in
  let days := List.map dayOfKey keys in
  updateNavButtons
    {| items := items st;
       sortedDays := days;
       dayKeySet := set;
       selectedDay := hd_error days;
       detectedFormat := detectedFormat st;
       monthAnchor := hd_error days;
       prevDisabled := prevDisabled st;
       nextDisabled := nextDisabled st;
       toast := toast st |}.

(** [a >= b] and [a < b] on dates: false when either is invalid. *)
Definition dateGe (a b : Date) : bool :=
  match a, b with
  | Some x, Some y => y <=? x
  | _, _ => false
  end.

Definition dateLt (a b : Date) : bool :=
  match a, b with
  | Some x, Some y => x <? y
  | _, _ => false
  end.

(** [(a, b) => a.start.getTime() - b.start.getTime()] *)
Definition byStart (a b : Item) : Z := cmpNum (start a) (start b).

(** The end of the day that starts at [s]: local midnight of the day
    after. *)
Definition nextMidnight (s : Date) : Date :=
  Dates.ofYMD (Dates.getFullYear s) (Dates.getMonth s)
             (lift2 Z.add (Dates.getDate s) (Some 1)).

(** Filter items by selected day. *)
Definition itemsForSelectedDay (st : State) : list Item :=
  match selectedDay st with
  | None => []
  | Some sel =>
      let s := startOfDay sel in
      let e := nextMidnight s in
      sortBy byStart
        (filter (fun it => dateGe (start it) s && dateLt (start it) e)
                (items st))
  end.

Definition showToast (msg small : jsstring) (st : State) : State :=
  {| items := items st;
     sortedDays := sortedDays st;
     dayKeySet := dayKeySet st;
     selectedDay := selectedDay st;
     detectedFormat := detectedFormat st;
     monthAnchor := monthAnchor st;
     prevDisabled := prevDisabled st;
     nextDisabled := nextDisabled st;
     toast := Some (msg, small) |}.

Definition isValid (d : Date) : bool :=
  match d with
  | Some _ => true
  | None => false
  end.

(** The state after the two assignments of [onFileSelected]. *)
Definition assign (its : list Item) (f : Format) (st : State) : State :=
  {| items := its;
     sortedDays := sortedDays st;
     dayKeySet := dayKeySet st;
     selectedDay := selectedDay st;
     detectedFormat := f;
     monthAnchor := monthAnchor st;
     prevDisabled := prevDisabled st;
     nextDisabled := nextDisabled st;
     toast := toast st |}.

(** [onFileSelected], from the text of the file on. An exception that
    escapes leaves the state as it was. *)
Definition onFileSelected (text : jsstring) (st : State) : result State :=
  match JSON_parse text with
  | Throw e => Ok (showToast (js "JSON parse error") (exnToString e) st)
  | Ok json =>
      parsed <- parseAnyGoogleTimeline json ;;
      let its := filter (fun it => isValid (start it)) (pdItems parsed) in
      let st := assign (sortBy byStart its) (pdFormat parsed) st in
      let st := rebuildDays st in
      match items st with
      | [] =>
          Ok (renderAll
                (showToast (js "No supported data found") Lit.searched st))
      | _ =>
          Ok (renderAll
                (showToast (js "Loaded")
                   (Str.ofNat (Z.of_nat (List.length (items st)))
                    ++ js " items, "
                    ++ Str.ofNat (Z.of_nat (List.length (sortedDays st)))
                    ++ js " days")
                   st))
      end
  end.

(** The state when the module has run. *)
Definition initial : State :=
  renderAll
    {| items := [];
       sortedDays := [];
       dayKeySet := [];
       selectedDay := None;
       detectedFormat := unknown;
       monthAnchor := None;
       prevDisabled := false;
       nextDisabled := false;
       toast := None |}.
End Session.

(* ================================================================== *)
(** * The page: escaped text and the layers of the map *)
(* ================================================================== *)

(** What the replacer of [escapeHtml] puts for a unit that its class of
    five units matches, and the unit itself otherwise. *)
Definition entity (c : codeunit) : jsstring :=
  if N.eqb c 38 then js "&amp;"
  else if N.eqb c 60 then js "&lt;"
  else if N.eqb c 62 then js "&gt;"
  else if N.eqb c 34 then js "&quot;"
  else if N.eqb c 39 then js "&#39;"
  else [c].

Section Escaping.
  Context {RT : Runtime}.

Definition escapeHtml (s : value) : jsstring :=
  flat_map entity (toString s).

Definition escapeAttr (s : value) : jsstring :=
  Str.replaceAll1 10%N 32%N (escapeHtml s).
End Escaping.

(** A layer of the map, by the call of Leaflet that makes it:
    [L.polyline(latlngs, ...)], [L.marker([lat, lng])] with the text of
    its popup, [L.circleMarker([lat, lng], ...)]. *)
Inductive Layer : Type :=
| polyline (latlngs : list (float * float))
| marker (at_ : float * float) (popup : jsstring)
| circleMarker (at_ : float * float).

(** What [focusItemOnMap] asks of the map: [setView] or [fitBounds]. *)
Inductive Focus : Type :=
| setView (at_ : float * float)
| fitBounds (latlngs : list (float * float)).

(** [[p.lat, p.lng]] *)
Definition latLng (p : LatLng) : float * float := (lat p, lng p).

(** What [renderMap] has after its loop: the layers added to the map, in
    order, and the points the view is fitted to. *)
Record MapView : Type := {
  mapLayers : list Layer;
  coords : list LatLng
}.

Section MapLayers.
  Context {RT : Runtime}.

(** One turn of the loop of [renderMap]. *)
Definition drawItem (v : MapView) (it : Item) : MapView :=
  match kind it with
  | activity =>
      if (2 <=? List.length (path it))%nat
      then {| mapLayers :=
                mapLayers v ++ [polyline (List.map latLng (path it))];
              coords := coords v ++ path it |}
      else v
  | visit =>
      match point it with
      | Some p =>
          {| mapLayers :=
               mapLayers v
               ++ [marker (latLng p)
                     (js "<b>" ++ escapeHtml (VStr (title it))
                      ++ js "</b><br/>" ++ escapeHtml (VStr (subtitle it)))];
             coords := coords v ++ [p] |}
      | None => v
      end
  | rawpoint =>
      match point it with
      | Some p =>
          {| mapLayers := mapLayers v ++ [circleMarker (latLng p)];
             coords := coords v ++ [p] |}
      | None => v
      end
  end.

(** [renderMap], once the map is there and its layers are cleared: the
    layers, and the bounds the view is fitted to when there is a point. *)
Definition renderMap (st : State)
    : list Layer * option (list (float * float)) :=
  let v := fold_left drawItem (itemsForSelectedDay st)
             {| mapLayers := []; coords := [] |} in
  (mapLayers v,
   match coords v with
   | [] => None
   | _ => Some (List.map latLng (coords v))
   end).

(** What [focusItemOnMap] shows of an item, if anything. *)
Definition focusOf (it : Item) : option Focus :=
  match kind it with
  | visit =>
      match point it with
      | Some p => Some (setView (latLng p))
      | None => None
      end
  | activity =>
      if (2 <=? List.length (path it))%nat
      then Some (fitBounds (List.map latLng (path it)))
      else None
  | rawpoint =>
      match point it with
      | Some p => Some (setView (latLng p))
      | None => None
      end
  end.

(** [focusItemOnMap], once the map is there: the state it leaves. *)
Definition focusItemOnMap (it : Item) (st : State) : State :=
  match focusOf it with
  | Some _ => showToast (title it) (subtitle it) st
  | None => st
  end.
End MapLayers.

(* ================================================================== *)
(** * The page: the calendar *)
(* ================================================================== *)

(** A cell of the grid of the calendar: its class, its text and, when it
    has a listener, the date that a click selects. *)
Record Cell : Type := {
  className : jsstring;
  textContent : jsstring;
  onClick : option Date
}.

Section Calendar.
  Context {RT : Runtime}.

(** [d.getDay()]: the day of the week in local time, 0 for Sunday. *)
Definition getDay (d : Date) : option Z :=
  option_map (fun t => (Dates.Day (Dates.LocalTime t) + 4) mod 7) d.

(** The cell before the first of the month. *)
Definition emptyCell : Cell :=
  {| className := js "cell empty"; textContent := []; onClick := None |}.

(** The cell of the date [date], whose key is [k], numbered [day]. *)
Definition cellOf (st : State) (k : option Z) (date : Date) (day : Z)
    : Cell :=
  let avail := existsb (sameValueZero k) (dayKeySet st) in
  let selected :=
    match selectedDay st with
    | Some d => strictEq (dayKey d) k
    | None => false
    end in
  {| className :=
       js "cell" ++ (if avail then js " avail" else js " disabled")
       ++ (if selected then js " selected" else []);
     textContent := Str.ofNat day;
     onClick := if avail then Some date else None |}.

(** The cell that the loop over the dates makes at index [i]. *)
Definition dateCell (st : State) (y m : option Z) (leadEmpty i : Z) : Cell :=
  if i <? leadEmpty then emptyCell
  else
    let day := i - leadEmpty + 1 in
    let date := Dates.ofYMD y m (Some day) in
    cellOf st (dayKey date) date day.

(** The date cells of [renderCalendar], after the seven cells of the
    header; [None] when the placeholder is shown instead of a grid. *)
Definition renderCalendar (st : State) : option (list Cell) :=
  match monthAnchor st with
  | None => None
  | Some anchor =>
      if Nat.eqb (List.length (sortedDays st)) 0 then None
      else
        let y := Dates.getFullYear anchor in
        let m := Dates.getMonth anchor in
        let monthStart := Dates.ofYMD y m (Some 1) in
        let monthEnd := Dates.ofYMD y (lift2 Z.add m (Some 1)) (Some 0) in
        let daysInMonth := Dates.getDate monthEnd in
        let leadEmpty := getDay monthStart in
        match lift2 Z.add leadEmpty daysInMonth, leadEmpty with
        | Some total, Some lead =>
            Some (List.map (fun i => dateCell st y m lead (Z.of_nat i))
                    (seq 0 (Z.to_nat total)))
        | _, _ => Some []
        end
  end.

(** The listener of an available cell. *)
Definition clickCell (date : Date) (st : State) : State :=
  renderAll (select (Some date) st).
End Calendar.

(* ================================================================== *)
(** * The service worker, [sw.js] *)
(* ================================================================== *)

Module ServiceWorker.

Definition PRECACHE : jsstring := js "timeline-trace-local-v2".

(** [cacheName()], from [self.registration.scope]. *)
Definition cacheName (scope : jsstring) : jsstring :=
  PRECACHE ++ js "::" ++ scope.

(** The names of the caches of the origin after the [install] handler:
    [caches.open] makes the cache of the worker when it is not there. *)
Definition install (scope : jsstring) (keys : list jsstring)
    : list jsstring :=
  if existsb (Str.eqb (cacheName scope)) keys then keys
  else keys ++ [cacheName scope].

(** The caches that the [activate] handler deletes. *)
Definition stale (scope : jsstring) (keys : list jsstring)
    : list jsstring :=
  let keep := cacheName scope in
  filter (fun k => Str.isPrefix PRECACHE k && negb (Str.eqb k keep)) keys.

(** The names of the caches of the origin after the [activate] handler. *)
Definition activate (scope : jsstring) (keys : list jsstring)
    : list jsstring :=
  filter (fun k => negb (existsb (Str.eqb k) (stale scope keys))) keys.

End ServiceWorker.

(* ================================================================== *)
(** * A runtime to compute with *)
(* ================================================================== *)

(** An engine in the UTC time zone, for the worked examples. Its
    [Date.parse] reads the date-time format of ECMAScript
    ([YYYY-MM-DD], [YYYY-MM-DDTHH:mm[:ss[.sss]]] and an offset [Z] or
    [+HH:mm]); its case mapping is that of the ASCII letters. *)
Module Ref.

Definition lower (c : codeunit) : codeunit :=
  if (65 <=? c)%N && (c <=? 90)%N then (c + 32)%N else c.
Definition upper (c : codeunit) : codeunit :=
  if (97 <=? c)%N && (c <=? 122)%N then (c - 32)%N else c.

(** A positive finite double as a fraction. *)
Definition fraction (m : positive) (e : Z) : Z * Z :=
  if 0 <=? e then (Zpos m * 2 ^ e, 1) else (Zpos m, 2 ^ (- e)).

(** [floor (n / d * 10^j)] and twice the remainder compared with the
    divisor, for positive [n] and [d]. *)
Definition scaleDiv (n d j : Z) : Z * comparison :=
  let n' := if 0 <=? j then n * 10 ^ j else n in
  let d' := if 0 <=? j then d else d * 10 ^ (- j) in
  (n' / d', (2 * (n' mod d')) ?= d').

(** [x.toFixed(1)] for a number below 10^21 in magnitude. *)
Definition toFixed1 (big : float -> jsstring) (x : float) : jsstring :=
  match Prim2SF x with
  | S754_zero _ => js "0.0"
  | S754_finite s m e =>
      let (n, d) := fraction m e in
      if 10 ^ 21 * d <=? n then big x
      else
        let (q, c) := scaleDiv n d 1 in
        let q := match c with Lt => q | _ => q + 1 end in
        let ds := Str.ofNat q in
        let ds := repeat 48%N (2 - List.length ds) ++ ds in
        (if s then js "-" else [])
        ++ firstn (List.length ds - 1) ds ++ js "."
        ++ skipn (List.length ds - 1) ds
  | _ => big x
  end.

(** The number of decimal digits of the integer part: the [n] with
    [10^(n-1) <= x < 10^n], searched for from an estimate. *)
Fixpoint magnitudeFrom (fuel : nat) (n d k : Z) : Z :=
  match fuel with
  | O => k
  | S f =>
      let lo := if 0 <=? k - 1 then 10 ^ (k - 1) * d <=? n
                else d <=? n * 10 ^ (1 - k) in
      let hi := if 0 <=? k then n <? 10 ^ k * d
                else n * 10 ^ (- k) <? d in
      if negb lo then magnitudeFrom f n d (k - 1)
      else if negb hi then magnitudeFrom f n d (k + 1)
      else k
  end.

Definition magnitude (n d : Z) : Z :=
  magnitudeFrom 8 n d (((Z.log2 n - Z.log2 d) * 30103) / 100000 + 1).

(** The shortest digits that read back as [x]: digits [s], their number
    [k] and the exponent [n] of [Number::toString]. *)
Fixpoint shortest (fuel : nat) (x : float) (n d mag k : Z)
    : Z * Z * Z :=
  let (q, c) := scaleDiv n d (k - mag) in
  let s := match c with
           | Lt => q
           | Gt => q + 1
           | Eq => if Z.even q then q else q + 1
           end in
  let other := if s =? q then q + 1 else q in
  let ok s := (0 <? s) && PrimFloat.eqb (Num.ofDecimal false s (mag - k)) x in
  match fuel with
  | O => (s, k, mag)
  | S f =>
      if ok s then (if s =? 10 ^ k then (1, 1, mag + 1) else (s, k, mag))
      else if ok other
      then (if other =? 10 ^ k then (1, 1, mag + 1) else (other, k, mag))
      else shortest f x n d mag (k + 1)
  end.

Fixpoint stripZeros (fuel : nat) (s k : Z) : Z * Z :=
  match fuel with
  | O => (s, k)
  | S f => if (s mod 10 =? 0) && (1 <? k) then stripZeros f (s / 10) (k - 1)
           else (s, k)
  end.

Definition zeros (n : Z) : jsstring := repeat 48%N (Z.to_nat n).

(** [Number::toString(x)] in radix 10. *)
Definition numberToString (x : float) : jsstring :=
  match Prim2SF x with
  | S754_nan => js "NaN"
  | S754_zero _ => js "0"
  | S754_infinity s => if s then js "-Infinity" else js "Infinity"
  | S754_finite sg m e =>
      let (n, d) := fraction m e in
      let mag := magnitude n d in
      let '(s, k, n10) := shortest 17 (abs x) n d mag 1 in
      let '(s, k) := stripZeros 17 s k in
      let ds := Str.ofNat s in
      (if sg then js "-" else []) ++
      if (k <=? n10) && (n10 <=? 21) then ds ++ zeros (n10 - k)
      else if (0 <? n10) && (n10 <=? 21)
      then firstn (Z.to_nat n10) ds ++ js "." ++ skipn (Z.to_nat n10) ds
      else if (-6 <? n10) && (n10 <=? 0)
      then js "0." ++ zeros (- n10) ++ ds
      else
        let ex := (if 0 <=? n10 - 1 then js "e+" else js "e-")
                  ++ Str.ofNat (Z.abs (n10 - 1)) in
        match ds with
        | [c] => c :: ex
        | c :: r => c :: js "." ++ r ++ ex
        | [] => ex
        end
  end.

(** [Math.round(x)]: the nearest integer, a tie going up. *)
Definition round (x : float) : float :=
  match Prim2SF x with
  | S754_finite s m e =>
      if 0 <=? e then x
      else
        let n := ((if s then -2 else 2) * Zpos m + 2 ^ (- e)) / 2 ^ (- e + 1) in
        if n =? 0 then (if s then (-0)%float else 0%float)
        else SF2Prim (binary_normalize prec emax n 0 false)
  | _ => x
  end.

(** Exactly [n] digits, as a number, and the rest. *)
Definition digits (n : nat) (s : jsstring) : option (Z * jsstring) :=
  let ds := firstn n s in
  if Nat.eqb (List.length ds) n && forallb Str.isDigit ds
  then Some (Num.valueIn 10 ds, skipn n s) else None.

Definition expect (c : codeunit) (s : jsstring) : option jsstring :=
  match s with
  | x :: r => if N.eqb x c then Some r else None
  | [] => None
  end.

Definition DaysInMonth (y m : Z) : Z :=
  Dates.monthStart (Dates.InLeapYear y) m
  - Dates.monthStart (Dates.InLeapYear y) (m - 1).

(** The offset at the end of a date-time string, in minutes. *)
Definition offset (s : jsstring) : option Z :=
  match s with
  | [] => Some 0
  | [90%N] => Some 0
  | sign :: r =>
      if N.eqb sign 43 || N.eqb sign 45 then
        match digits 2 r with
        | Some (h, r1) =>
            match expect 58%N r1 with
            | Some r2 =>
                match digits 2 r2 with
                | Some (m, []) =>
                    if (h <=? 23) && (m <=? 59)
                    then Some ((if N.eqb sign 45 then -1 else 1)
                               * (h * 60 + m))
                    else None
                | _ => None
                end
            | None => None
            end
        | None => None
        end
      else None
  end.

(** The time of day after [T], in milliseconds, and the rest. *)
Definition timeOfDay (s : jsstring) : option (Z * jsstring) :=
  match digits 2 s with
  | Some (h, r) =>
      match expect 58%N r with
      | Some r =>
          match digits 2 r with
          | Some (mi, r) =>
              let '(sec, ms, r) :=
                match expect 58%N r with
                | Some r1 =>
                    match digits 2 r1 with
                    | Some (sec, r2) =>
                        match expect 46%N r2 with
                        | Some r3 =>
                            match digits 3 r3 with
                            | Some (ms, r4) => (sec, ms, r4)
                            | None => (sec, 0, r2)
                            end
                        | None => (sec, 0, r2)
                        end
                    | None => (0, 0, r)
                    end
                | None => (0, 0, r)
                end in
              if (h <=? 23) && (mi <=? 59) && (sec <=? 59)
              then Some (((h * 60 + mi) * 60 + sec) * 1000 + ms, r)
              else None
          | None => None
          end
      | None => None
      end
  | None => None
  end.

Definition dateParse (s : jsstring) : Date :=
  match digits 4 s with
  | Some (y, r) =>
      match expect 45%N r with
      | Some r =>
          match digits 2 r with
          | Some (m, r) =>
              match expect 45%N r with
              | Some r =>
                  match digits 2 r with
                  | Some (d, r) =>
                      if (1 <=? m) && (m <=? 12) && (1 <=? d)
                         && (d <=? DaysInMonth y m)
                      then
                        let day := Dates.MakeDay y (m - 1) d in
                        match r with
                        | [] => Dates.TimeClip (Dates.MakeDate day 0)
                        | t :: r =>
                            if N.eqb t 84 then
                              match timeOfDay r with
                              | Some (ms, r) =>
                                  match offset r with
                                  | Some off =>
                                      Dates.TimeClip
                                        (Dates.MakeDate day ms - off * 60000)
                                  | None => None
                                  end
                              | None => None
                              end
                            else None
                        end
                      else None
                  | None => None
                  end
              | None => None
              end
          | None => None
          end
      | None => None
      end
  | None => None
  end.

(** ** [JSON.parse] *)

Definition isJsonSpace (c : codeunit) : bool :=
  N.eqb c 32 || N.eqb c 9 || N.eqb c 10 || N.eqb c 13.

Definition skipWs (s : jsstring) : jsstring := Str.dropWhile isJsonSpace s.

(** The grammar of a JSON number: an optional minus, an integer part
    without a leading zero, an optional fraction and an optional
    exponent. *)
Definition jsonNumberOk (t : jsstring) : bool :=
  let t := match t with
           | 45%N :: r => r
           | _ => t
           end in
  let (ip, r) := Str.span Str.isDigit t in
  let intOk := match ip with
               | [] => false
               | [_] => true
               | 48%N :: _ => false
               | _ => true
               end in
  let (fracOk, r) :=
    match r with
    | 46%N :: r1 =>
        let (fp, r2) := Str.span Str.isDigit r1 in
        (negb (Nat.eqb (List.length fp) 0), r2)
    | _ => (true, r)
    end in
  intOk && fracOk &&
  match Num.exponentPart r with
  | Some _ => true
  | None => false
  end.

Definition isNumberUnit (c : codeunit) : bool :=
  Str.isDigit c || N.eqb c 45 || N.eqb c 43 || N.eqb c 46 || N.eqb c 101
  || N.eqb c 69.

Definition hex4 (s : jsstring) : option (codeunit * jsstring) :=
  let ds := firstn 4 s in
  if Nat.eqb (List.length ds) 4 && forallb (fun c => Num.digitVal c <? 16) ds
  then Some (Z.to_N (Num.valueIn 16 ds), skipn 4 s) else None.

(** The units of a string literal after its opening quote, and the rest. *)
Fixpoint jsonString (fuel : nat) (s acc : jsstring)
    : option (jsstring * jsstring) :=
  match fuel with
  | O => None
  | S f =>
      match s with
      | [] => None
      | 34%N :: r => Some (rev acc, r)
      | 92%N :: e :: r =>
          if N.eqb e 117 then
            match hex4 r with
            | Some (u, r') => jsonString f r' (u :: acc)
            | None => None
            end
          else
            let u := if N.eqb e 34 then Some 34%N
                     else if N.eqb e 92 then Some 92%N
                     else if N.eqb e 47 then Some 47%N
                     else if N.eqb e 98 then Some 8%N
                     else if N.eqb e 102 then Some 12%N
                     else if N.eqb e 110 then Some 10%N
                     else if N.eqb e 114 then Some 13%N
                     else if N.eqb e 116 then Some 9%N
                     else None in
            match u with
            | Some u => jsonString f r (u :: acc)
            | None => None
            end
      | c :: r => if (c <? 32)%N then None else jsonString f r (c :: acc)
      end
  end.

(** A property set on an object under construction: a later value for a
    key replaces the earlier one in place. *)
Fixpoint define (k : jsstring) (v : value) (fs : list (jsstring * value))
    : list (jsstring * value) :=
  match fs with
  | [] => [(k, v)]
  | (k', v') :: fs' =>
      if Str.eqb k k' then (k, v) :: fs' else (k', v') :: define k v fs'
  end.

Fixpoint jsonValue (fuel : nat) (s : jsstring) {struct fuel}
    : option (value * jsstring) :=
  match fuel with
  | O => None
  | S f =>
      match skipWs s with
      | 123%N :: r =>
          match skipWs r with
          | 125%N :: r' => Some (VObj [], r')
          | r' => jsonMembers f [] r'
          end
      | 91%N :: r =>
          match skipWs r with
          | 93%N :: r' => Some (VArr [], r')
          | r' => jsonElements f [] r'
          end
      | 34%N :: r =>
          match jsonString (S (List.length r)) r [] with
          | Some (str, r') => Some (VStr str, r')
          | None => None
          end
      | t =>
          if Str.isPrefix (js "null") t then Some (VNull, skipn 4 t)
          else if Str.isPrefix (js "true") t
          then Some (VBool true, skipn 4 t)
          else if Str.isPrefix (js "false") t
          then Some (VBool false, skipn 5 t)
          else
            let (tok, r) := Str.span isNumberUnit t in
            if jsonNumberOk tok then Some (VNum (Num.ofString tok), r)
            else None
      end
  end
with jsonElements (fuel : nat) (acc : list value) (s : jsstring)
    {struct fuel} : option (value * jsstring) :=
  match fuel with
  | O => None
  | S f =>
      match jsonValue f s with
      | Some (v, r) =>
          match skipWs r with
          | 44%N :: r' => jsonElements f (acc ++ [v]) r'
          | 93%N :: r' => Some (VArr (acc ++ [v]), r')
          | _ => None
          end
      | None => None
      end
  end
with jsonMembers (fuel : nat) (acc : list (jsstring * value)) (s : jsstring)
    {struct fuel} : option (value * jsstring) :=
  match fuel with
  | O => None
  | S f =>
      match skipWs s with
      | 34%N :: r =>
          match jsonString (S (List.length r)) r [] with
          | Some (k, r1) =>
              match skipWs r1 with
              | 58%N :: r2 =>
                  match jsonValue f r2 with
                  | Some (v, r3) =>
                      match skipWs r3 with
                      | 44%N :: r4 => jsonMembers f (define k v acc) r4
                      | 125%N :: r4 => Some (VObj (define k v acc), r4)
                      | _ => None
                      end
                  | None => None
                  end
              | _ => None
              end
          | None => None
          end
      | _ => None
      end
  end.

Definition SyntaxError : exn :=
  {| exnName := js "SyntaxError";
     exnMessage := js "Unexpected token in JSON" |}.

Definition jsonParse (text : jsstring) : result value :=
  match jsonValue (S (List.length text)) text with
  | Some (v, r) =>
      match skipWs r with
      | [] => Ok v
      | _ => Throw SyntaxError
      end
  | None => Throw SyntaxError
  end.

End Ref.

Definition utc : Runtime := {|
  LocalTZA := fun _ _ => 0;
  Date_parse := Ref.dateParse;
  toLowerCase := List.map Ref.lower;
  toUpperCase := List.map Ref.upper;
  Number_toString := Ref.numberToString;
  toFixed1 := Ref.toFixed1 Ref.numberToString;
  Math_round := Ref.round;
  JSON_parse := Ref.jsonParse
|}.

(* ================================================================== *)
(** * Properties *)
(* ================================================================== *)

(** ** Property reads that cannot throw *)

Lemma truthy_not_nullish v : truthy v = true -> nullish v = false.
Proof. destruct v; simpl; congruence. Qed.

Lemma get_not_nullish v k : nullish v = false -> get v k = Ok (getOpt v k).
Proof. destruct v; simpl; congruence. Qed.

Lemma get_truthy v k : truthy v = true -> get v k = Ok (getOpt v k).
Proof. intros H; apply get_not_nullish, truthy_not_nullish, H. Qed.

Lemma truthy_orElse_obj v : truthy (orElse v (VObj [])) = true.
Proof. unfold orElse; destruct (truthy v) eqn:E; auto. Qed.

Lemma get_orElse_obj v k :
  get (orElse v (VObj [])) k = Ok (getOpt (orElse v (VObj [])) k).
Proof. apply get_truthy, truthy_orElse_obj. Qed.

(** ** Loops *)

(** What one record adds to the list: the body of a loop run on it
    alone. *)
Definition recordItems (body : list Item -> value -> result (list Item))
    (r : value) : list Item :=
  match body [] r with
  | Ok l => l
  | Throw _ => []
  end.

Lemma forOf_app (body : list Item -> value -> result (list Item))
    (f : value -> list Item) :
  (forall items x, body items x = Ok (items ++ f x)) ->
  forall xs acc, forOf xs body acc = Ok (acc ++ flat_map f xs).
Proof.
  intros Hb; induction xs as [|x xs IH]; intros acc; simpl.
  - now rewrite app_nil_r.
  - rewrite Hb; simpl. rewrite IH, app_assoc. reflexivity.
Qed.

Section ParserLemmas.
  Context {RT : Runtime}.

Definition validStart (it : Item) : Prop := isValid (start it) = true.

Lemma parseDateDual_valid a b d :
  parseDateDual a b = Some d -> isValid d = true.
Proof.
  unfold parseDateDual.
  assert (F : forall o : option Date,
            match o with
            | Some (Some t) => Some (Some t)
            | _ => None
            end = Some d -> isValid d = true).
  { intros [[t|]|]; intros E; inversion E; reflexivity. }
  set (fromMs := match b with
                 | VStr _ | VNum _ => _
                 | _ => None
                 end).
  assert (G : fromMs = Some d -> isValid d = true).
  { subst fromMs. destruct b; try discriminate;
      (destruct (Num.isFinite _); [|discriminate];
       destruct (Dates.ofNumber _); intros E; inversion E; reflexivity). }
  destruct a; auto.
  destruct (Date_parse s); auto.
  intros E; inversion E; reflexivity.
Qed.

(** *** The legacy parser *)

Lemma activitySegment_spec seg :
  truthy seg = true ->
  exists l, (forall items', activitySegment items' seg = Ok (items' ++ l))
            /\ Forall validStart l.
Proof.
  intros T. unfold activitySegment.
  pose proof (fun k => get_truthy seg k T) as G.
  rewrite !G; cbn [bind].
  rewrite !get_orElse_obj; cbn [bind].
  destruct (parseDateDual _ _) as [d|] eqn:E.
  - eexists; split; [intros; reflexivity|].
    constructor; [|constructor].
    unfold validStart; simpl. eapply parseDateDual_valid; eauto.
  - exists []; split; [intros; now rewrite app_nil_r | constructor].
Qed.

Lemma placeVisit_spec v :
  truthy v = true ->
  exists l, (forall items', placeVisit items' v = Ok (items' ++ l))
            /\ Forall validStart l.
Proof.
  intros T. unfold placeVisit.
  pose proof (fun k => get_truthy v k T) as G.
  rewrite !G; cbn [bind].
  rewrite !get_orElse_obj; cbn [bind].
  destruct (parseDateDual _ _) as [d|] eqn:E.
  - eexists; split; [intros; reflexivity|].
    constructor; [|constructor].
    unfold validStart; simpl. eapply parseDateDual_valid; eauto.
  - exists []; split; [intros; now rewrite app_nil_r | constructor].
Qed.

Lemma andM_get obj k :
  andM obj (get obj k) = Ok (if truthy obj then getOpt obj k else obj).
Proof.
  unfold andM. destruct (truthy obj) eqn:T; auto using get_truthy.
Qed.

Lemma timelineObject_spec obj :
  exists l, (forall items, timelineObject items obj = Ok (items ++ l))
            /\ Forall validStart l.
Proof.
  unfold timelineObject. rewrite !andM_get; cbn [bind].
  set (seg := if truthy obj then getOpt obj "activitySegment" else obj).
  set (v := if truthy obj then getOpt obj "placeVisit" else obj).
  destruct (truthy seg) eqn:Ts; destruct (truthy v) eqn:Tv.
  - destruct (activitySegment_spec seg Ts) as (l1 & H1 & V1).
    destruct (placeVisit_spec v Tv) as (l2 & H2 & V2).
    exists (l1 ++ l2); split.
    + intros. rewrite H1; cbn [bind]. rewrite H2, app_assoc. reflexivity.
    + apply Forall_app; auto.
  - destruct (activitySegment_spec seg Ts) as (l1 & H1 & V1).
    exists l1; split; auto. intros. rewrite H1. reflexivity.
  - destruct (placeVisit_spec v Tv) as (l2 & H2 & V2).
    exists l2; split; auto.
  - exists []; split; [intros; now rewrite app_nil_r | constructor].
Qed.

Lemma parseTimelineObjects_spec arr :
  parseTimelineObjects arr
  = Ok (flat_map (recordItems timelineObject) arr)
  /\ Forall validStart (flat_map (recordItems timelineObject) arr).
Proof.
  assert (B : forall items x,
             timelineObject items x
             = Ok (items ++ recordItems timelineObject x)).
  { intros items x. destruct (timelineObject_spec x) as (l & H & _).
    unfold recordItems. rewrite (H []), H. reflexivity. }
  split.
  - unfold parseTimelineObjects. now rewrite (forOf_app _ _ B).
  - apply Forall_flat_map, Forall_forall. intros x _.
    destruct (timelineObject_spec x) as (l & H & V).
    unfold recordItems. rewrite (H []). exact V.
Qed.

(** *** The parser of [semanticSegments] *)

Lemma dateOfString_not_nullish seg k d :
  dateOfString (getOpt seg k) = Some d -> nullish seg = false.
Proof. destruct seg; simpl; try discriminate; reflexivity. Qed.

Lemma semanticVisit_spec seg t e :
  nullish seg = false ->
  exists it, (forall items,
                 semanticVisit items seg (Some t) e = Ok (items ++ [it]))
             /\ start it = Some t.
Proof.
  intros N. unfold semanticVisit.
  rewrite (get_not_nullish seg _ N); cbn [bind].
  rewrite !get_orElse_obj; cbn [bind].
  unfold orM.
  destruct (truthy (getOpt (orElse _ _) "placeLocation"));
    cbn [bind]; [|rewrite ?get_orElse_obj; cbn [bind];
                  destruct (truthy (getOpt (orElse _ _)
                                            "placeLocationLatLng"));
                  cbn [bind]];
    (eexists; split; [intros; reflexivity | reflexivity]).
Qed.

Lemma semanticActivity_spec seg t e :
  nullish seg = false ->
  exists it, (forall items,
                 semanticActivity items seg (Some t) e
                 = Ok (items ++ [it]))
             /\ start it = Some t.
Proof.
  intros N. unfold semanticActivity.
  rewrite !(get_not_nullish seg _ N); cbn [bind].
  rewrite !get_orElse_obj; cbn [bind].
  eexists; split; [intros; reflexivity | reflexivity].
Qed.

Lemma semanticSegment_spec seg :
  exists l, (forall items, semanticSegment items seg = Ok (items ++ l))
            /\ Forall validStart l.
Proof.
  unfold semanticSegment.
  destruct (dateOfString (getOpt seg "startTime")) as [[t|]|] eqn:E;
    try (exists []; split; [intros; now rewrite app_nil_r | constructor]).
  pose proof (dateOfString_not_nullish _ _ _ E) as N.
  rewrite !(get_not_nullish seg _ N); cbn [bind].
  destruct (truthy (getOpt seg "visit")).
  - destruct (semanticVisit_spec seg t
                (dateOfString (getOpt seg "endTime")) N) as (it & H & S).
    exists [it]; split; auto.
    constructor; [|constructor]. unfold validStart. now rewrite S.
  - destruct (truthy (getOpt seg "activity")).
    + destruct (semanticActivity_spec seg t
                  (dateOfString (getOpt seg "endTime")) N) as (it & H & S).
      exists [it]; split; auto.
      constructor; [|constructor]. unfold validStart. now rewrite S.
    + exists []; split; [intros; now rewrite app_nil_r | constructor].
Qed.

Lemma parseSemanticSegments_spec arr :
  parseSemanticSegments arr
  = Ok (flat_map (recordItems semanticSegment) arr)
  /\ Forall validStart (flat_map (recordItems semanticSegment) arr).
Proof.
  assert (B : forall items x,
             semanticSegment items x
             = Ok (items ++ recordItems semanticSegment x)).
  { intros items x. destruct (semanticSegment_spec x) as (l & H & _).
    unfold recordItems. rewrite (H []), H. reflexivity. }
  split.
  - unfold parseSemanticSegments. now rewrite (forOf_app _ _ B).
  - apply Forall_flat_map, Forall_forall. intros x _.
    destruct (semanticSegment_spec x) as (l & H & V).
    unfold recordItems. rewrite (H []). exact V.
Qed.

(** *** The parser of [locations] *)

Lemma recordsLocation_spec loc :
  exists l, (forall items, recordsLocation items loc = Ok (items ++ l))
            /\ Forall validStart l.
Proof.
  unfold recordsLocation.
  destruct (parseDateDual VNull _) as [t|] eqn:E;
    [|exists []; split; [intros; now rewrite app_nil_r | constructor]].
  destruct (latE7ToNum (getOpt loc "latitudeE7"));
    [|exists []; split; [intros; now rewrite app_nil_r | constructor]].
  destruct (latE7ToNum (getOpt loc "longitudeE7"));
    [|exists []; split; [intros; now rewrite app_nil_r | constructor]].
  eexists; split; [intros; reflexivity|].
  constructor; [|constructor].
  unfold validStart; simpl. eapply parseDateDual_valid; eauto.
Qed.

Lemma parseRecordsLocations_spec arr :
  parseRecordsLocations arr
  = Ok (flat_map (recordItems recordsLocation) arr)
  /\ Forall validStart (flat_map (recordItems recordsLocation) arr).
Proof.
  assert (B : forall items x,
             recordsLocation items x
             = Ok (items ++ recordItems recordsLocation x)).
  { intros items x. destruct (recordsLocation_spec x) as (l & H & _).
    unfold recordItems. rewrite (H []), H. reflexivity. }
  split.
  - unfold parseRecordsLocations. now rewrite (forOf_app _ _ B).
  - apply Forall_flat_map, Forall_forall. intros x _.
    destruct (recordsLocation_spec x) as (l & H & V).
    unfold recordItems. rewrite (H []). exact V.
Qed.

(** *** The dispatcher *)

(** The array under the top-level key [k] of a document, when the
    document is an object that has one. *)
Definition topLevelArray (json : value) (k : string)
    : option (list value) :=
  match json with
  | VObj fs => asArray (lookup (js k) fs)
  | _ => None
  end.

Lemma arrayField_spec json k :
  arrayField json k = Ok (topLevelArray json k).
Proof.
  unfold arrayField.
  destruct (truthy json) eqn:T.
  - rewrite (get_truthy json k T); cbn [bind].
    destruct json; reflexivity.
  - destruct json; try reflexivity; discriminate.
Qed.

(** What the dispatcher returns, by cases on the three keys. *)
Definition dispatched (json : value) : ParsedData :=
  match topLevelArray json "timelineObjects",
        topLevelArray json "semanticSegments",
        topLevelArray json "locations" with
  | Some arr, _, _ =>
      {| pdItems := flat_map (recordItems timelineObject) arr;
         pdFormat := timelineObjects |}
  | None, Some arr, _ =>
      {| pdItems := flat_map (recordItems semanticSegment) arr;
         pdFormat := semanticSegments |}
  | None, None, Some arr =>
      {| pdItems := flat_map (recordItems recordsLocation) arr;
         pdFormat := recordsLocations |}
  | None, None, None => {| pdItems := []; pdFormat := unknown |}
  end.

Lemma parseAnyGoogleTimeline_spec json :
  parseAnyGoogleTimeline json = Ok (dispatched json).
Proof.
  unfold parseAnyGoogleTimeline, dispatched.
  rewrite ?arrayField_spec; cbn [bind].
  destruct (topLevelArray json "timelineObjects") as [a|].
  { destruct (parseTimelineObjects_spec a) as [-> _]. reflexivity. }
  rewrite ?arrayField_spec; cbn [bind].
  destruct (topLevelArray json "semanticSegments") as [a|].
  { destruct (parseSemanticSegments_spec a) as [-> _]. reflexivity. }
  rewrite ?arrayField_spec; cbn [bind].
  destruct (topLevelArray json "locations") as [a|].
  { destruct (parseRecordsLocations_spec a) as [-> _]. reflexivity. }
  reflexivity.
Qed.

End ParserLemmas.

(** ** Records whose start does not resolve *)

Section Dropped.
  Context {RT : Runtime}.







(** The timestamp of a raw location record. *)
Definition recordTimestamp (loc : value) : value :=
  coalesce (coalesce (coalesce (getOpt loc "timestampMs")
                               (getOpt loc "timestampMS"))
                     (getOpt loc "timestamp")) VNull.

End Dropped.

(** ** Unrelated keys *)




(* ================================================================== *)
(** * The properties of the specification *)
(* ================================================================== *)



(** ** The coordinate decoders on concrete inputs *)

(** The degree sign, U+00B0. *)
Definition degree : jsstring := [176%N].

(** The example of the comment above [parseLatLngString], with the units
    the source file has after each number. *)
Definition sourceExample : jsstring :=
  js "35.1234567" ++ Lit.degreeUnits ++ js ", 139.1234567" ++ Lit.degreeUnits.

Definition coordinate (la lo : string) : option LatLng :=
  Some {| lat := Num.ofString (js la); lng := Num.ofString (js lo) |}.

(** C6. The fallback of [parseLatLngString] does not take the first two
    numbers of the cleaned text: the greedy [.*] between the two groups
    leaves the second group the last digit only. So ["geo:35.5,139.7"]
    decodes to (35.5, 7) and not to (35.5, 139.7), a semicolon as the
    separator gives the same, and a text that holds one number, ["35.5"],
    decodes to (35, 5) where it should decode to null. The comma-separated
    examples decode as expected and a text without digits decodes to
    null. *)
Theorem parseLatLngString_fallback_takes_last_digit :
  parseLatLngString (VStr (js "geo:35.5,139.7")) = coordinate "35.5" "7"
  /\ parseLatLngString (VStr (js "35.5;139.7")) = coordinate "35.5" "7"
  /\ parseLatLngString (VStr (js "35.5")) = coordinate "35" "5"
  /\ parseLatLngString (VStr (js "35.1,139.1")) = coordinate "35.1" "139.1"
  /\ parseLatLngString (VStr sourceExample)
     = coordinate "35.1234567" "139.1234567"
  /\ parseLatLngString (VStr (js "not a coordinate")) = None.
Proof. repeat split; vm_compute; reflexivity. Qed.

(** With the degree sign itself after each number the text is not cleaned
    of it (the class of the pattern holds other units), the halves are not
    numbers and the fallback applies. *)
Example parseLatLngString_degree_sign :
  parseLatLngString
    (VStr (js "35.1234567" ++ degree ++ js ", 139.1234567" ++ degree))
  = coordinate "35.1234567" "7".
Proof. vm_compute; reflexivity. Qed.

(** The second group of the fallback pattern on ["geo:35.5,139.7"]. *)
Example twoFloatsPattern_groups :
  Regex.exec twoFloatsPattern (js "geo:35.5,139.7")
  = Some [(2%nat, js "7"); (1%nat, js "35.5")].
Proof. vm_compute; reflexivity. Qed.



(** The constant [e7] is what [Number] reads in ["1e-7"]. *)
Example e7_literal : Num.ofString (js "1e-7") = e7.
Proof. vm_compute; reflexivity. Qed.

(** ** The path of a movement *)



Section ActivityPath.
  Context {RT : Runtime}.

(** The decoded start and end of the activity of a segment. *)
Definition startPt (seg : value) : option LatLng :=
  parseLatLngString (getOpt (getOpt (getOpt seg "activity") "start") "latLng").

Definition endPt (seg : value) : option LatLng :=
  parseLatLngString (getOpt (getOpt (getOpt seg "activity") "end") "latLng").

End ActivityPath.



(** ** Sorting *)

Section SortLemmas.
  Variable A : Type.
  Variable cmp : A -> A -> Z.

Lemma insert_perm x l : Permutation (insert cmp x l) (x :: l).
Proof.
  induction l as [|y l IH]; simpl; auto.
  destruct (0 <? cmp x y); auto.
  rewrite IH. apply perm_swap.
Qed.

Lemma sortBy_perm l : Permutation (sortBy cmp l) l.
Proof.
  induction l as [|x l IH]; simpl; auto.
  rewrite insert_perm. now constructor.
Qed.

  (** A comparator that is the difference of a key, on the elements of a
      list. *)
  Variable key : A -> Z.

Definition byKey (l : list A) : Prop :=
  forall x y, In x l -> In y l -> cmp x y = key x - key y.

Definition keyLe (a b : A) : Prop := key a <= key b.

Lemma byKey_tail x l : byKey (x :: l) -> byKey l.
Proof. intros H a b Ha Hb. apply H; now right. Qed.

Lemma insert_sorted x l :
  byKey (x :: l) -> StronglySorted keyLe l ->
  StronglySorted keyLe (insert cmp x l).
Proof.
  intros K S. induction S as [|y l S IH F]; simpl.
  - repeat constructor.
  - rewrite (K x y) by (simpl; auto).
    destruct (0 <? key x - key y) eqn:E.
    + apply Z.ltb_lt in E. constructor.
      * apply IH. intros a b Ha Hb. apply K; simpl in *; tauto.
      * apply (Permutation_Forall (Permutation_sym (insert_perm x l))).
        constructor; [unfold keyLe; lia | exact F].
    + apply Z.ltb_ge in E. constructor; [now constructor|].
      constructor; [unfold keyLe; lia|].
      eapply Forall_impl; [|exact F]. unfold keyLe. intros; lia.
Qed.

Lemma sortBy_sorted l : byKey l -> StronglySorted keyLe (sortBy cmp l).
Proof.
  induction l as [|x l IH]; intros K; simpl; [constructor|].
  apply insert_sorted.
  - intros a b Ha Hb. apply K.
    + destruct Ha as [->|Ha]; [now left|right].
      now apply (Permutation_in _ (sortBy_perm l)).
    + destruct Hb as [->|Hb]; [now left|right].
      now apply (Permutation_in _ (sortBy_perm l)).
  - apply IH. eapply byKey_tail; eauto.
Qed.


End SortLemmas.
Arguments byKey {A} cmp key l.
Arguments keyLe {A} key a b.

(** ** The navigator *)

Lemma findIndex_range {A} (p : A -> bool) l :
  -1 <= findIndex p l < Z.of_nat (List.length l).
Proof.
  induction l as [|x l IH]; simpl List.length; simpl findIndex; [lia|].
  destruct (p x); [lia|].
  destruct (findIndex p l <? 0) eqn:E; [lia|].
  apply Z.ltb_ge in E. lia.
Qed.

Section Navigator.
  Context {RT : Runtime}.

(** The two booleans of the navigator: what [updateNavButtons] leaves
    enabled. *)
Definition hasPrev (st : State) : bool := negb (prevDisabled (updateNavButtons st)).
Definition hasNext (st : State) : bool := negb (nextDisabled (updateNavButtons st)).

Lemma currentDayIndex_range st :
  -1 <= currentDayIndex st < Z.max 0 (Z.of_nat (List.length (sortedDays st))).
Proof.
  unfold currentDayIndex. destruct (selectedDay st) as [d|].
  - pose proof (findIndex_range
                  (fun d' => strictEq (dayKey d') (dayKey d)) (sortedDays st)).
    lia.
  - destruct (sortedDays st); simpl List.length; lia.
Qed.

(** C4. When the selected day is at index 0 of the day index [goPrev]
    changes nothing, and when it is at the last index [goNext] changes
    nothing. With a day index of one day both [hasPrev] and [hasNext] are
    false and [goPrev] and [goNext] change nothing, whatever the
    selection. *)
Theorem navigator_boundaries (st : State) :
  (currentDayIndex st = 0 -> goPrev st = st)
  /\ (currentDayIndex st = Z.of_nat (List.length (sortedDays st)) - 1 ->
      goNext st = st)
  /\ (List.length (sortedDays st) = 1%nat ->
      hasPrev st = false /\ hasNext st = false
      /\ goPrev st = st /\ goNext st = st).
Proof.
  split; [|split].
  - intros E. unfold goPrev. now rewrite E.
  - intros E. unfold goNext. rewrite E.
    rewrite Z.ltb_irrefl, andb_false_r. reflexivity.
  - intros L. pose proof (currentDayIndex_range st) as R. rewrite L in R.
    assert (I : currentDayIndex st = -1 \/ currentDayIndex st = 0) by lia.
    unfold hasPrev, hasNext, goPrev, goNext, updateNavButtons; simpl.
    rewrite L; simpl.
    destruct I as [-> | ->]; repeat split; reflexivity.
Qed.
End Navigator.

(** ** Loading a document *)

Section Loading.
  Context {RT : Runtime}.

(** The items of a parsed document as [onFileSelected] stores them. *)
Definition loadedItems (json : value) : list Item :=
  sortBy byStart
    (filter (fun it => isValid (start it)) (pdItems (dispatched json))).

(** The state after [onFileSelected] on a text that [JSON.parse] reads as
    [json]: the code of [onFileSelected] from the initial state. *)
Definition loadedState (json : value) : State :=
  let st := rebuildDays
              (assign (loadedItems json) (pdFormat (dispatched json))
                 initial) in
  match items st with
  | [] => renderAll (showToast (js "No supported data found") Lit.searched st)
  | _ =>
      renderAll
        (showToast (js "Loaded")
           (Str.ofNat (Z.of_nat (List.length (items st))) ++ js " items, "
            ++ Str.ofNat (Z.of_nat (List.length (sortedDays st)))
            ++ js " days")
           st)
  end.

Lemma onFileSelected_parsed text json st :
  JSON_parse text = Ok json -> onFileSelected text st = Ok (loadedState json).
Proof.
  intros E. unfold onFileSelected, loadedState. rewrite E.
  rewrite parseAnyGoogleTimeline_spec; cbn [bind].
  fold (loadedItems json).
  change (items (rebuildDays (assign (loadedItems json)
                                (pdFormat (dispatched json)) st)))
    with (loadedItems json).
  change (items (rebuildDays (assign (loadedItems json)
                                (pdFormat (dispatched json)) initial)))
    with (loadedItems json).
  destruct (loadedItems json); reflexivity.
Qed.

Lemma onFileSelected_syntax_error text e st :
  JSON_parse text = Throw e ->
  onFileSelected text st
  = Ok (showToast (js "JSON parse error") (exnToString e) st).
Proof. intros E. unfold onFileSelected. now rewrite E. Qed.

(** The day keys of a list of items, in the order of first occurrence. *)
Definition dayKeys (its : list Item) : list (option Z) :=
  fold_left (fun s it => setAdd s (dayKey (start it))) its [].


(** The state after a document without items. *)
Definition emptyState (f : Format) : State :=
  {| items := [];
     sortedDays := [];
     dayKeySet := [];
     selectedDay := None;
     detectedFormat := f;
     monthAnchor := None;
     prevDisabled := true;
     nextDisabled := true;
     toast := Some (js "No supported data found", Lit.searched) |}.

Lemma loadedState_empty json :
  loadedItems json = [] ->
  loadedState json = emptyState (pdFormat (dispatched json)).
Proof.
  intros E. unfold loadedState.
  change (items (rebuildDays (assign (loadedItems json)
                                (pdFormat (dispatched json)) initial)))
    with (loadedItems json).
  rewrite E. reflexivity.
Qed.

Definition isObject (json : value) : bool :=
  match json with
  | VObj _ => true
  | _ => false
  end.

Lemma dispatched_not_object json :
  isObject json = false ->
  dispatched json = {| pdItems := []; pdFormat := unknown |}.
Proof. destruct json; simpl; try discriminate; reflexivity. Qed.
End Loading.

(** ** Worked documents *)

(** A JSON text written with ['] where the text has a double quote. *)
Definition jsonText (s : string) : jsstring := Str.replaceAll1 39%N 34%N (js s).

(** One raw location, on 1970-01-01. *)
Definition oneLocation : jsstring :=
  jsonText "{ 'locations': [{ 'timestampMs': '1000', 'latitudeE7': 351234567, 'longitudeE7': 1391234567 }] }".

(** The state after loading [oneLocation]. *)
Definition oneLocationState : State :=
  match Ref.jsonParse oneLocation with
  | Ok json => @loadedState utc json
  | Throw _ => @initial utc
  end.

Lemma oneLocation_loads :
  @onFileSelected utc oneLocation (@initial utc) = Ok oneLocationState
  /\ List.length (items oneLocationState) = 1%nat
  /\ detectedFormat oneLocationState = recordsLocations
  /\ sortedDays oneLocationState = [Some 0]
  /\ selectedDay oneLocationState = Some (Some 0).
Proof. repeat split; vm_compute; reflexivity. Qed.

(** A text that is JSON but no object is not a parse failure: after
    [oneLocation], loading the text [[1, 2]] shows "No supported data
    found" and empties the items, the day index and the selection. *)
Lemma non_object_json_replaces_state :
  exists st,
    @onFileSelected utc (js "[1, 2]") oneLocationState = Ok st
    /\ List.length (items oneLocationState) = 1%nat
    /\ items st = []
    /\ sortedDays st = []
    /\ selectedDay st = None
    /\ toast st = Some (js "No supported data found", Lit.searched).
Proof. eexists; repeat split; vm_compute; reflexivity. Qed.

Section LoadingProperties.
  Context {RT : Runtime}.

(** C5 (amended). When the text is not JSON ([JSON.parse] throws), loading
    ends normally with the toast "JSON parse error" and the error as its
    detail, and nothing else of the state changes: items, day index, key
    set, selection, format, month and buttons are those of before. A text
    that is JSON but whose value is no object is no parse failure: it loads
    as a document of unknown format, and the state becomes the empty one. *)
Theorem malformed_text_keeps_state (text : jsstring) (st : State) :
  match JSON_parse text with
  | Throw e =>
      exists st',
        onFileSelected text st = Ok st'
        /\ toast st' = Some (js "JSON parse error", exnToString e)
        /\ items st' = items st
        /\ sortedDays st' = sortedDays st
        /\ dayKeySet st' = dayKeySet st
        /\ selectedDay st' = selectedDay st
        /\ detectedFormat st' = detectedFormat st
        /\ monthAnchor st' = monthAnchor st
        /\ prevDisabled st' = prevDisabled st
        /\ nextDisabled st' = nextDisabled st
  | Ok json =>
      isObject json = false ->
      onFileSelected text st = Ok (emptyState unknown)
  end.
Proof.
  destruct (JSON_parse text) as [json|e] eqn:E.
  - intros O. rewrite (onFileSelected_parsed _ _ _ E).
    rewrite loadedState_empty.
    + rewrite (dispatched_not_object _ O). reflexivity.
    + unfold loadedItems. rewrite (dispatched_not_object _ O). reflexivity.
  - eexists. split; [exact (onFileSelected_syntax_error _ _ _ E)|].
    repeat split.
Qed.

End LoadingProperties.

Lemma malformed_text_keeps_state_witness :
  exists st',
    @onFileSelected utc (js "{not valid") oneLocationState = Ok st'
    /\ toast st'
       = Some (js "JSON parse error",
               js "SyntaxError: Unexpected token in JSON")
    /\ items st' = items oneLocationState
    /\ sortedDays st' = sortedDays oneLocationState
    /\ selectedDay st' = selectedDay oneLocationState.
Proof.
  destruct (@malformed_text_keeps_state utc (js "{not valid")
              oneLocationState)
    as (st' & H & T & I & D & _ & S & _).
  exists st'. repeat split; assumption.
Defined.


(** ** The items of a day *)

Section DayItems.
  Context {RT : Runtime}.


(** The test of the filter of [itemsForSelectedDay], for the day [D]. *)
Definition inDay (D : Date) (it : Item) : bool :=
  let s := startOfDay D in
  dateGe (start it) s && dateLt (start it) (nextMidnight s).


Lemma inDay_spec D it :
  inDay D it = true <->
  exists s e t, startOfDay D = Some s /\ nextMidnight (Some s) = Some e
                /\ start it = Some t /\ s <= t < e.
Proof.
  unfold inDay, dateGe, dateLt. split.
  - destruct (start it) as [t|]; [|discriminate].
    destruct (startOfDay D) as [s|]; [|discriminate].
    destruct (nextMidnight (Some s)) as [e|] eqn:N;
      [|rewrite andb_false_r; discriminate].
    intros H. apply andb_true_iff in H as [H1 H2].
    apply Z.leb_le in H1. apply Z.ltb_lt in H2.
    exists s, e, t. repeat split; auto.
  - intros (s & e & t & -> & -> & -> & H1 & H2).
    apply andb_true_iff. split; [apply Z.leb_le | apply Z.ltb_lt]; lia.
Qed.




End DayItems.

(** Two visits on 1 May 2023 and one on 2 May, out of order. *)
Definition threeVisits : jsstring :=
  jsonText "{'semanticSegments':[{'startTime':'2023-05-01T18:00:00Z','visit':{}},{'startTime':'2023-05-02T09:00:00Z','visit':{}},{'startTime':'2023-05-01T07:30:00Z','visit':{}}]}".


(** ** The day index *)

Lemma sameValueZero_eq a b : sameValueZero a b = true <-> a = b.
Proof.
  destruct a as [x|], b as [y|]; simpl; try (split; congruence).
  rewrite Z.eqb_eq. split; congruence.
Qed.

Lemma setAdd_In s k x : In x (setAdd s k) <-> In x s \/ x = k.
Proof.
  unfold setAdd. destruct (existsb (sameValueZero k) s) eqn:E.
  - split; [tauto|]. intros [H | ->]; auto.
    apply existsb_exists in E as (y & Hy & Ey).
    apply sameValueZero_eq in Ey. now subst.
  - rewrite in_app_iff. simpl. intuition congruence.
Qed.

Lemma setAdd_NoDup s k : NoDup s -> NoDup (setAdd s k).
Proof.
  intros N. unfold setAdd. destruct (existsb (sameValueZero k) s) eqn:E; auto.
  apply NoDup_app; auto.
  - repeat constructor. simpl; tauto.
  - intros x Hx [<- | []].
    assert (existsb (sameValueZero k) s = true); [|congruence].
    apply existsb_exists. exists k. split; auto. now apply sameValueZero_eq.
Qed.

(** Sorted lists with the same elements are equal, when the order is
    antisymmetric on them. *)
Lemma sorted_perm_eq {A} (R : A -> A -> Prop) (l1 l2 : list A) :
  (forall x y, In x l1 -> In y l1 -> R x y -> R y x -> x = y) ->
  StronglySorted R l1 -> StronglySorted R l2 -> Permutation l1 l2 ->
  l1 = l2.
Proof.
  intros Anti S1. revert l2.
  induction S1 as [|x l1 S1 IH F1]; intros l2 S2 P.
  - now apply Permutation_nil in P.
  - destruct l2 as [|y l2];
      [apply Permutation_sym, Permutation_nil in P; discriminate|].
    inversion S2 as [|? ? S2' F2]; subst.
    rewrite Forall_forall in F1, F2.
    assert (E : x = y).
    { assert (Hx : In x (y :: l2))
        by (eapply Permutation_in; [exact P | now left]).
      assert (Hy : In y (x :: l1))
        by (eapply Permutation_in; [apply Permutation_sym, P | now left]).
      destruct Hx as [->|Hx]; auto. destruct Hy as [->|Hy]; auto.
      apply Anti; simpl; auto. }
    subst y. f_equal. apply IH; auto.
    + intros a b Ha Hb. apply Anti; simpl; auto.
    + eapply Permutation_cons_inv; eauto.
Qed.

Section DayIndex.
  Context {RT : Runtime}.

Lemma dayKeys_from its : forall acc,
  let s := fold_left (fun s it => setAdd s (dayKey (start it))) its acc in
  (NoDup acc -> NoDup s)
  /\ forall k, In k s <->
               In k acc \/ exists it, In it its /\ dayKey (start it) = k.
Proof.
  induction its as [|it its IH]; intros acc; simpl.
  - split; auto. intros k. split; auto. intros [H | (it & [] & _)]; auto.
  - destruct (IH (setAdd acc (dayKey (start it)))) as [N M]. split.
    + intros Na. now apply N, setAdd_NoDup.
    + intros k. rewrite M, setAdd_In. split.
      * intros [[H | ->] | (it' & H & E)]; eauto.
      * intros [H | (it' & [-> | H] & E)]; eauto.
Qed.

Lemma dayKeys_NoDup its : NoDup (dayKeys its).
Proof. apply (dayKeys_from its []). constructor. Qed.

Lemma dayKeys_In its k :
  In k (dayKeys its) <-> exists it, In it its /\ dayKey (start it) = k.
Proof.
  unfold dayKeys. destruct (dayKeys_from its []) as [_ M]. rewrite M.
  simpl. tauto.
Qed.

Lemma dayKeys_perm its1 its2 :
  Permutation its1 its2 -> Permutation (dayKeys its1) (dayKeys its2).
Proof.
  intros P. apply NoDup_Permutation; auto using dayKeys_NoDup.
  intros k. rewrite !dayKeys_In. split; intros (it & H & E); exists it;
    (split; [|exact E]).
  - exact (Permutation_in it P H).
  - exact (Permutation_in it (Permutation_sym P) H).
Qed.

Lemma dayKey_valid d : isValid d = true -> exists k, dayKey d = Some k.
Proof. destruct d; [|discriminate]. intros _. eexists. reflexivity. Qed.

(** A key as an integer (0 for NaN). *)
Definition keyOf (k : option Z) : Z :=
  match k with
  | Some z => z
  | None => 0
  end.

Lemma dayKeys_some its :
  Forall validStart its ->
  Forall (fun k => exists z, k = Some z) (dayKeys its).
Proof.
  intros V. apply Forall_forall. intros k H.
  apply dayKeys_In in H as (it & Hit & <-).
  rewrite Forall_forall in V. apply dayKey_valid, V, Hit.
Qed.

Lemma cmpNum_byKey l :
  Forall (fun k => exists z, k = Some z) l -> byKey cmpNum keyOf l.
Proof.
  intros V x y Hx Hy. rewrite Forall_forall in V.
  destruct (V x Hx) as [a ->]. destruct (V y Hy) as [b ->]. reflexivity.
Qed.

(** The sorted keys of a list of items. *)
Definition sortedKeys (its : list Item) : list (option Z) :=
  sortBy cmpNum (dayKeys its).

Lemma sortedKeys_sorted its :
  Forall validStart its -> StronglySorted (keyLe keyOf) (sortedKeys its).
Proof. intros V. apply sortBy_sorted, cmpNum_byKey, dayKeys_some, V. Qed.

Lemma sortedKeys_perm its1 its2 :
  Forall validStart its1 -> Permutation its1 its2 ->
  sortedKeys its1 = sortedKeys its2.
Proof.
  intros V1 P.
  assert (V2 : Forall validStart its2) by (eapply Permutation_Forall; eauto).
  apply (sorted_perm_eq (keyLe keyOf)); auto using sortedKeys_sorted.
  - intros x y Hx Hy Lxy Lyx.
    pose proof (dayKeys_some _ V1) as S. rewrite Forall_forall in S.
    destruct (S x) as [a ->];
      [eapply Permutation_in; [apply sortBy_perm | exact Hx]|].
    destruct (S y) as [b ->];
      [eapply Permutation_in; [apply sortBy_perm | exact Hy]|].
    unfold keyLe in *; simpl in *. f_equal; lia.
  - unfold sortedKeys. rewrite !sortBy_perm. now apply dayKeys_perm.
Qed.

(** Ascending without repetition. *)
Lemma sortedKeys_strict its :
  Forall validStart its ->
  StronglySorted (fun a b => keyOf a < keyOf b) (sortedKeys its).
Proof.
  intros V. pose proof (sortedKeys_sorted _ V) as S.
  assert (N : NoDup (sortedKeys its)).
  { eapply Permutation_NoDup;
      [apply Permutation_sym, sortBy_perm | apply dayKeys_NoDup]. }
  assert (A : Forall (fun k => exists z, k = Some z) (sortedKeys its)).
  { eapply Permutation_Forall;
      [apply Permutation_sym, sortBy_perm | now apply dayKeys_some]. }
  induction S as [|k l S IH F]; constructor.
  - inversion N; inversion A; subst. now apply IH.
  - inversion N as [|? ? Nk _]; inversion A as [|? ? [a ->] Al]; subst.
    rewrite Forall_forall in F, Al. apply Forall_forall. intros x Hx.
    destruct (Al x Hx) as [b ->]. specialize (F _ Hx).
    unfold keyLe in F; simpl in *.
    assert (a <> b) by (intros ->; contradiction). lia.
Qed.

(** What [rebuildDays] leaves in the state. *)
Lemma rebuildDays_fields st :
  let st' := rebuildDays st in
  items st' = items st
  /\ dayKeySet st' = dayKeys (items st)
  /\ sortedDays st' = List.map dayOfKey (sortedKeys (items st))
  /\ selectedDay st' = hd_error (sortedDays st')
  /\ List.length (sortedDays st') = List.length (dayKeys (items st)).
Proof.
  cbv zeta. repeat split.
  unfold rebuildDays, updateNavButtons; simpl.
  rewrite length_map. apply Permutation_length, sortBy_perm.
Qed.
End DayIndex.

(** ** The calendar *)

Module DatesFacts.
Import Dates.

Lemma YearFromDay_spec d :
  DayFromYear (YearFromDay d) <= d < DayFromYear (YearFromDay d + 1).
Proof.
  unfold YearFromDay.
  set (y := 1970 + d * 400 / 146097).
  assert (Hy : 146097 * (y - 1970) <= d * 400
               < 146097 * (y - 1970) + 146097).
  { subst y. pose proof (Z.div_mod (d * 400) 146097 ltac:(lia)).
    pose proof (Z.mod_pos_bound (d * 400) 146097 ltac:(lia)). lia. }
  clearbody y. unfold DayFromYear.
  destruct (Z.ltb_spec d (365 * (y - 1970) + (y - 1969) / 4
                          - (y - 1901) / 100 + (y - 1601) / 400)).
  - split; [|replace (y - 1 + 1) with y by lia; lia].
    Z.to_euclidean_division_equations; lia.
  - destruct (Z.leb_spec (365 * (y + 1 - 1970) + (y + 1 - 1969) / 4
                          - (y + 1 - 1901) / 100 + (y + 1 - 1601) / 400) d).
    + split; [lia|]. Z.to_euclidean_division_equations; lia.
    + lia.
Qed.

Lemma InLeapYear_01 y : InLeapYear y = 0 \/ InLeapYear y = 1.
Proof.
  unfold InLeapYear.
  destruct (Z.eqb (y mod 4) 0); destruct (Z.eqb (y mod 100) 0);
    destruct (Z.eqb (y mod 400) 0); simpl; auto.
Qed.

Lemma DayFromYear_succ y :
  DayFromYear (y + 1) = DayFromYear y + 365 + InLeapYear y.
Proof.
  unfold DayFromYear, InLeapYear.
  destruct (Z.eqb_spec (y mod 4) 0); destruct (Z.eqb_spec (y mod 100) 0);
    destruct (Z.eqb_spec (y mod 400) 0); cbn [negb];
    Z.to_euclidean_division_equations; lia.
Qed.

Lemma DayWithinYear_range t :
  0 <= DayWithinYear t < 365 + InLeapYear (YearFromTime t).
Proof.
  unfold DayWithinYear, YearFromTime.
  pose proof (YearFromDay_spec (Day t)) as H.
  rewrite DayFromYear_succ in H. lia.
Qed.

Lemma MonthFromTime_range t : 0 <= MonthFromTime t <= 11.
Proof.
  unfold MonthFromTime.
  repeat match goal with
         | |- context [if ?a <? ?b then _ else _] => destruct (a <? b)
         end; lia.
Qed.

Lemma DateFromTime_range t : 1 <= DateFromTime t <= 31.
Proof.
  unfold DateFromTime, MonthFromTime.
  pose proof (DayWithinYear_range t) as R.
  destruct (InLeapYear_01 (YearFromTime t)) as [L|L]; rewrite L in *;
    simpl monthStart;
    repeat match goal with
           | |- context [if ?a <? ?b then _ else _] =>
               destruct (Z.ltb_spec a b)
           end; simpl monthStart; lia.
Qed.

(** The day of a time value from its year, month and date. *)
Lemma MakeDay_local t :
  MakeDay (YearFromTime t) (MonthFromTime t) (DateFromTime t) = Day t.
Proof.
  pose proof (MonthFromTime_range t) as M.
  unfold MakeDay. rewrite Z.div_small, Z.mod_small by lia.
  rewrite Z.add_0_r. unfold DateFromTime, DayWithinYear. lia.
Qed.

Lemma Day_midnight d : Day (d * msPerDay) = d.
Proof. unfold Day, msPerDay. now rewrite Z.div_mul. Qed.

Lemma Day_floor t : Day t * msPerDay <= t < Day t * msPerDay + msPerDay.
Proof. unfold Day, msPerDay. Z.to_euclidean_division_equations; lia. Qed.

Lemma DayFromYear_100 y : 100 <= y -> -683003 <= DayFromYear y.
Proof.
  intros H. unfold DayFromYear. Z.to_euclidean_division_equations; lia.
Qed.

Lemma civil_of_day t :
  YearFromTime (Day t * msPerDay) = YearFromTime t
  /\ MonthFromTime (Day t * msPerDay) = MonthFromTime t
  /\ DateFromTime (Day t * msPerDay) = DateFromTime t.
Proof.
  unfold DateFromTime, MonthFromTime, DayWithinYear, YearFromTime.
  now rewrite !Day_midnight.
Qed.

(** The decoding of a key in [rebuildDays], for a year that is not
    negative. *)
Lemma unpack y m d :
  0 <= y -> 1 <= m <= 12 -> 1 <= d <= 31 ->
  let k := y * 10000 + m * 100 + d in
  k / 10000 = y /\ Z.rem k 10000 / 100 = m /\ Z.rem k 100 = d.
Proof.
  intros Hy Hm Hd k. subst k.
  rewrite !Z.rem_mod_nonneg by lia.
  repeat split; Z.to_euclidean_division_equations; lia.
Qed.

End DatesFacts.

(** ** The day index in a zone of fixed offset, from the year 100 on *)

Section FixedOffset.
  Import Dates DatesFacts.
  Context {RT : Runtime}.
  Variable c : Z.
  Hypothesis fixed : forall t b, LocalTZA t b = c.
  Hypothesis small : Z.abs c <= msPerDay.

Lemma dayKey_fixed t :
  dayKey (Some t)
  = Some (YearFromTime (t + c) * 10000 + (MonthFromTime (t + c) + 1) * 100
          + DateFromTime (t + c)).
Proof.
  unfold dayKey, getFullYear, getMonth, getDate, LocalTime; simpl.
  now rewrite fixed.
Qed.

(** A time value in the range of [Date] whose local year is 100 or
    later. *)
Definition modern (t : Z) : Prop :=
  Z.abs t <= 8640000000000000 /\ 100 <= YearFromTime (t + c).

Definition modernItem (it : Item) : Prop :=
  exists t, start it = Some t /\ modern t.

Lemma dayOfKey_dayKey t :
  modern t ->
  dayOfKey (dayKey (Some t)) = Some (Day (t + c) * msPerDay - c).
Proof.
  intros [B Y]. rewrite dayKey_fixed. unfold dayOfKey, option_map.
  pose proof (MonthFromTime_range (t + c)) as M.
  pose proof (DateFromTime_range (t + c)) as D.
  destruct (unpack (YearFromTime (t + c)) (MonthFromTime (t + c) + 1)
              (DateFromTime (t + c))) as (-> & -> & ->); try lia.
  unfold ofYMD.
  replace ((0 <=? YearFromTime (t + c)) && (YearFromTime (t + c) <=? 99))
    with false
    by (symmetry; apply andb_false_iff; right; apply Z.leb_gt; lia).
  replace (MonthFromTime (t + c) + 1 - 1) with (MonthFromTime (t + c)) by lia.
  rewrite MakeDay_local. unfold MakeDate, UTC. rewrite fixed, Z.add_0_r.
  unfold TimeClip.
  pose proof (Day_floor (t + c)) as F.
  pose proof (YearFromDay_spec (Day (t + c))) as S.
  pose proof (DayFromYear_100 _ Y) as L. unfold YearFromTime in L.
  unfold msPerDay in *.
  destruct (Z.ltb_spec 8640000000000000
              (Z.abs (Day (t + c) * 86400000 - c)));
    [lia | reflexivity].
Qed.

Lemma dayKey_dayOfKey t :
  modern t -> dayKey (dayOfKey (dayKey (Some t))) = dayKey (Some t).
Proof.
  intros H. rewrite (dayOfKey_dayKey t H), !dayKey_fixed.
  replace (Day (t + c) * msPerDay - c + c) with (Day (t + c) * msPerDay)
    by lia.
  destruct (civil_of_day (t + c)) as (-> & -> & ->). reflexivity.
Qed.

Lemma modern_valid its : Forall modernItem its -> Forall validStart its.
Proof.
  apply Forall_impl. intros it (t & E & _). unfold validStart. now rewrite E.
Qed.

Lemma sortedDays_keys st :
  Forall modernItem (items st) ->
  List.map dayKey (sortedDays (rebuildDays st)) = sortedKeys (items st).
Proof.
  intros M. destruct (rebuildDays_fields st) as (_ & _ & -> & _).
  rewrite map_map. rewrite <- (map_id (sortedKeys (items st))) at 2.
  apply map_ext_in. intros k Hk.
  apply (Permutation_in _ (sortBy_perm _ _ _)) in Hk.
  apply dayKeys_In in Hk as (it & Hit & <-).
  rewrite Forall_forall in M. destruct (M it Hit) as (t & -> & Ht).
  now apply dayKey_dayOfKey.
Qed.

(** Where the day index is as the specification has it: in a zone of
    fixed offset and for items from the year 100 on, the days of the index
    are the days of the items, once each, in strictly ascending order; the
    index and the selection are the same for every order of the items, and
    the selection is the earliest day. *)
Lemma day_index_of_modern_items st :
  Forall modernItem (items st) ->
  let st' := rebuildDays st in
  List.map dayKey (sortedDays st') = sortedKeys (items st)
  /\ (forall k, In k (List.map dayKey (sortedDays st')) <->
                exists it, In it (items st) /\ dayKey (start it) = k)
  /\ StronglySorted (fun a b => keyOf a < keyOf b)
       (List.map dayKey (sortedDays st'))
  /\ List.length (sortedDays st') = List.length (dayKeys (items st))
  /\ selectedDay st' = hd_error (sortedDays st')
  /\ (forall st2,
         Permutation (items st) (items st2) ->
         sortedDays (rebuildDays st2) = sortedDays st'
         /\ selectedDay (rebuildDays st2) = selectedDay st').
Proof.
  intros M st'. pose proof (modern_valid _ M) as V.
  pose proof (sortedDays_keys st M) as K. fold st' in K.
  destruct (rebuildDays_fields st) as (_ & _ & D & S & L). fold st' in D, S, L.
  split; [exact K|]. split; [|split; [|split; [|split]]]; auto.
  - intros k. rewrite K, <- dayKeys_In. unfold sortedKeys. split; intros H.
    + eapply Permutation_in; [apply sortBy_perm | exact H].
    + eapply Permutation_in; [apply Permutation_sym, sortBy_perm | exact H].
  - rewrite K. now apply sortedKeys_strict.
  - intros st2 P.
    destruct (rebuildDays_fields st2) as (_ & _ & D2 & S2 & _).
    assert (E : sortedDays (rebuildDays st2) = sortedDays st').
    { rewrite D2, D. f_equal. symmetry. now apply sortedKeys_perm. }
    split; [exact E|]. now rewrite S2, S, E.
Qed.
End FixedOffset.

(** One visit in the year 50 and one in 1950, both on 1 June. *)
Definition twoEras : jsstring :=
  jsonText "{'semanticSegments':[{'startTime':'0050-06-01T12:00:00Z','visit':{}},{'startTime':'1950-06-01T12:00:00Z','visit':{}}]}".

(** C3. The days of the index are rebuilt from the sorted keys by [new
    Date(y, m, d)], which reads a year from 0 to 99 as 1900 + year. The
    items of [twoEras] are on two days, with the keys 500601 and 19500601;
    the index gets two entries, both 1 June 1950: a day twice, and no entry
    for the day of the first item. The selection is that day, and the items
    of the selected day are those of 1950 only. *)
Theorem day_index_repeats_a_day :
  exists st,
    @onFileSelected utc twoEras (@initial utc) = Ok st
    /\ List.map start (items st)
       = [Some (-60576206400000); Some (-618062400000)]
    /\ List.map (@dayKey utc) (List.map start (items st))
       = [Some 500601; Some 19500601]
    /\ dayKeySet st = [Some 500601; Some 19500601]
    /\ sortedDays st = [Some (-618105600000); Some (-618105600000)]
    /\ List.map (@dayKey utc) (sortedDays st)
       = [Some 19500601; Some 19500601]
    /\ selectedDay st = Some (Some (-618105600000))
    /\ List.map start (@itemsForSelectedDay utc st)
       = [Some (-618062400000)].
Proof. eexists; repeat split; vm_compute; reflexivity. Qed.

Lemma navigator_boundaries_witness :
  @currentDayIndex utc oneLocationState = 0
  /\ List.length (sortedDays oneLocationState) = 1%nat
  /\ @goPrev utc oneLocationState = oneLocationState
  /\ @goNext utc oneLocationState = oneLocationState
  /\ @hasPrev utc oneLocationState = false
  /\ @hasNext utc oneLocationState = false.
Proof.
  destruct (@navigator_boundaries utc oneLocationState) as (P & N & O).
  assert (I : @currentDayIndex utc oneLocationState = 0)
    by (vm_compute; reflexivity).
  assert (L : List.length (sortedDays oneLocationState) = 1%nat)
    by (vm_compute; reflexivity).
  destruct (O L) as (HP & HN & _).
  repeat split; auto.
Defined.

(** ** The properties at concrete inputs *)




(** ** The reference runtime on known values *)

Example numberToString_examples :
  List.map Ref.numberToString
    [0.5; 100; 1e21; 123456789012345680000; 1.5e-7; 0.000001; (-12.5);
     (0.5 + 0.25); 5e-324]%float
  = [js "0.5"; js "100"; js "1e+21"; js "123456789012345680000";
     js "1.5e-7"; js "0.000001"; js "-12.5"; js "0.75"; js "5e-324"].
Proof. vm_compute; reflexivity. Qed.

Example toFixed1_examples :
  List.map (Ref.toFixed1 Ref.numberToString)
    [1.25; 0.5; 12.5; 0; 999.5; 1234.75]%float
  = [js "1.3"; js "0.5"; js "12.5"; js "0.0"; js "999.5"; js "1234.8"].
Proof. vm_compute; reflexivity. Qed.

Example round_examples :
  List.map Ref.round [2.5; (-2.5); 0.5; 3.25; 999.5]%float
  = [3; (-2); 1; 3; 1000]%float.
Proof. vm_compute; reflexivity. Qed.

Example dateParse_examples :
  List.map Ref.dateParse
    [js "1970-01-01T00:00:00.000Z"; js "2023-05-01T10:00:00Z";
     js "2023-05-01T10:00:00.123+09:00"; js "2024-02-29";
     js "2023-02-29"; js "yesterday"]
  = [Some 0; Some 1682935200000; Some 1682902800123; Some 1709164800000;
     None; None].
Proof. vm_compute; reflexivity. Qed.

(** One walk, without a path. *)
Definition oneWalk : jsstring :=
  jsonText "{ 'semanticSegments': [{ 'startTime': '2023-05-01T10:00:00Z', 'activity': { 'topCandidate': { 'type': 'WALKING' } } }] }".

Example oneWalk_loads :
  exists st it,
    @onFileSelected utc oneWalk (@initial utc) = Ok st
    /\ items st = [it]
    /\ detectedFormat st = semanticSegments
    /\ kind it = activity
    /\ start it = Some 1682935200000
    /\ title it = js "Walking"
    /\ emoji it = Lit.walk
    /\ activityType it = Some (js "WALKING")
    /\ List.map (@dayKey utc) (sortedDays st) = [Some 20230501].
Proof. do 2 eexists; repeat split; vm_compute; reflexivity. Qed.

(** A legacy document: a movement of 1.5 km with a path of two waypoints,
    then a visit. *)
Definition legacyDay : jsstring :=
  jsonText "{'timelineObjects':[{'activitySegment':{'duration':{'startTimestampMs':'1682935200000','endTimestampMs':'1682936400000'},'activityType':'IN_PASSENGER_VEHICLE','distance':1500,'waypointPath':{'waypoints':[{'latE7':351234567,'lngE7':1391234567},{'latE7':351240000,'lngE7':1391240000}]}}},{'placeVisit':{'duration':{'startTimestamp':'2023-05-01T10:20:00Z'},'location':{'name':'Cafe','latitudeE7':351240000,'longitudeE7':1391240000}}}]}".

Example legacyDay_loads :
  exists st a v,
    @onFileSelected utc legacyDay (@initial utc) = Ok st
    /\ items st = [a; v]
    /\ detectedFormat st = timelineObjects
    /\ kind a = activity
    /\ title a = js "In Passenger Vehicle"
    /\ subtitle a = js "1.5 km " ++ Lit.noMove
    /\ emoji a = Lit.car
    /\ List.length (path a) = 2%nat
    /\ end_ a = Some (Some 1682936400000)
    /\ kind v = visit
    /\ title v = js "Cafe"
    /\ subtitle v = Lit.unknownAddress
    /\ start v = Some 1682936400000.
Proof. do 3 eexists; repeat split; vm_compute; reflexivity. Qed.


(* ================================================================== *)
(** * Further properties of the code *)
(* ================================================================== *)

(** ** The shape of an item *)

Section ItemShape.
  Context {RT : Runtime}.

(** What every item of a parsed document satisfies: dates are valid,
    a distance is finite, the subtitle is not empty, and the fields that
    go with the kind are the only ones set. *)
Definition wellShaped (it : Item) : Prop :=
  isValid (start it) = true
  /\ (forall e, end_ it = Some e -> isValid e = true)
  /\ (forall d, distanceMeters it = Some d -> Num.isFinite d = true)
  /\ (forall s, activityType it = Some s -> s <> [])
  /\ subtitle it <> []
  /\ match kind it with
     | activity => point it = None
     | visit =>
         title it <> [] /\ path it = [] /\ distanceMeters it = None
         /\ activityType it = None
     | rawpoint =>
         title it <> [] /\ (exists p, point it = Some p) /\ path it = []
         /\ end_ it = None /\ distanceMeters it = None
         /\ activityType it = None
     end.














End ItemShape.

Section ParsedItems.
  Context {RT : Runtime}.


Lemma length_flat_map_le {A B} (f : A -> list B) n l :
  (forall x, (List.length (f x) <= n)%nat) ->
  (List.length (flat_map f l) <= n * List.length l)%nat.
Proof.
  intros H. induction l as [|x l IH]; simpl; [lia|].
  rewrite length_app. specialize (H x). lia.
Qed.






End ParsedItems.

(* ------------------------------------------------------------------ *)
(** ** Paths *)




Definition finitePoint (p : LatLng) : Prop :=
  Num.isFinite (lat p) = true /\ Num.isFinite (lng p) = true.

Lemma finitePair_finite a b p : finitePair a b = Some p -> finitePoint p.
Proof.
  unfold finitePair, finitePoint.
  destruct (Num.isFinite a) eqn:Fa, (Num.isFinite b) eqn:Fb;
    simpl; intros E; inversion E; subst p; simpl; auto.
Qed.

Lemma parseLatLngString_finite v p :
  parseLatLngString v = Some p -> finitePoint p.
Proof.
  destruct v as [| | | |s| |]; try discriminate. simpl.
  destruct (Str.eqb s []); [discriminate|].
  set (cleaned := filter _ s).
  assert (F : match Regex.exec twoFloatsPattern cleaned with
              | Some m =>
                  finitePair (Num.ofString (Regex.capture 1 m))
                             (Num.ofString (Regex.capture 2 m))
              | None => None
              end = Some p -> finitePoint p).
  { destruct (Regex.exec _ _); [apply finitePair_finite | discriminate]. }
  destruct (Str.split 44%N cleaned) as [|p0 [|p1 r]]; auto.
  destruct (finitePair (Num.ofString p0) (Num.ofString p1)) eqn:E; auto.
  intros E'; inversion E'; subst. eapply finitePair_finite; eauto.
Qed.

Section Paths.
  Context {RT : Runtime}.


End Paths.



(* ------------------------------------------------------------------ *)
(** ** Timestamps *)

Section Timestamps.
  Context {RT : Runtime}.

(** X5. The two encodings of an instant. A text that [Date.parse] reads
    wins whatever the milliseconds are; otherwise the milliseconds
    decide, and a string of milliseconds gives what the number it denotes
    gives; milliseconds that are not finite or lie beyond the range of a
    date give nothing, as does anything that is neither a number nor a
    string. What is returned is always a valid date. *)
Theorem parseDateDual_encodings (iso ms : value) :
  (forall s t, iso = VStr s -> Date_parse s = Some t ->
               parseDateDual iso ms = Some (Some t))
  /\ ((forall s, iso = VStr s -> Date_parse s = None) ->
      parseDateDual iso ms = parseDateDual VNull ms)
  /\ (forall s, parseDateDual iso (VStr s)
                = parseDateDual iso (VNum (Num.ofString s)))
  /\ (forall x, parseDateDual VNull (VNum x)
                = if Num.isFinite x
                  then match Dates.ofNumber x with
                       | Some t => Some (Some t)
                       | None => None
                       end
                  else None)
  /\ (match ms with
      | VNum _ | VStr _ => True
      | _ => parseDateDual VNull ms = None
      end)
  /\ (forall d, parseDateDual iso ms = Some d -> isValid d = true).
Proof.
  repeat split.
  - intros s t -> E. unfold parseDateDual. now rewrite E.
  - intros H. unfold parseDateDual. destruct iso; try reflexivity.
    now rewrite (H s eq_refl).
  - destruct ms; exact I || reflexivity.
  - intros d. apply parseDateDual_valid.
Qed.

(** X6. A raw location whose timestamp is a string that [Number] does not
    read as a finite number is left out, whatever [Date.parse] makes of
    that string: the text of a date is never tried for a raw location.
    The first of [timestampMs], [timestampMS] and [timestamp] that is
    present decides, also when a later one would be readable. *)
Theorem raw_location_needs_numeric_timestamp (items : list Item)
    (loc : value) (s : jsstring) :
  recordTimestamp loc = VStr s ->
  Num.isFinite (Num.ofString s) = false ->
  recordsLocation items loc = Ok items.
Proof.
  intros E F. unfold recordsLocation. fold (recordTimestamp loc).
  rewrite E. unfold parseDateDual, toNumber. now rewrite F.
Qed.


End Timestamps.

(** A raw location of a recent export: the time is an ISO text. *)
Definition isoLocation : value :=
  VObj [(js "timestamp", VStr (js "2023-05-01T10:00:00Z"));
        (js "latitudeE7", VNum 351000000);
        (js "longitudeE7", VNum 1391000000)].

Lemma raw_location_needs_numeric_timestamp_witness :
  @recordsLocation utc [] isoLocation = Ok []
  /\ @Date_parse utc (js "2023-05-01T10:00:00Z") = Some 1682935200000.
Proof.
  split.
  - apply (@raw_location_needs_numeric_timestamp utc [] isoLocation
             (js "2023-05-01T10:00:00Z")); vm_compute; reflexivity.
  - vm_compute; reflexivity.
Defined.



(* ------------------------------------------------------------------ *)
(** ** Names *)

Lemma dropWhile_head p s :
  match Str.dropWhile p s with
  | c :: _ => p c = false
  | [] => True
  end.
Proof.
  induction s as [|c s IH]; simpl; [exact I|].
  destruct (p c) eqn:P; [exact IH | exact P].
Qed.

Lemma dropWhile_id p s :
  match s with
  | c :: _ => p c = false
  | [] => True
  end -> Str.dropWhile p s = s.
Proof. destruct s as [|c s]; simpl; [reflexivity|]. now intros ->. Qed.

Lemma dropWhile_split p s :
  exists pre, s = pre ++ Str.dropWhile p s.
Proof.
  induction s as [|c s (pre & IH)]; simpl; [now exists []|].
  destruct (p c); [exists (c :: pre); simpl; congruence | now exists []].
Qed.

Lemma trim_trim s : Str.trim (Str.trim s) = Str.trim s.
Proof.
  unfold Str.trim.
  set (a := Str.dropWhile Str.isSpace s).
  pose proof (dropWhile_head Str.isSpace s) as Ha. fold a in Ha.
  pose proof (dropWhile_head Str.isSpace (rev a)) as Hb.
  destruct (dropWhile_split Str.isSpace (rev a)) as (pre & E).
  set (b := Str.dropWhile Str.isSpace (rev a)) in *.
  assert (Ea : a = rev b ++ rev pre).
  { rewrite <- rev_app_distr, <- E. now rewrite rev_involutive. }
  assert (H1 : Str.dropWhile Str.isSpace (rev b) = rev b).
  { apply dropWhile_id. destruct (rev b) as [|x r] eqn:R; [exact I|].
    rewrite Ea in Ha. simpl in Ha. exact Ha. }
  rewrite H1, rev_involutive.
  rewrite (dropWhile_id Str.isSpace b Hb). reflexivity.
Qed.

(** A candidate that [pickFirstString] passes over. *)
Definition blank (c : value) : Prop :=
  match c with
  | VStr s => Str.trim s = []
  | _ => True
  end.

(** X8. [pickFirstString] returns the first candidate that is a string
    with something else than white space in it, trimmed: candidates of
    another type and blank strings before it are passed over, what comes
    after it is not looked at. The result is the empty string exactly when
    every candidate is passed over, and trimming it again changes
    nothing. *)
Theorem pickFirstString_first_non_blank :
  (forall pre s rest,
      Forall blank pre -> Str.trim s <> [] ->
      pickFirstString (pre ++ VStr s :: rest) = Str.trim s)
  /\ (forall cs, pickFirstString cs = [] <-> Forall blank cs)
  /\ (forall cs, Str.trim (pickFirstString cs) = pickFirstString cs).
Proof.
  assert (S : forall s,
             negb (Nat.eqb (List.length (Str.trim s)) 0) = false
             <-> Str.trim s = []).
  { intros s. destruct (Str.trim s); simpl; split; congruence. }
  repeat split.
  - intros pre s rest B N. induction B as [|c pre Hc B IH]; simpl.
    + destruct (Str.trim s); [congruence | reflexivity].
    + destruct c; try exact IH. simpl in Hc. rewrite Hc. exact IH.
  - induction cs as [|c cs IH]; simpl; [constructor|].
    destruct c; try (intros H; constructor; [exact I | auto]).
    destruct (Str.trim s) eqn:T; simpl.
    + intros H; constructor; [exact T | auto].
    + discriminate.
  - induction 1 as [|c cs Hc B IH]; simpl; [reflexivity|].
    destruct c; try exact IH. simpl in Hc. rewrite Hc. exact IH.
  - induction cs as [|c cs IH]; simpl; [reflexivity|].
    destruct c; try exact IH.
    destruct (Str.trim s) eqn:T; simpl; [exact IH|].
    rewrite <- T. apply trim_trim.
Qed.

(* ------------------------------------------------------------------ *)
(** ** Coordinates in a string *)

(** What [parseLatLngString] works on: the string without the units of
    the degree sign and without white space. *)
Definition cleaned (s : jsstring) : jsstring :=
  filter (fun c => negb (stripped c)) s.

Lemma filter_filter {A} (f : A -> bool) l :
  filter f (filter f l) = filter f l.
Proof.
  induction l as [|x l IH]; simpl; [reflexivity|].
  destruct (f x) eqn:F; simpl; [rewrite F, IH|]; auto.
Qed.

Lemma cleaned_app a b : cleaned (a ++ b) = cleaned a ++ cleaned b.
Proof. apply filter_app. Qed.

Lemma cleaned_stripped w : forallb stripped w = true -> cleaned w = [].
Proof.
  induction w as [|c w IH]; simpl; [reflexivity|].
  intros H. apply andb_prop in H as [-> H]. simpl. auto.
Qed.

(** The two readings of a cleaned string: the parts around the commas
    first, the two numbers of the pattern otherwise. *)
Definition readings (c : jsstring) : option LatLng :=
  let fallback :=
    match Regex.exec twoFloatsPattern c with
    | Some m =>
        finitePair (Num.ofString (Regex.capture 1 m))
                   (Num.ofString (Regex.capture 2 m))
    | None => None
    end in
  match Str.split 44%N c with
  | p0 :: p1 :: _ =>
      match finitePair (Num.ofString p0) (Num.ofString p1) with
      | Some r => Some r
      | None => fallback
      end
  | _ => fallback
  end.

Lemma parseLatLngString_readings s :
  parseLatLngString (VStr s)
  = if Str.eqb s [] then None else readings (cleaned s).
Proof. reflexivity. Qed.

Lemma cleaned_cleaned s : cleaned (cleaned s) = cleaned s.
Proof. apply filter_filter. Qed.

Lemma parseLatLngString_cleaned s :
  parseLatLngString (VStr s) = parseLatLngString (VStr (cleaned s)).
Proof.
  rewrite !parseLatLngString_readings, cleaned_cleaned.
  destruct (Str.eqb_spec s []) as [->|N]; [reflexivity|].
  destruct (Str.eqb_spec (cleaned s) []) as [E|N']; [|reflexivity].
  rewrite E. reflexivity.
Qed.

(** X9. Degree-sign units and white space count for nothing in
    [parseLatLngString]: the result is that of the string without them,
    so inserting or deleting such units anywhere changes nothing. What is
    returned always has two finite coordinates, and only a string is
    read. *)
Theorem parseLatLngString_ignores_spaces :
  (forall s, parseLatLngString (VStr s) = parseLatLngString (VStr (cleaned s)))
  /\ (forall a w b,
         forallb stripped w = true ->
         parseLatLngString (VStr (a ++ w ++ b))
         = parseLatLngString (VStr (a ++ b)))
  /\ (forall v p, parseLatLngString v = Some p -> finitePoint p)
  /\ (forall v, match v with
                | VStr _ => True
                | _ => parseLatLngString v = None
                end).
Proof.
  split; [exact parseLatLngString_cleaned|]. split; [|split].
  - intros a w b W.
    rewrite parseLatLngString_cleaned,
      (parseLatLngString_cleaned (a ++ b)).
    now rewrite !cleaned_app, (cleaned_stripped w W).
  - exact parseLatLngString_finite.
  - intros []; exact I || reflexivity.
Qed.

Lemma split_app sep a r :
  ~ In sep a -> Str.split sep (a ++ sep :: r) = a :: Str.split sep r.
Proof.
  induction a as [|c a IH]; simpl; intros N.
  - now rewrite N.eqb_refl.
  - destruct (N.eqb_spec c sep) as [->|_]; [tauto|].
    rewrite IH by tauto. reflexivity.
Qed.

Lemma split_none sep a : ~ In sep a -> Str.split sep a = [a].
Proof.
  induction a as [|c a IH]; simpl; intros N; [reflexivity|].
  destruct (N.eqb_spec c sep) as [->|_]; [tauto|].
  rewrite IH by tauto. reflexivity.
Qed.

Lemma cleaned_In c s : In c (cleaned s) -> In c s.
Proof. unfold cleaned. intros H. now apply filter_In in H. Qed.

(** X10. The first reading of [parseLatLngString]: when the text before
    the first comma and the text between the first and the second comma
    (or the end) are both finite numbers once cleaned, they are the
    latitude and the longitude; what follows a second comma is not
    looked at. *)
Theorem parseLatLngString_comma_pair (a b tail : jsstring) :
  ~ In 44%N a -> ~ In 44%N b ->
  tail = [] \/ (exists t, tail = 44%N :: t) ->
  Num.isFinite (Num.ofString (cleaned a)) = true ->
  Num.isFinite (Num.ofString (cleaned b)) = true ->
  parseLatLngString (VStr (a ++ 44%N :: b ++ tail))
  = Some {| lat := Num.ofString (cleaned a);
            lng := Num.ofString (cleaned b) |}.
Proof.
  intros Na Nb T Fa Fb.
  rewrite parseLatLngString_cleaned.
  replace (cleaned (a ++ 44%N :: b ++ tail))
    with (cleaned a ++ 44%N :: cleaned b ++ cleaned tail)
    by (change (44%N :: b ++ tail) with ([44%N] ++ b ++ tail);
        now rewrite !cleaned_app).
  assert (Na' : ~ In 44%N (cleaned a)) by (intros H; apply Na, cleaned_In, H).
  assert (Nb' : ~ In 44%N (cleaned b)) by (intros H; apply Nb, cleaned_In, H).
  rewrite parseLatLngString_readings.
  destruct (Str.eqb_spec (cleaned a ++ 44%N :: cleaned b ++ cleaned tail) [])
    as [E|_]; [now destruct (cleaned a)|].
  replace (cleaned (cleaned a ++ 44%N :: cleaned b ++ cleaned tail))
    with (cleaned a ++ 44%N :: cleaned b ++ cleaned tail).
  2:{ change (44%N :: cleaned b ++ cleaned tail)
        with ([44%N] ++ cleaned b ++ cleaned tail).
      now rewrite !cleaned_app, !cleaned_cleaned. }
  unfold readings.
  rewrite split_app by exact Na'.
  assert (S : exists rest,
             Str.split 44%N (cleaned b ++ cleaned tail) = cleaned b :: rest).
  { destruct T as [->|(t & ->)].
    - simpl. rewrite app_nil_r, split_none by exact Nb'. now exists [].
    - change (cleaned (44%N :: t)) with (44%N :: cleaned t).
      rewrite split_app by exact Nb'. eauto. }
  destruct S as (rest & ->).
  unfold finitePair. now rewrite Fa, Fb.
Qed.

Lemma parseLatLngString_comma_pair_witness :
  parseLatLngString (VStr (js "35.1, 139.1,12"))
  = Some {| lat := 35.1%float; lng := 139.1%float |}.
Proof.
  apply (parseLatLngString_comma_pair (js "35.1") (js " 139.1") (js ",12"));
    vm_compute; try reflexivity.
  - intuition discriminate.
  - intuition discriminate.
  - right. eexists. reflexivity.
Defined.

(* ------------------------------------------------------------------ *)
(** ** The pattern of two numbers *)

Section Backtracking.
  Context {A : Type}.

(** The loop of a starred expression. *)
Definition starLoop (a : Regex.re)
    (k : jsstring -> Regex.captures -> option A)
    : nat -> jsstring -> Regex.captures -> option A :=
  fix loop (n : nat) (s : jsstring) (c : Regex.captures) : option A :=
    match n with
    | O => k s c
    | S n' =>
        match Regex.run a s c (fun s' c' =>
                 if Nat.ltb (List.length s') (List.length s)
                 then loop n' s' c' else None) with
        | Some x => Some x
        | None => k s c
        end
    end.

Lemma run_Star a s c k :
  Regex.run (Regex.Star a) s c k = starLoop a k (List.length s) s c.
Proof. reflexivity. Qed.

(** A match ends in a call of the continuation. *)
Lemma run_continues r :
  forall s c (k : jsstring -> Regex.captures -> option A) m,
    Regex.run r s c k = Some m -> exists s' c', k s' c' = Some m.
Proof.
  induction r as [p|a IHa b IHb|a IHa|a IHa|n a IHa]; intros s c k m.
  - simpl. destruct s as [|x s]; [discriminate|].
    destruct (p x); [eauto | discriminate].
  - simpl. intros H. apply IHa in H as (s' & c' & H). eauto.
  - simpl. destruct (Regex.run a s c k) eqn:E.
    + intros H; inversion H; subst. eauto.
    + eauto.
  - rewrite run_Star. generalize (List.length s) as n. intros n.
    revert s c. induction n as [|n IH]; intros s c; simpl; [eauto|].
    destruct (Regex.run a s c _) eqn:E.
    + intros H; inversion H; subst.
      apply IHa in E as (s' & c' & E).
      destruct (Nat.ltb _ _); [eauto | discriminate].
    + eauto.
  - simpl. intros H. apply IHa in H as (s' & c' & H). eauto.
Qed.

Variable p : codeunit -> bool.
Variable k : jsstring -> Regex.captures -> option A.

Lemma starLoop_Chr n x s c :
  starLoop (Regex.Chr p) k (S n) (x :: s) c
  = if p x
    then match starLoop (Regex.Chr p) k n s c with
         | Some m => Some m
         | None => k (x :: s) c
         end
    else k (x :: s) c.
Proof.
  simpl. destruct (p x); [|reflexivity].
  assert (L : Nat.ltb (List.length s) (S (List.length s)) = true)
    by (apply Nat.ltb_lt; lia).
  rewrite L. reflexivity.
Qed.

Lemma starLoop_nil n c : starLoop (Regex.Chr p) k n [] c = k [] c.
Proof. destruct n; reflexivity. Qed.

(** A star that fails: the continuation fails after every run of units
    that the star can take. *)
Lemma star_none n :
  forall s c,
    (List.length s <= n)%nat ->
    starLoop (Regex.Chr p) k n s c = None ->
    forall a b, s = a ++ b -> forallb p a = true -> k b c = None.
Proof.
  induction n as [|n IH]; intros s c L H a b E Pa.
  - destruct s; [|simpl in L; lia].
    destruct a; [|discriminate]. simpl in E. subst b. exact H.
  - destruct s as [|x s].
    + destruct a; [|discriminate]. simpl in E. subst b. exact H.
    + rewrite starLoop_Chr in H. simpl in L.
      destruct a as [|y a].
      * simpl in E; subst b.
        destruct (p x); [|exact H].
        destruct (starLoop _ _ n s c); [discriminate | exact H].
      * inversion E; subst y. simpl in Pa.
        apply andb_prop in Pa as [Px Pa]. rewrite Px in H.
        destruct (starLoop _ _ n s c) eqn:E'; [discriminate|].
        eapply IH; eauto. lia.
Qed.

(** A star that succeeds: the continuation succeeds after the longest
    run of units for which it does. *)
Lemma star_some n :
  forall s c m,
    (List.length s <= n)%nat ->
    starLoop (Regex.Chr p) k n s c = Some m ->
    exists a b,
      s = a ++ b /\ forallb p a = true /\ k b c = Some m
      /\ forall a' b',
          s = a' ++ b' -> forallb p a' = true ->
          (List.length a < List.length a')%nat -> k b' c = None.
Proof.
  induction n as [|n IH]; intros s c m L H.
  - destruct s; [|simpl in L; lia].
    exists [], []. repeat split; auto.
    intros a' b' E _ La. destruct a'; [simpl in La; lia | discriminate].
  - destruct s as [|x s].
    + rewrite starLoop_nil in H. exists [], []. repeat split; auto.
      intros a' b' E _ La. destruct a'; [simpl in La; lia | discriminate].
    + rewrite starLoop_Chr in H. simpl in L.
      destruct (p x) eqn:Px.
      * destruct (starLoop _ _ n s c) eqn:E'.
        -- inversion H; subst.
           apply IH in E' as (a & b & -> & Pa & Kb & Mx); [|lia].
           exists (x :: a), b. repeat split; auto.
           ++ simpl. now rewrite Px.
           ++ intros a' b' E Pa' La. destruct a' as [|y a'];
                [simpl in La; lia|].
              inversion E; subst y. simpl in Pa'.
              apply andb_prop in Pa' as [_ Pa']. simpl in La.
              eapply Mx; eauto. lia.
        -- exists [], (x :: s). repeat split; auto.
           intros a' b' E Pa' La. destruct a' as [|y a'];
             [simpl in La; lia|].
           inversion E; subst y. simpl in Pa'.
           apply andb_prop in Pa' as [_ Pa'].
           eapply (star_none n _ c); [| exact E' | | exact Pa'];
             [lia | reflexivity || assumption].
      * exists [], (x :: s). repeat split; auto.
        intros a' b' E Pa' La. destruct a' as [|y a'];
          [simpl in La; lia|].
        inversion E; subst y. simpl in Pa'. rewrite Px in Pa'. discriminate.
Qed.

(** Before a continuation that cannot fail a star takes all it can. *)
Lemma star_total n :
  (forall s c, k s c <> None) ->
  forall s c,
    (List.length s <= n)%nat ->
    starLoop (Regex.Chr p) k n s c = k (Str.dropWhile p s) c.
Proof.
  intros T. induction n as [|n IH]; intros s c L.
  - destruct s; [reflexivity | simpl in L; lia].
  - destruct s as [|x s]; [reflexivity|].
    rewrite starLoop_Chr. simpl in L. simpl.
    destruct (p x); [|reflexivity].
    rewrite IH by lia.
    destruct (k (Str.dropWhile p s) c) eqn:E; [reflexivity|].
    now apply T in E.
Qed.
End Backtracking.

(** The continuation of the matcher once the pattern is matched. *)
Definition matched : jsstring -> Regex.captures -> option Regex.captures :=
  fun _ c => Some c.

(** The optional fraction, before a continuation that cannot fail. *)
Definition fractionPart (k : jsstring -> Regex.captures -> option Regex.captures)
    (r : jsstring) (c : Regex.captures) : option Regex.captures :=
  match r with
  | 46%N :: d :: r' =>
      if Str.isDigit d then k (Str.dropWhile Str.isDigit r') c else k r c
  | _ => k r c
  end.

(** The digits and the fraction. *)
Definition unsigned (k : jsstring -> Regex.captures -> option Regex.captures)
    (s : jsstring) (c : Regex.captures) : option Regex.captures :=
  match s with
  | d :: r =>
      if Str.isDigit d then fractionPart k (Str.dropWhile Str.isDigit r) c
      else None
  | [] => None
  end.

Section FloatPattern.
  Variable k : jsstring -> Regex.captures -> option Regex.captures.
  Hypothesis total : forall s c, k s c <> None.

Lemma fractionPart_total r c : fractionPart k r c <> None.
Proof.
  unfold fractionPart.
  repeat match goal with
         | |- context [match ?x with _ => _ end] => destruct x
         end; apply total.
Qed.

Lemma run_fractionPart r c :
  Regex.run
    (Regex.Opt (Regex.Seq (Regex.Chr (Regex.lit 46%N))
                  (Regex.Plus (Regex.Chr Str.isDigit)))) r c k
  = fractionPart k r c.
Proof.
  cbn [Regex.run Regex.Plus].
  destruct r as [|x r]; [reflexivity|].
  unfold Regex.lit at 1.
  destruct (N.eqb_spec 46 x) as [<-|N].
  - destruct r as [|d r]; [reflexivity|].
    unfold fractionPart.
    destruct (Str.isDigit d); [|reflexivity].
    change ((fix loop (n : nat) (s : jsstring) (c0 : Regex.captures)
               {struct n} : option Regex.captures := _) (List.length r) r c)
      with (starLoop (Regex.Chr Str.isDigit) k (List.length r) r c).
    rewrite (star_total Str.isDigit k (List.length r) total) by lia.
    destruct (k (Str.dropWhile Str.isDigit r) c) eqn:E; [reflexivity|].
    now apply total in E.
  - unfold fractionPart. destruct x as [|x]; [reflexivity|].
    do 6 (destruct x as [x|x|]; try reflexivity).
    congruence.
Qed.

Lemma run_unsigned s c :
  Regex.run
    (Regex.Seq (Regex.Plus (Regex.Chr Str.isDigit))
       (Regex.Opt (Regex.Seq (Regex.Chr (Regex.lit 46%N))
                     (Regex.Plus (Regex.Chr Str.isDigit))))) s c k
  = unsigned k s c.
Proof.
  remember (Regex.Opt (Regex.Seq (Regex.Chr (Regex.lit 46%N))
                         (Regex.Plus (Regex.Chr Str.isDigit)))) as frac
    eqn:F.
  cbn [Regex.run Regex.Plus].
  destruct s as [|d r]; [reflexivity|].
  unfold unsigned. destruct (Str.isDigit d); [|reflexivity].
  change ((fix loop (n : nat) (s : jsstring) (c0 : Regex.captures)
             {struct n} : option Regex.captures := _) (List.length r) r c)
    with (starLoop (Regex.Chr Str.isDigit)
            (fun s' c' => Regex.run frac s' c' k) (List.length r) r c).
  rewrite star_total; [| |lia].
  - subst frac. apply run_fractionPart.
  - intros s' c'. subst frac. rewrite run_fractionPart. apply fractionPart_total.
Qed.

(** The whole number, with its sign. *)
Definition signed (s : jsstring) (c : Regex.captures)
    : option Regex.captures :=
  match s with
  | x :: r => if N.eqb 45 x then unsigned k r c else unsigned k s c
  | [] => None
  end.

Lemma run_floatPattern s c : Regex.run floatPattern s c k = signed s c.
Proof.
  unfold floatPattern.
  remember (Regex.Seq (Regex.Plus (Regex.Chr Str.isDigit)) _) as u eqn:U.
  cbn [Regex.run].
  assert (R : forall s' c', Regex.run u s' c' k = unsigned k s' c')
    by (intros; subst u; apply run_unsigned).
  rewrite !R. destruct s as [|x r]; [reflexivity|].
  unfold signed, Regex.lit.
  destruct (N.eqb_spec 45 x) as [<-|N].
  - rewrite !R. destruct (unsigned k r c); reflexivity.
  - reflexivity.
Qed.

(** What may follow a digit that is matched alone. *)
Definition lone (r : jsstring) : bool :=
  match r with
  | x :: r' =>
      negb (Str.isDigit x)
      && negb (N.eqb x 46 && match r' with
                             | y :: _ => Str.isDigit y
                             | [] => false
                             end)
  | [] => true
  end.

Lemma signed_digit d r c : Str.isDigit d = true -> signed (d :: r) c <> None.
Proof.
  intros D. unfold signed.
  destruct (N.eqb_spec 45 d) as [<-|_]; [discriminate D|].
  unfold unsigned. rewrite D. apply fractionPart_total.
Qed.

Lemma signed_starts s c m :
  signed s c = Some m ->
  (exists d r, s = d :: r /\ Str.isDigit d = true)
  \/ (exists d r, s = 45%N :: d :: r /\ Str.isDigit d = true).
Proof.
  unfold signed. destruct s as [|x r]; [discriminate|].
  destruct (N.eqb_spec 45 x) as [<-|_].
  - unfold unsigned. destruct r as [|d r]; [discriminate|].
    destruct (Str.isDigit d) eqn:D; [eauto 6 | discriminate].
  - unfold unsigned. destruct (Str.isDigit x) eqn:D; [eauto 6 | discriminate].
Qed.

Lemma signed_lone d r c :
  Str.isDigit d = true -> lone r = true -> signed (d :: r) c = k r c.
Proof.
  intros D L. unfold signed.
  destruct (N.eqb_spec 45 d) as [<-|_]; [discriminate D|].
  unfold unsigned. rewrite D.
  destruct r as [|x r]; [reflexivity|].
  simpl in L. apply andb_prop in L as [Nx L].
  apply negb_true_iff in Nx. simpl. rewrite Nx.
  unfold fractionPart.
  destruct (N.eqb_spec x 46) as [->|N].
  - simpl in L. destruct r as [|y r]; [reflexivity|].
    apply negb_true_iff in L. now rewrite L.
  - repeat match goal with
           | |- context [match ?x with _ => _ end] =>
               destruct x; try reflexivity; try congruence
           end.
Qed.

Lemma not_lone r :
  lone r = false ->
  (exists d r', r = d :: r' /\ Str.isDigit d = true)
  \/ (exists d r', r = 46%N :: d :: r' /\ Str.isDigit d = true).
Proof.
  destruct r as [|x r]; [discriminate|]. simpl.
  destruct (Str.isDigit x) eqn:D; [eauto 6|]. simpl.
  destruct (N.eqb_spec x 46) as [->|_]; [|discriminate]. simpl.
  destruct r as [|y r]; [discriminate|].
  destruct (Str.isDigit y) eqn:Dy; [eauto 6 | discriminate].
Qed.
End FloatPattern.

Lemma isDigit_dot d : Str.isDigit d = true -> Regex.dot d = true.
Proof.
  unfold Str.isDigit, Regex.dot. intros H.
  apply andb_prop in H as [H1 H2].
  apply Z.leb_le in H1. apply Z.leb_le in H2.
  apply negb_true_iff.
  repeat (apply orb_false_iff; split); apply N.eqb_neq; lia.
Qed.

(** The second group, from where the star stops. *)
Definition second (s : jsstring) (c : Regex.captures)
    : option Regex.captures :=
  Regex.run (Regex.Group 2 floatPattern) s c matched.

Lemma second_signed s c :
  second s c
  = signed (fun s' c' =>
              matched s' ((2%nat, firstn (List.length s - List.length s') s)
                          :: c')) s c.
Proof.
  unfold second. cbn [Regex.run]. apply run_floatPattern.
  intros; discriminate.
Qed.

Lemma second_digit d r c : Str.isDigit d = true -> second (d :: r) c <> None.
Proof.
  intros D. rewrite second_signed. apply signed_digit; auto.
  intros; discriminate.
Qed.

Lemma second_lone d r c :
  Str.isDigit d = true -> lone r = true ->
  second (d :: r) c = Some ((2%nat, [d]) :: c).
Proof.
  intros D L. rewrite second_signed, signed_lone by auto.
  unfold matched. simpl List.length.
  replace (S (List.length r) - List.length r)%nat with 1%nat by lia.
  reflexivity.
Qed.

(** Where the pattern matches, its second group is one digit. *)
Lemma twoFloatsPattern_second s c m :
  Regex.run twoFloatsPattern s c matched = Some m ->
  exists d, Str.isDigit d = true /\ Regex.capture 2 m = [d].
Proof.
  intros H.
  change (Regex.run twoFloatsPattern s c matched)
    with (Regex.run (Regex.Group 1 floatPattern) s c
            (fun s' c' =>
               Regex.run (Regex.Star (Regex.Chr Regex.dot)) s' c' second))
    in H.
  apply run_continues in H as (s2 & c2 & H).
  rewrite run_Star in H.
  apply star_some in H as (a & b & -> & Pa & Kb & Mx); [|lia].
  assert (N : forall x r, Forall (fun y => Regex.dot y = true) x ->
                          b = x ++ r -> x <> [] -> second r c2 = None).
  { intros x r Fx -> Nx. apply (Mx (a ++ x) r).
    - now rewrite app_assoc.
    - rewrite forallb_app, Pa. simpl. now apply forallb_forall, Forall_forall.
    - rewrite length_app. destruct x; [congruence | simpl; lia]. }
  pose proof Kb as S. rewrite second_signed in S.
  apply signed_starts in S as [(d & r & -> & D)|(d & r & -> & D)].
  - destruct (lone r) eqn:L.
    + rewrite second_lone in Kb by auto. inversion Kb; subst m.
      exists d. split; [exact D | reflexivity].
    + exfalso. apply not_lone in L as [(e & r' & -> & De)|(e & r' & -> & De)].
      * apply (second_digit e r' c2 De).
        apply (N [d]); [repeat constructor; now apply isDigit_dot
                       | reflexivity | discriminate].
      * apply (second_digit e r' c2 De).
        apply (N [d; 46%N]); [repeat constructor; now apply isDigit_dot
                             | reflexivity | discriminate].
  - exfalso. apply (second_digit d r c2 D).
    apply (N [45%N]); [repeat constructor | reflexivity | discriminate].
Qed.

Lemma exec_step r s :
  Regex.exec r s
  = match Regex.run r s [] matched with
    | Some c => Some c
    | None =>
        match s with
        | [] => None
        | _ :: s' => Regex.exec r s'
        end
    end.
Proof. destruct s; reflexivity. Qed.

Lemma exec_twoFloatsPattern s m :
  Regex.exec twoFloatsPattern s = Some m ->
  exists d, Str.isDigit d = true /\ Regex.capture 2 m = [d].
Proof.
  induction s as [|x s IH]; rewrite exec_step;
    destruct (Regex.run twoFloatsPattern _ [] matched) eqn:E;
    try discriminate; try exact IH;
    intros H; inversion H; subst; eapply twoFloatsPattern_second, E.
Qed.

Lemma one_digit d :
  Str.isDigit d = true ->
  In (Num.ofString [d]) [0; 1; 2; 3; 4; 5; 6; 7; 8; 9]%float.
Proof.
  unfold Str.isDigit. intros H. apply andb_prop in H as [H1 H2].
  apply Z.leb_le in H1. apply Z.leb_le in H2.
  assert (E : (d = 48 \/ d = 49 \/ d = 50 \/ d = 51 \/ d = 52 \/ d = 53
               \/ d = 54 \/ d = 55 \/ d = 56 \/ d = 57)%N) by lia.
  repeat destruct E as [->|E]; try subst d; vm_compute; tauto.
Qed.

(** X11. The second number of the pattern is one digit. In whatever
    string [/(-?\d+(?:\.\d+)?).*(-?\d+(?:\.\d+)?)/] matches, the second
    group holds exactly one digit: the star takes all it can and gives
    back no more than the last digit. So what [parseLatLngString]
    returns is either made of the first two parts around the commas, or
    has one of the integers 0 to 9 as its longitude. *)
Theorem fallback_longitude_is_one_digit :
  (forall s m,
      Regex.exec twoFloatsPattern s = Some m ->
      exists d, Str.isDigit d = true /\ Regex.capture 2 m = [d])
  /\ (forall s p,
         parseLatLngString (VStr s) = Some p ->
         (exists p0 p1 rest,
             Str.split 44%N (cleaned s) = p0 :: p1 :: rest
             /\ p = {| lat := Num.ofString p0; lng := Num.ofString p1 |})
         \/ In (lng p) [0; 1; 2; 3; 4; 5; 6; 7; 8; 9]%float).
Proof.
  split; [exact exec_twoFloatsPattern|].
  intros s p. rewrite parseLatLngString_readings.
  destruct (Str.eqb s []); [discriminate|]. unfold readings.
  assert (F : match Regex.exec twoFloatsPattern (cleaned s) with
              | Some m =>
                  finitePair (Num.ofString (Regex.capture 1 m))
                             (Num.ofString (Regex.capture 2 m))
              | None => None
              end = Some p ->
              In (lng p) [0; 1; 2; 3; 4; 5; 6; 7; 8; 9]%float).
  { destruct (Regex.exec twoFloatsPattern (cleaned s)) as [m|] eqn:E;
      [|discriminate].
    apply exec_twoFloatsPattern in E as (d & D & ->).
    unfold finitePair. destruct (_ && _); [|discriminate].
    intros H; inversion H; subst p. cbn [lng]. now apply one_digit. }
  destruct (Str.split 44%N (cleaned s)) as [|p0 [|p1 rest]]; auto.
  unfold finitePair at 1.
  destruct (Num.isFinite (Num.ofString p0) && Num.isFinite (Num.ofString p1)).
  - intros H; inversion H; subst p. left. eauto.
  - auto.
Qed.

(* ------------------------------------------------------------------ *)
(** ** The order of the loaded items *)

Section Stable.
  Variable A : Type.
  Variable cmp : A -> A -> Z.
  Variable key : A -> Z.
  Variable p : A -> bool.
  Hypothesis same : forall a b, p a = true -> p b = true -> key a = key b.


End Stable.



Section LoadedOrder.
  Context {RT : Runtime}.

End LoadedOrder.



(* ------------------------------------------------------------------ *)
(** ** The keys of the days *)

Section DayKeys.
  Import Dates DatesFacts.
  Context {RT : Runtime}.

(** X13. The key of a day tells the days of the calendar apart: two
    valid dates have the same key exactly when they have the same local
    year, month and date, whatever the zone; the key of a valid date is a
    number, that of an invalid date is not. *)
Theorem dayKey_tells_days_apart :
  (forall t1 t2,
      dayKey (Some t1) = dayKey (Some t2) <->
      getFullYear (Some t1) = getFullYear (Some t2)
      /\ getMonth (Some t1) = getMonth (Some t2)
      /\ getDate (Some t1) = getDate (Some t2))
  /\ (forall t, exists k,
         dayKey (Some t) = Some k
         /\ k / 10000 = YearFromTime (LocalTime t)
         /\ k mod 10000 = (MonthFromTime (LocalTime t) + 1) * 100
                          + DateFromTime (LocalTime t))
  /\ dayKey None = None.
Proof.
  split; [|split; [|reflexivity]].
  - intros t1 t2. unfold dayKey, getFullYear, getMonth, getDate; simpl.
    pose proof (MonthFromTime_range (LocalTime t1)).
    pose proof (MonthFromTime_range (LocalTime t2)).
    pose proof (DateFromTime_range (LocalTime t1)).
    pose proof (DateFromTime_range (LocalTime t2)).
    split.
    + intros E. inversion E.
      assert (YearFromTime (LocalTime t1) = YearFromTime (LocalTime t2)) by lia.
      assert (MonthFromTime (LocalTime t1) = MonthFromTime (LocalTime t2))
        by lia.
      repeat split; f_equal; lia.
    + intros (Y & M & D). inversion Y. inversion M. inversion D. congruence.
  - intros t. unfold dayKey, getFullYear, getMonth, getDate; simpl.
    pose proof (MonthFromTime_range (LocalTime t)).
    pose proof (DateFromTime_range (LocalTime t)).
    eexists. split; [reflexivity|].
    split; Z.to_euclidean_division_equations; lia.
Qed.

(** X14. What [rebuildDays] leaves: the set of keys holds the key of
    every item and nothing else, each once; the index has one day for each
    key; the selection and the anchor of the calendar are the first day of
    the index, or nothing when there is no item; the items are untouched. *)
Theorem rebuildDays_index (st : State) :
  let st' := rebuildDays st in
  items st' = items st
  /\ detectedFormat st' = detectedFormat st
  /\ toast st' = toast st
  /\ NoDup (dayKeySet st')
  /\ (forall k, In k (dayKeySet st') <->
                exists it, In it (items st) /\ dayKey (start it) = k)
  /\ List.length (sortedDays st') = List.length (dayKeySet st')
  /\ (List.length (sortedDays st') <= List.length (items st))%nat
  /\ selectedDay st' = hd_error (sortedDays st')
  /\ monthAnchor st' = hd_error (sortedDays st')
  /\ (items st = [] <-> sortedDays st' = []).
Proof.
  intros st'.
  destruct (rebuildDays_fields st) as (I & K & D & S & L).
  fold st' in I, K, D, S, L.
  assert (Len : forall its acc,
             (List.length
                (fold_left (fun s it => setAdd s (dayKey (start it))) its acc)
              <= List.length acc + List.length its)%nat).
  { induction its as [|it its IH]; intros acc; simpl; [lia|].
    specialize (IH (setAdd acc (dayKey (start it)))).
    unfold setAdd in *. destruct (existsb _ acc); [lia|].
    rewrite length_app in IH. simpl in IH. lia. }
  split; [exact I|]. split; [reflexivity|]. split; [reflexivity|].
  split; [rewrite K; apply dayKeys_NoDup|].
  split; [intros k; rewrite K; apply dayKeys_In|].
  split; [now rewrite L, K|].
  split; [rewrite L; apply (Len (items st) [])|].
  split; [exact S|]. split; [exact S|].
  split.
  - intros E. apply length_zero_iff_nil. rewrite L, E. reflexivity.
  - intros E. apply (f_equal (@List.length _)) in E. rewrite L in E.
    destruct (items st) as [|it its] eqn:Its; [reflexivity|].
    exfalso.
    assert (In (dayKey (start it)) (dayKeys (it :: its)))
      by (apply dayKeys_In; exists it; split; [now left | reflexivity]).
    destruct (dayKeys (it :: its)); [contradiction | discriminate].
Qed.
End DayKeys.

(* ------------------------------------------------------------------ *)
(** ** The navigator *)

Section Navigation.
  Context {RT : Runtime}.

(** X15. The navigator and its buttons agree: a step whose button
    [updateNavButtons] disables changes nothing, and a step whose button
    is enabled selects the neighbour of the current day in the index,
    which exists. A step never touches the items, the index, the set of
    keys, the format, the anchor of the calendar or the toast. *)
Theorem navigator_follows_its_buttons (st : State) :
  (hasPrev st = false -> goPrev st = st)
  /\ (hasNext st = false -> goNext st = st)
  /\ (hasPrev st = true ->
      exists d,
        nth_error (sortedDays st) (Z.to_nat (currentDayIndex st - 1)) = Some d
        /\ goPrev st = renderAll (select (Some d) st))
  /\ (hasNext st = true ->
      exists d,
        nth_error (sortedDays st) (Z.to_nat (currentDayIndex st + 1)) = Some d
        /\ goNext st = renderAll (select (Some d) st))
  /\ (forall st',
         st' = goPrev st \/ st' = goNext st ->
         items st' = items st /\ sortedDays st' = sortedDays st
         /\ dayKeySet st' = dayKeySet st
         /\ detectedFormat st' = detectedFormat st
         /\ monthAnchor st' = monthAnchor st /\ toast st' = toast st).
Proof.
  pose proof (currentDayIndex_range st) as R.
  unfold hasPrev, hasNext, goPrev, goNext, updateNavButtons.
  cbn [prevDisabled nextDisabled].
  set (idx := currentDayIndex st) in *.
  set (n := List.length (sortedDays st)) in *.
  assert (Nth : forall i, 0 <= i < Z.of_nat n ->
                          exists d, nth_error (sortedDays st) (Z.to_nat i)
                                    = Some d).
  { intros i Hi. destruct (nth_error (sortedDays st) (Z.to_nat i)) eqn:E;
      [eauto|]. apply nth_error_None in E. fold n in E. lia. }
  destruct (Z.ltb_spec 0 idx) as [P|P];
    destruct (Z.leb_spec 0 idx) as [Q|Q]; try lia;
    destruct (Z.ltb_spec idx (Z.of_nat n - 1)) as [N|N];
    destruct (Z.leb_spec idx 0) as [P'|P']; try lia;
    destruct (Z.ltb_spec idx 0) as [Q'|Q']; try lia;
    destruct (Z.leb_spec (Z.of_nat n - 1) idx) as [N'|N']; try lia;
    destruct (Nat.eqb_spec n 0) as [Z0|Z0]; try lia;
    cbn [negb orb andb];
    repeat split; try reflexivity; try discriminate; intros;
    try (destruct (Nth (idx - 1)) as (d & E); [lia|];
         exists d; split; [exact E | now rewrite E]);
    try (destruct (Nth (idx + 1)) as (d & E); [lia|];
         exists d; split; [exact E | now rewrite E]);
    match goal with
    | H : _ \/ _ |- _ => destruct H; subst; reflexivity
    end.
Qed.

(** An index whose days have keys that are numbers, no two the same. *)
Definition distinctDays (st : State) : Prop :=
  NoDup (List.map dayKey (sortedDays st))
  /\ Forall (fun d => isValid d = true) (sortedDays st).

Lemma strictEq_dayKey d d' :
  isValid d = true ->
  strictEq (dayKey d') (dayKey d) = true <-> dayKey d' = dayKey d.
Proof.
  intros V. destruct (dayKey_valid d V) as (k & ->).
  unfold strictEq. destruct (dayKey d') as [k'|]; [|split; discriminate].
  rewrite Z.eqb_eq. split; congruence.
Qed.

Lemma findIndex_nth (l : list Date) :
  NoDup (List.map dayKey l) -> Forall (fun d => isValid d = true) l ->
  forall i d,
    nth_error l i = Some d ->
    findIndex (fun d' => strictEq (dayKey d') (dayKey d)) l = Z.of_nat i.
Proof.
  induction l as [|x l IH]; intros ND V i d E; [destruct i; discriminate|].
  inversion ND as [|? ? Nx ND']; subst. inversion V as [|? ? Vx V']; subst.
  destruct i as [|i]; simpl in E.
  - inversion E; subst x. cbn [findIndex].
    replace (strictEq (dayKey d) (dayKey d)) with true
      by (symmetry; now apply strictEq_dayKey).
    reflexivity.
  - cbn [findIndex].
    assert (Vd : isValid d = true).
    { rewrite Forall_forall in V'. eapply V', nth_error_In, E. }
    destruct (strictEq (dayKey x) (dayKey d)) eqn:S.
    + exfalso. apply strictEq_dayKey in S; [|exact Vd].
      apply Nx. rewrite S. apply in_map. eapply nth_error_In, E.
    + rewrite (IH ND' V' i d E).
      destruct (Z.ltb_spec (Z.of_nat i) 0); lia.
Qed.

(** X16. Through an index of distinct days the navigator walks one day at
    a time. With the day at index [i] selected, the current index is [i];
    [goNext] selects the day at [i + 1] when there is one, [goPrev] the
    day at [i - 1], and each undoes the other. *)
Theorem navigator_walks_the_index (st : State) (i : nat) (d : Date) :
  distinctDays st ->
  nth_error (sortedDays st) i = Some d ->
  let s := renderAll (select (Some d) st) in
  currentDayIndex s = Z.of_nat i
  /\ (forall d',
         nth_error (sortedDays st) (S i) = Some d' ->
         goNext s = renderAll (select (Some d') st)
         /\ currentDayIndex (goNext s) = Z.of_nat i + 1
         /\ goPrev (goNext s) = s)
  /\ (forall j d',
         i = S j -> nth_error (sortedDays st) j = Some d' ->
         goPrev s = renderAll (select (Some d') st)
         /\ currentDayIndex (goPrev s) = Z.of_nat i - 1
         /\ goNext (goPrev s) = s)
  /\ (i = 0%nat -> goPrev s = s)
  /\ (S i = List.length (sortedDays st) -> goNext s = s).
Proof.
  intros (ND & V) E s. subst s.
  assert (Idx : forall i d,
             nth_error (sortedDays st) i = Some d ->
             currentDayIndex (renderAll (select (Some d) st)) = Z.of_nat i).
  { intros i0 d0 E0. unfold currentDayIndex. cbn.
    now apply findIndex_nth. }
  assert (Len : forall i d, nth_error (sortedDays st) i = Some d ->
                            (i < List.length (sortedDays st))%nat).
  { intros i0 d0 E0. apply nth_error_Some. congruence. }
  assert (Next : forall i d d',
             nth_error (sortedDays st) i = Some d ->
             nth_error (sortedDays st) (S i) = Some d' ->
             goNext (renderAll (select (Some d) st))
             = renderAll (select (Some d') st)).
  { intros i0 d0 d' E0 E'. unfold goNext. rewrite (Idx i0 d0 E0).
    pose proof (Len _ _ E') as L'.
    change (sortedDays (renderAll (select (Some d0) st)))
      with (sortedDays st).
    replace ((0 <=? Z.of_nat i0)
             && (Z.of_nat i0 <? Z.of_nat (List.length (sortedDays st)) - 1))
      with true
      by (symmetry; apply andb_true_iff; split;
          [apply Z.leb_le | apply Z.ltb_lt]; lia).
    replace (Z.to_nat (Z.of_nat i0 + 1)) with (S i0) by lia.
    rewrite E'. reflexivity. }
  assert (Prev : forall j d d',
             nth_error (sortedDays st) (S j) = Some d ->
             nth_error (sortedDays st) j = Some d' ->
             goPrev (renderAll (select (Some d) st))
             = renderAll (select (Some d') st)).
  { intros j d0 d' E0 E'. unfold goPrev. rewrite (Idx (S j) d0 E0).
    change (sortedDays (renderAll (select (Some d0) st)))
      with (sortedDays st).
    replace (0 <? Z.of_nat (S j)) with true
      by (symmetry; apply Z.ltb_lt; lia).
    replace (Z.to_nat (Z.of_nat (S j) - 1)) with j by lia.
    rewrite E'. reflexivity. }
  split; [now apply Idx|]. split; [|split; [|split]].
  - intros d' E'. rewrite (Next i d d' E E').
    split; [reflexivity|]. split.
    + rewrite (Idx (S i) d' E'). lia.
    + apply (Prev i d' d E' E).
  - intros j d' -> E'. rewrite (Prev j d d' E E').
    split; [reflexivity|]. split.
    + rewrite (Idx j d' E'). lia.
    + apply (Next j d' d E' E).
  - intros ->. unfold goPrev. now rewrite (Idx 0%nat d E).
  - intros L. unfold goNext. rewrite (Idx i d E).
    change (sortedDays (renderAll (select (Some d) st)))
      with (sortedDays st).
    rewrite <- L.
    replace (Z.of_nat i <? Z.of_nat (S i) - 1) with false
      by (symmetry; apply Z.ltb_ge; lia).
    now rewrite andb_false_r.
Qed.
End Navigation.

(* ------------------------------------------------------------------ *)
(** ** The order of the days *)

Module CalendarOrder.
Import Dates DatesFacts.

Lemma DayFromYear_mono y1 y2 : y1 <= y2 -> DayFromYear y1 <= DayFromYear y2.
Proof.
  intros H. unfold DayFromYear. Z.to_euclidean_division_equations; lia.
Qed.

Lemma YearFromDay_mono d1 d2 : d1 <= d2 -> YearFromDay d1 <= YearFromDay d2.
Proof.
  intros H.
  pose proof (YearFromDay_spec d1) as S1.
  pose proof (YearFromDay_spec d2) as S2.
  destruct (Z_le_gt_dec (YearFromDay d1) (YearFromDay d2)) as [L|G]; [exact L|].
  pose proof (DayFromYear_mono (YearFromDay d2 + 1) (YearFromDay d1)
                ltac:(lia)).
  lia.
Qed.

(** The key of the day of a time value. *)
Definition civilKey (t : Z) : Z :=
  YearFromTime t * 10000 + (MonthFromTime t + 1) * 100 + DateFromTime t.

Lemma civilKey_Day t1 t2 : Day t1 = Day t2 -> civilKey t1 = civilKey t2.
Proof.
  intros E. unfold civilKey.
  destruct (civil_of_day t1) as (<- & <- & <-).
  destruct (civil_of_day t2) as (<- & <- & <-).
  now rewrite E.
Qed.

Lemma civilKey_inj t1 t2 : civilKey t1 = civilKey t2 -> Day t1 = Day t2.
Proof.
  unfold civilKey. intros E.
  pose proof (MonthFromTime_range t1). pose proof (MonthFromTime_range t2).
  pose proof (DateFromTime_range t1). pose proof (DateFromTime_range t2).
  rewrite <- (MakeDay_local t1), <- (MakeDay_local t2).
  assert (YearFromTime t1 = YearFromTime t2) by lia.
  assert (MonthFromTime t1 = MonthFromTime t2) by lia.
  assert (DateFromTime t1 = DateFromTime t2) by lia.
  congruence.
Qed.

Lemma civilKey_mono t1 t2 : Day t1 <= Day t2 -> civilKey t1 <= civilKey t2.
Proof.
  intros H. unfold civilKey.
  pose proof (YearFromDay_mono _ _ H) as Y. fold (YearFromTime t1) in Y.
  fold (YearFromTime t2) in Y.
  pose proof (MonthFromTime_range t1). pose proof (MonthFromTime_range t2).
  pose proof (DateFromTime_range t1). pose proof (DateFromTime_range t2).
  destruct (Z.eq_dec (YearFromTime t1) (YearFromTime t2)) as [E|N]; [|lia].
  assert (W : DayWithinYear t1 <= DayWithinYear t2)
    by (unfold DayWithinYear; rewrite E; lia).
  pose proof (DayWithinYear_range t1) as R1.
  pose proof (DayWithinYear_range t2) as R2.
  unfold DateFromTime, MonthFromTime in *. rewrite E in *.
  destruct (InLeapYear_01 (YearFromTime t2)) as [L|L]; rewrite L in *;
    simpl monthStart in *;
    repeat match goal with
           | |- context [if ?a <? ?b then _ else _] =>
               destruct (Z.ltb_spec a b)
           end; simpl monthStart; lia.
Qed.

Lemma civilKey_lt t1 t2 : civilKey t1 < civilKey t2 <-> Day t1 < Day t2.
Proof.
  split; intros H.
  - destruct (Z_lt_le_dec (Day t1) (Day t2)) as [L|G]; [exact L|].
    pose proof (civilKey_mono _ _ G). lia.
  - pose proof (civilKey_mono t1 t2 ltac:(lia)) as M.
    destruct (Z.eq_dec (civilKey t1) (civilKey t2)) as [E|N]; [|lia].
    apply civilKey_inj in E. lia.
Qed.
End CalendarOrder.

(* ------------------------------------------------------------------ *)
(** ** The days of a zone of fixed offset *)

Lemma StronglySorted_map {A B} (R : A -> A -> Prop) (R' : B -> B -> Prop)
    (f : A -> B) l :
  (forall a b, In a l -> In b l -> R a b -> R' (f a) (f b)) ->
  StronglySorted R l -> StronglySorted R' (List.map f l).
Proof.
  intros H S. induction S as [|x l S IH Hx]; simpl; constructor.
  - apply IH. intros a b Ha Hb. apply H; now right.
  - apply Forall_forall. intros y Hy. apply in_map_iff in Hy as (z & <- & Hz).
    rewrite Forall_forall in Hx. apply H; [now left | now right | auto].
Qed.

Section Zone.
  Import Dates DatesFacts CalendarOrder.
  Context {RT : Runtime}.
  Variable c : Z.
  Hypothesis fixed : forall t b, LocalTZA t b = c.
  Hypothesis small : Z.abs c <= msPerDay.

(** The local midnight that starts the day of [t]. *)
Definition midnight (t : Z) : Z := Day (t + c) * msPerDay - c.

(** A modern time value a day before the end of the range of [Date]. *)
Definition ordinary (t : Z) : Prop :=
  modern c t /\ t + msPerDay <= 8640000000000000.

Definition ordinaryItem (it : Item) : Prop :=
  exists t, start it = Some t /\ ordinary t.

Lemma dayKey_civilKey t : dayKey (Some t) = Some (civilKey (t + c)).
Proof. apply dayKey_fixed, fixed. Qed.

Lemma midnight_range t :
  modern c t -> - 8640000000000000 <= midnight t <= t.
Proof.
  intros [B Y]. unfold midnight.
  pose proof (Day_floor (t + c)) as F.
  pose proof (YearFromDay_spec (Day (t + c))) as S.
  pose proof (DayFromYear_100 _ Y) as L. unfold YearFromTime in L.
  unfold msPerDay in *. lia.
Qed.

Lemma midnight_modern t : modern c t -> modern c (midnight t).
Proof.
  intros M. pose proof (midnight_range t M) as R. destruct M as [B Y].
  split; [lia|]. unfold midnight.
  replace (Day (t + c) * msPerDay - c + c) with (Day (t + c) * msPerDay)
    by lia.
  now destruct (civil_of_day (t + c)) as (-> & _).
Qed.

Lemma midnight_ordinary t : ordinary t -> ordinary (midnight t).
Proof.
  intros [M U]. split; [now apply midnight_modern|].
  pose proof (midnight_range t M). lia.
Qed.

Lemma Day_midnight_c t : Day (midnight t + c) = Day (t + c).
Proof.
  unfold midnight.
  replace (Day (t + c) * msPerDay - c + c) with (Day (t + c) * msPerDay)
    by lia.
  apply Day_midnight.
Qed.

Lemma midnight_idem t : midnight (midnight t) = midnight t.
Proof. unfold midnight at 1. rewrite Day_midnight_c. reflexivity. Qed.

Lemma startOfDay_fixed t :
  modern c t -> startOfDay (Some t) = Some (midnight t).
Proof.
  intros M. pose proof (midnight_range t M) as R. destruct M as [B Y].
  unfold startOfDay, getFullYear, getMonth, getDate, LocalTime; simpl.
  rewrite fixed. unfold ofYMD.
  replace ((0 <=? YearFromTime (t + c)) && (YearFromTime (t + c) <=? 99))
    with false
    by (symmetry; apply andb_false_iff; right; apply Z.leb_gt; lia).
  rewrite MakeDay_local. unfold MakeDate, UTC. rewrite fixed, Z.add_0_r.
  unfold TimeClip. fold (midnight t).
  destruct (Z.ltb_spec 8640000000000000 (Z.abs (midnight t)));
    [lia | reflexivity].
Qed.

Lemma MakeDay_succ y m d : MakeDay y m (d + 1) = MakeDay y m d + 1.
Proof. unfold MakeDay. lia. Qed.

Lemma nextMidnight_fixed t :
  ordinary t ->
  nextMidnight (Some (midnight t)) = Some (midnight t + msPerDay).
Proof.
  intros [M U]. pose proof (midnight_range t M) as R. destruct M as [B Y].
  unfold nextMidnight, getFullYear, getMonth, getDate, LocalTime.
  cbn [option_map lift2]. rewrite fixed. unfold midnight at 1 2 3.
  replace (Day (t + c) * msPerDay - c + c) with (Day (t + c) * msPerDay)
    by lia.
  destruct (civil_of_day (t + c)) as (-> & -> & ->).
  unfold ofYMD.
  replace ((0 <=? YearFromTime (t + c)) && (YearFromTime (t + c) <=? 99))
    with false
    by (symmetry; apply andb_false_iff; right; apply Z.leb_gt; lia).
  rewrite MakeDay_succ, MakeDay_local. unfold MakeDate, UTC.
  rewrite fixed, Z.add_0_r. unfold TimeClip.
  replace ((Day (t + c) + 1) * msPerDay - c) with (midnight t + msPerDay)
    by (unfold midnight; lia).
  unfold msPerDay in *.
  destruct (Z.ltb_spec 8640000000000000 (Z.abs (midnight t + 86400000)));
    [lia | reflexivity].
Qed.

Lemma same_day t u :
  midnight t <= u < midnight t + msPerDay <-> Day (u + c) = Day (t + c).
Proof.
  unfold midnight, Day, msPerDay.
  split; intros H; Z.to_euclidean_division_equations; lia.
Qed.

Lemma dayKey_same_day t u :
  dayKey (Some u) = dayKey (Some t) <-> Day (u + c) = Day (t + c).
Proof.
  rewrite !dayKey_civilKey. split.
  - intros E. inversion E. now apply civilKey_inj.
  - intros E. f_equal. now apply civilKey_Day.
Qed.

(** The items of the list of a day are those with the key of the day. *)
Lemma inDay_key t it :
  ordinary t ->
  inDay (Some t) it = true <-> dayKey (start it) = dayKey (Some t).
Proof.
  intros O. rewrite inDay_spec.
  rewrite (startOfDay_fixed t (proj1 O)).
  split.
  - intros (s & e & u & Es & Ee & Eu & R). inversion Es; subst s.
    rewrite (nextMidnight_fixed t O) in Ee. inversion Ee; subst e.
    rewrite Eu. apply dayKey_same_day, same_day, R.
  - intros E. destruct (start it) as [u|] eqn:Eu.
    + exists (midnight t), (midnight t + msPerDay), u.
      repeat split; auto using nextMidnight_fixed;
        apply dayKey_same_day, same_day in E; lia.
    + rewrite dayKey_civilKey in E. discriminate E.
Qed.

Lemma ordinary_modern its :
  Forall ordinaryItem its -> Forall (modernItem c) its.
Proof.
  apply Forall_impl. intros it (t & E & M & _). exists t. auto.
Qed.

(** The days of the index, from the items. *)
Lemma sortedDays_midnights st :
  Forall (modernItem c) (items st) ->
  forall D,
    In D (sortedDays (rebuildDays st)) <->
    exists it t, In it (items st) /\ start it = Some t
                 /\ D = Some (midnight t).
Proof.
  intros M D. destruct (rebuildDays_fields st) as (_ & _ & -> & _).
  rewrite Forall_forall in M. rewrite in_map_iff. split.
  - intros (k & <- & Hk).
    apply (Permutation_in _ (sortBy_perm _ _ _)) in Hk.
    apply dayKeys_In in Hk as (it & Hit & <-).
    destruct (M it Hit) as (t & E & Ht).
    exists it, t. rewrite E. repeat split; auto.
    now apply (dayOfKey_dayKey c fixed small).
  - intros (it & t & Hit & E & ->).
    destruct (M it Hit) as (t' & E' & Ht). rewrite E in E'.
    inversion E'; subst t'.
    exists (dayKey (Some t)). split.
    + now apply (dayOfKey_dayKey c fixed small).
    + apply (Permutation_in _ (Permutation_sym (sortBy_perm _ _ _))).
      apply dayKeys_In. exists it. now rewrite E.
Qed.

Lemma rebuildDays_distinct st :
  Forall (modernItem c) (items st) -> distinctDays (rebuildDays st).
Proof.
  intros M. split.
  - rewrite (sortedDays_keys c fixed small st M). unfold sortedKeys.
    eapply Permutation_NoDup;
      [apply Permutation_sym, sortBy_perm | apply dayKeys_NoDup].
  - apply Forall_forall. intros D HD.
    apply (sortedDays_midnights st M) in HD as (it & t & _ & _ & ->).
    reflexivity.
Qed.

(** X17. In a zone of fixed offset and for items from the year 100 on,
    the index that [rebuildDays] leaves is in the order of time: its days
    are the local midnights of the days of the items, each once, strictly
    ascending as instants. With at least one item the earliest day is
    selected, its index is 0, the button to the day before is disabled,
    and the button to the day after is disabled exactly when the index
    has a single day. *)
Theorem day_index_is_in_time_order (st : State) :
  Forall (modernItem c) (items st) ->
  let st' := rebuildDays st in
  distinctDays st'
  /\ StronglySorted (fun a b => dateLt a b = true) (sortedDays st')
  /\ (forall D,
         In D (sortedDays st') <->
         exists it t, In it (items st) /\ start it = Some t
                      /\ D = Some (Day (t + c) * msPerDay - c))
  /\ (items st <> [] ->
      currentDayIndex st' = 0
      /\ prevDisabled st' = true
      /\ nextDisabled st'
         = (List.length (sortedDays st') <=? 1)%nat).
Proof.
  intros M st'.
  pose proof (rebuildDays_distinct st M) as DD. fold st' in DD.
  split; [exact DD|]. split; [|split].
  - destruct (rebuildDays_fields st) as (_ & _ & E & _). fold st' in E.
    rewrite E.
    apply StronglySorted_map
      with (R := fun a b => keyOf a < keyOf b);
      [|apply sortedKeys_strict, (modern_valid c), M].
    intros a b Ha Hb L.
    apply (Permutation_in _ (sortBy_perm _ _ _)) in Ha, Hb.
    apply dayKeys_In in Ha as (ia & Hia & <-).
    apply dayKeys_In in Hb as (ib & Hib & <-).
    rewrite Forall_forall in M.
    destruct (M ia Hia) as (ta & Ea & Ma).
    destruct (M ib Hib) as (tb & Eb & Mb).
    rewrite Ea, Eb in *.
    rewrite !(dayOfKey_dayKey c fixed small) by assumption.
    rewrite !dayKey_civilKey in L. simpl in L.
    apply civilKey_lt in L. simpl. apply Z.ltb_lt.
    unfold msPerDay. lia.
  - apply (sortedDays_midnights st M).
  - intros N.
    destruct (rebuildDays_fields st) as (_ & _ & _ & S & L).
    fold st' in S, L.
    destruct (sortedDays st') as [|d0 ds] eqn:Ds.
    + exfalso. destruct (items st) as [|it its] eqn:Its; [congruence|].
      assert (In (dayKey (start it)) (dayKeys (it :: its)))
        by (apply dayKeys_In; exists it; split; [now left | reflexivity]).
      destruct (dayKeys (it :: its)); [contradiction | discriminate].
    + assert (I0 : currentDayIndex st' = 0).
      { unfold currentDayIndex. rewrite S, Ds. cbn [hd_error].
        destruct DD as (ND & V). rewrite Ds in ND, V.
        apply (findIndex_nth (d0 :: ds) ND V 0%nat d0). reflexivity. }
      split; [exact I0|]. rewrite <- Ds.
      change (prevDisabled st')
        with (negb (negb (Nat.eqb (List.length (sortedDays st')) 0))
              || (currentDayIndex st' <=? 0)).
      change (nextDisabled st')
        with (negb (negb (Nat.eqb (List.length (sortedDays st')) 0))
              || (currentDayIndex st' <? 0)
              || (Z.of_nat (List.length (sortedDays st')) - 1
                  <=? currentDayIndex st')).
      rewrite I0.
      assert (Hn : List.length (sortedDays st') <> 0%nat)
        by (rewrite Ds; discriminate).
      destruct (Nat.eqb_spec (List.length (sortedDays st')) 0) as [Z0|_];
        [contradiction|].
      cbn [negb orb]. change (0 <=? 0) with true. change (0 <? 0) with false.
      split; [reflexivity|].
      destruct (Z.leb_spec (Z.of_nat (List.length (sortedDays st')) - 1) 0);
        destruct (Nat.leb_spec (List.length (sortedDays st')) 1);
        try reflexivity; lia.
Qed.

Lemma dayList_In st D it :
  In it (itemsForSelectedDay (select (Some D) st))
  <-> In it (items st) /\ inDay D it = true.
Proof.
  change (itemsForSelectedDay (select (Some D) st))
    with (sortBy byStart (filter (inDay D) (items st))).
  rewrite <- filter_In. split; intros H.
  - eapply Permutation_in; [apply sortBy_perm | exact H].
  - eapply Permutation_in; [apply Permutation_sym, sortBy_perm | exact H].
Qed.

(** X18. The days of the index share out the items. In a zone of fixed
    offset, for items from the year 100 on that start a day or more
    before the end of the range of dates: the list of a day of the index
    holds the items with the key of that day and is never empty; every
    item is in the list of a day of the index, and of one only. *)
Theorem days_share_out_the_items (st : State) :
  Forall ordinaryItem (items st) ->
  let st' := rebuildDays st in
  (forall D it,
      In D (sortedDays st') ->
      (In it (itemsForSelectedDay (select (Some D) st'))
       <-> In it (items st) /\ dayKey (start it) = dayKey D))
  /\ (forall D,
         In D (sortedDays st') ->
         itemsForSelectedDay (select (Some D) st') <> [])
  /\ (forall it,
         In it (items st) ->
         exists D, In D (sortedDays st')
                   /\ In it (itemsForSelectedDay (select (Some D) st')))
  /\ (forall D1 D2 it,
         In D1 (sortedDays st') -> In D2 (sortedDays st') ->
         In it (itemsForSelectedDay (select (Some D1) st')) ->
         In it (itemsForSelectedDay (select (Some D2) st')) ->
         D1 = D2).
Proof.
  intros O st'. pose proof (ordinary_modern _ O) as M.
  pose proof (sortedDays_midnights st M) as SD. fold st' in SD.
  rewrite Forall_forall in O.
  assert (I : items st' = items st) by apply rebuildDays_fields.
  assert (K : forall D it,
             In D (sortedDays st') ->
             (In it (itemsForSelectedDay (select (Some D) st'))
              <-> In it (items st) /\ dayKey (start it) = dayKey D)).
  { intros D it HD. apply SD in HD as (i0 & t & Hi0 & E0 & ->).
    destruct (O i0 Hi0) as (t' & E' & Ot). rewrite E0 in E'.
    inversion E'; subst t'.
    rewrite dayList_In, I, (inDay_key (midnight t) it)
      by now apply midnight_ordinary.
    reflexivity. }
  split; [exact K|]. split; [|split].
  - intros D HD Nil. pose proof HD as HD'.
    apply SD in HD' as (i0 & t & Hi0 & E0 & ED).
    assert (Hin : In i0 (itemsForSelectedDay (select (Some D) st'))).
    { apply K; [exact HD|]. split; [exact Hi0|]. rewrite E0, ED.
      symmetry. apply dayKey_same_day, Day_midnight_c. }
    rewrite Nil in Hin. contradiction.
  - intros it Hit. destruct (O it Hit) as (t & E & Ot).
    exists (Some (midnight t)).
    assert (HD : In (Some (midnight t)) (sortedDays st'))
      by (apply SD; eauto).
    split; [exact HD|]. apply K; [exact HD|]. split; [exact Hit|].
    rewrite E. symmetry. apply dayKey_same_day, Day_midnight_c.
  - intros D1 D2 it H1 H2 L1 L2.
    apply (K D1 it H1) in L1 as (_ & E1).
    apply (K D2 it H2) in L2 as (_ & E2).
    apply SD in H1 as (i1 & t1 & _ & _ & ->).
    apply SD in H2 as (i2 & t2 & _ & _ & ->).
    rewrite E1 in E2. apply dayKey_same_day in E2.
    rewrite !Day_midnight_c in E2. unfold midnight. now rewrite E2.
Qed.
End Zone.

(** The session after [threeVisits] is loaded: two days, the first with
    two visits. *)
Definition twoDays : State :=
  match Ref.jsonParse threeVisits with
  | Ok json => @loadedState utc json
  | Throw _ => @initial utc
  end.

Lemma twoDays_days :
  sortedDays twoDays = [Some 1682899200000; Some 1682985600000]
  /\ List.map start (items twoDays)
     = [Some 1682926200000; Some 1682964000000; Some 1683018000000].
Proof. vm_compute. split; reflexivity. Qed.

Lemma twoDays_ordinary : Forall (@ordinaryItem 0) (items twoDays).
Proof.
  assert (O : forall t, In t [1682926200000; 1682964000000; 1683018000000]
                        -> ordinary 0 t).
  { intros t [<-|[<-|[<-|[]]]]; vm_compute; intuition discriminate. }
  destruct twoDays_days as (_ & S).
  destruct (items twoDays) as [|a [|b [|x [|y l]]]]; try discriminate S.
  inversion S as [[Sa Sb Sx]].
  repeat constructor; eexists; (split; [eassumption|]); apply O;
    simpl; tauto.
Qed.

Lemma utc_fixed : forall (t : Z) (b : bool), @LocalTZA utc t b = 0.
Proof. reflexivity. Qed.

Lemma utc_small : Z.abs 0 <= Dates.msPerDay.
Proof. vm_compute. discriminate. Qed.

Lemma navigator_walks_the_index_witness :
  @currentDayIndex utc
    (@renderAll utc (select (Some (Some 1682899200000)) twoDays)) = 0
  /\ @goNext utc (@renderAll utc (select (Some (Some 1682899200000)) twoDays))
     = @renderAll utc (select (Some (Some 1682985600000)) twoDays).
Proof.
  destruct (@navigator_walks_the_index utc twoDays 0%nat (Some 1682899200000))
    as (I & N & _).
  - split; vm_compute.
    + repeat constructor; simpl; intuition discriminate.
    + repeat constructor.
  - vm_compute. reflexivity.
  - split; [exact I|].
    destruct (N (Some 1682985600000)) as (G & _); [vm_compute; reflexivity|].
    exact G.
Defined.

Lemma day_index_is_in_time_order_witness :
  @currentDayIndex utc (@rebuildDays utc twoDays) = 0
  /\ prevDisabled (@rebuildDays utc twoDays) = true
  /\ nextDisabled (@rebuildDays utc twoDays) = false.
Proof.
  destruct (@day_index_is_in_time_order utc 0 utc_fixed utc_small twoDays)
    as (_ & _ & _ & B).
  - apply (@ordinary_modern 0), twoDays_ordinary.
  - destruct B as (I & P & N); [vm_compute; discriminate|].
    split; [exact I|]. split; [exact P|]. rewrite N. vm_compute. reflexivity.
Defined.

Lemma twoDays_first : exists it l, items twoDays = it :: l.
Proof. vm_compute. eexists. eexists. reflexivity. Qed.

Lemma days_share_out_the_items_witness :
  exists it D,
    In it (items twoDays)
    /\ In D (sortedDays (@rebuildDays utc twoDays))
    /\ In it (@itemsForSelectedDay utc
                (select (Some D) (@rebuildDays utc twoDays))).
Proof.
  destruct (@days_share_out_the_items utc 0 utc_fixed utc_small twoDays
              twoDays_ordinary) as (_ & _ & A & _).
  destruct twoDays_first as (it & l & E).
  assert (Hit : In it (items twoDays)) by (rewrite E; now left).
  destruct (A it Hit) as (D & HD & Hin).
  exists it, D. split; [exact Hit|]. split; assumption.
Defined.

(* ------------------------------------------------------------------ *)
(** ** Text for the page *)

(** The units that [escapeHtml] replaces. *)
Definition special (c : codeunit) : bool :=
  N.eqb c 38 || N.eqb c 60 || N.eqb c 62 || N.eqb c 34 || N.eqb c 39.

(** The units that open or close markup, or end an attribute value. *)
Definition markup (c : codeunit) : bool :=
  N.eqb c 60 || N.eqb c 62 || N.eqb c 34 || N.eqb c 39.


Lemma special_cases c :
  special c = true ->
  c = 38%N \/ c = 60%N \/ c = 62%N \/ c = 34%N \/ c = 39%N.
Proof.
  unfold special. intros H.
  repeat (apply orb_true_iff in H; destruct H as [H|H]);
    apply N.eqb_eq in H; tauto.
Qed.

Lemma entity_plain c : special c = false -> entity c = [c].
Proof.
  unfold special, entity. intros H.
  repeat (apply orb_false_iff in H; destruct H as [H ?]).
  now repeat match goal with
             | H : N.eqb c _ = false |- _ => rewrite H; clear H
             end.
Qed.

Lemma plain_not_amp c : special c = false -> c <> 38%N.
Proof. intros H ->. discriminate H. Qed.

Lemma entity_inert c : forallb (fun x => negb (markup x)) (entity c) = true.
Proof.
  destruct (special c) eqn:S.
  - apply special_cases in S.
    destruct S as [-> | [-> | [-> | [-> | ->]]]]; reflexivity.
  - rewrite (entity_plain c S). simpl. rewrite andb_true_r.
    unfold special in S. unfold markup.
    repeat (apply orb_false_iff in S; destruct S as [S ?]).
    now repeat match goal with
               | H : N.eqb c _ = false |- _ => rewrite H; clear H
               end.
Qed.

Lemma escaped_inert s :
  forallb (fun x => negb (markup x)) (flat_map entity s) = true.
Proof.
  induction s as [|c s IH]; simpl; [reflexivity|].
  now rewrite forallb_app, entity_inert, IH.
Qed.

Lemma escaped_inj s1 :
  forall s2, flat_map entity s1 = flat_map entity s2 -> s1 = s2.
Proof.
  induction s1 as [|a s1 IH]; intros [|b s2]; simpl; intros E.
  - reflexivity.
  - exfalso. destruct (special b) eqn:Sb.
    + apply special_cases in Sb.
      destruct Sb as [-> | [-> | [-> | [-> | ->]]]]; discriminate E.
    + rewrite (entity_plain b Sb) in E. discriminate E.
  - exfalso. destruct (special a) eqn:Sa.
    + apply special_cases in Sa.
      destruct Sa as [-> | [-> | [-> | [-> | ->]]]]; discriminate E.
    + rewrite (entity_plain a Sa) in E. discriminate E.
  - destruct (special a) eqn:Sa, (special b) eqn:Sb.
    + apply special_cases in Sa, Sb.
      destruct Sa as [-> | [-> | [-> | [-> | ->]]]];
        destruct Sb as [-> | [-> | [-> | [-> | ->]]]];
        try discriminate E; simpl in E; inversion E; f_equal; auto.
    + rewrite (entity_plain b Sb) in E.
      pose proof (plain_not_amp b Sb) as Nb.
      apply special_cases in Sa.
      destruct Sa as [-> | [-> | [-> | [-> | ->]]]]; simpl in E;
        inversion E; congruence.
    + rewrite (entity_plain a Sa) in E.
      pose proof (plain_not_amp a Sa) as Na.
      apply special_cases in Sb.
      destruct Sb as [-> | [-> | [-> | [-> | ->]]]]; simpl in E;
        inversion E; congruence.
    + rewrite (entity_plain a Sa), (entity_plain b Sb) in E.
      simpl in E. inversion E. f_equal. auto.
Qed.

Section EscapingFacts.
  Context {RT : Runtime}.

(** X19. What [escapeHtml] returns holds none of the units that open or
    close markup or end an attribute value; what [escapeAttr] returns
    holds, besides, no line feed. A text without the five units that
    [escapeHtml] replaces comes back as it is. *)
Theorem escapeHtml_leaves_no_markup :
  (forall v, forallb (fun x => negb (markup x)) (escapeHtml v) = true)
  /\ (forall v,
         forallb (fun x => negb (markup x) && negb (N.eqb x 10))
           (escapeAttr v) = true)
  /\ (forall s, forallb (fun x => negb (special x)) s = true ->
                escapeHtml (VStr s) = s)
  /\ (forall v, (List.length (toString v) <= List.length (escapeHtml v))%nat
                /\ List.length (escapeAttr v) = List.length (escapeHtml v)).
Proof.
  split; [|split; [|split]].
  - intros v. apply escaped_inert.
  - intros v. unfold escapeAttr, escapeHtml, Str.replaceAll1.
    pose proof (escaped_inert (toString v)) as H.
    induction (flat_map entity (toString v)) as [|x l IH]; [reflexivity|].
    simpl in H. apply andb_prop in H as [Hx Hl]. simpl.
    rewrite (IH Hl), andb_true_r.
    destruct (N.eqb_spec x 10) as [->|N]; [reflexivity|].
    rewrite Hx. simpl. apply negb_true_iff. now apply N.eqb_neq.
  - intros s. unfold escapeHtml. cbn [toString].
    induction s as [|c s IH]; simpl; [reflexivity|].
    intros H. apply andb_prop in H as [Hc Hs].
    apply negb_true_iff in Hc. rewrite (entity_plain c Hc), (IH Hs).
    reflexivity.
  - intros v. split.
    + unfold escapeHtml.
      induction (toString v) as [|c s IH]; simpl; [lia|].
      rewrite length_app.
      assert (1 <= List.length (entity c))%nat; [|lia].
      destruct (special c) eqn:S.
      * apply special_cases in S.
        destruct S as [-> | [-> | [-> | [-> | ->]]]]; simpl; lia.
      * rewrite (entity_plain c S). simpl; lia.
    + unfold escapeAttr, Str.replaceAll1. apply length_map.
Qed.

(** X20. [escapeHtml] loses nothing: two texts with the same escaped
    form are the same text. *)
Theorem escapeHtml_is_injective (s1 s2 : jsstring) :
  escapeHtml (VStr s1) = escapeHtml (VStr s2) <-> s1 = s2.
Proof.
  split; [apply escaped_inj | now intros ->].
Qed.
End EscapingFacts.

(* ------------------------------------------------------------------ *)
(** ** The map *)

Section MapRendering.
  Context {RT : Runtime}.

(** The layer of an item and the points it adds. *)
Definition layerOf (it : Item) : list Layer :=
  mapLayers (drawItem {| mapLayers := []; coords := [] |} it).

Definition pointsOf (it : Item) : list LatLng :=
  coords (drawItem {| mapLayers := []; coords := [] |} it).

Lemma drawItem_app v it :
  drawItem v it
  = {| mapLayers := mapLayers v ++ layerOf it;
       coords := coords v ++ pointsOf it |}.
Proof.
  unfold layerOf, pointsOf, drawItem. destruct v as [l c].
  destruct (kind it); simpl;
    repeat match goal with
           | |- context [match ?x with _ => _ end] => destruct x; simpl
           end; rewrite ?app_nil_r; reflexivity.
Qed.

Lemma fold_drawItem its : forall v,
  fold_left drawItem its v
  = {| mapLayers := mapLayers v ++ flat_map layerOf its;
       coords := coords v ++ flat_map pointsOf its |}.
Proof.
  induction its as [|it its IH]; intros v; simpl.
  - rewrite !app_nil_r. now destruct v.
  - rewrite IH, drawItem_app. simpl. now rewrite <- !app_assoc.
Qed.

Lemma layer_points it :
  (layerOf it = [] <-> pointsOf it = [])
  /\ (layerOf it = [] <-> focusOf it = None)
  /\ (List.length (layerOf it) <= 1)%nat.
Proof.
  unfold layerOf, pointsOf, focusOf, drawItem.
  destruct (kind it); simpl.
  - destruct (path it) as [|p [|q r]]; simpl;
      repeat split; auto; try discriminate; lia.
  - destruct (point it); simpl; repeat split; auto; try discriminate; lia.
  - destruct (point it); simpl; repeat split; auto; try discriminate; lia.
Qed.

Lemma flat_map_nil {A B} (f : A -> list B) l :
  flat_map f l = [] <-> Forall (fun x => f x = []) l.
Proof.
  induction l as [|x l IH]; simpl; [split; auto|].
  split.
  - intros H. apply app_eq_nil in H as [Hx Hl]. constructor; tauto.
  - intros H. inversion H as [|? ? Hx Hl]; subst.
    rewrite Hx. simpl. tauto.
Qed.

(** X21. The map and the list agree on what can be shown. An item has a
    layer on the map exactly when a click on its row moves the map and
    shows its toast: a movement with a path of two points or more, a
    visit or a raw point with a point. Otherwise the click changes
    nothing, and the item adds no point to the bounds. *)
Theorem map_shows_what_can_be_focused (it : Item) :
  (layerOf it = [] <-> focusOf it = None)
  /\ (layerOf it = [] <-> pointsOf it = [])
  /\ (forall st,
         focusItemOnMap it st
         = match layerOf it with
           | [] => st
           | _ => showToast (title it) (subtitle it) st
           end)
  /\ (forall v,
         drawItem v it
         = {| mapLayers := mapLayers v ++ layerOf it;
              coords := coords v ++ pointsOf it |})
  /\ (kind it = activity ->
      (layerOf it = [] <-> (List.length (path it) < 2)%nat)).
Proof.
  destruct (layer_points it) as (P & F & _).
  split; [exact F|]. split; [exact P|]. split; [|split].
  - intros st. unfold focusItemOnMap.
    destruct (focusOf it) eqn:Fo; destruct (layerOf it) as [|l ls] eqn:L;
      try reflexivity.
    + discriminate (proj1 F eq_refl).
    + discriminate (proj2 F eq_refl).
  - intros v. apply drawItem_app.
  - intros K. unfold layerOf, drawItem. rewrite K.
    destruct (Nat.leb_spec 2 (List.length (path it))); simpl;
      split; auto; try discriminate; lia.
Qed.

(** A layer of raw points. *)
Definition isCircle (l : Layer) : bool :=
  match l with
  | circleMarker _ => true
  | _ => false
  end.

Definition isRaw (it : Item) : bool :=
  match kind it with
  | rawpoint => true
  | _ => false
  end.

Lemma wellShaped_day st :
  Forall wellShaped (items st) -> Forall wellShaped (itemsForSelectedDay st).
Proof.
  intros W. unfold itemsForSelectedDay.
  destruct (selectedDay st) as [sel|]; [|constructor].
  eapply Permutation_Forall; [apply Permutation_sym, sortBy_perm|].
  apply Forall_forall. intros it H. apply filter_In in H as [H _].
  rewrite Forall_forall in W. auto.
Qed.

(** X22. What [renderMap] draws. The layers are those of the items of
    the selected day, in their order, at most one for each; the view is
    fitted exactly when there is a layer. When the items are as the
    parsers make them every raw point of the day has its circle: their
    number is not capped. *)
Theorem renderMap_draws_the_day (st : State) :
  fst (renderMap st) = flat_map layerOf (itemsForSelectedDay st)
  /\ (List.length (fst (renderMap st))
      <= List.length (itemsForSelectedDay st))%nat
  /\ (fst (renderMap st) = [] <-> snd (renderMap st) = None)
  /\ (Forall wellShaped (items st) ->
      List.length (filter isCircle (fst (renderMap st)))
      = List.length (filter isRaw (itemsForSelectedDay st))).
Proof.
  unfold renderMap. rewrite fold_drawItem. cbn [fst snd mapLayers coords].
  cbn [app].
  split; [reflexivity|]. split; [|split].
  - rewrite <- (Nat.mul_1_l (List.length (itemsForSelectedDay st))).
    apply length_flat_map_le. intros it. apply layer_points.
  - assert (E : flat_map layerOf (itemsForSelectedDay st) = []
                <-> flat_map pointsOf (itemsForSelectedDay st) = []).
    { rewrite !flat_map_nil. split; apply Forall_impl; intros it;
        apply (layer_points it). }
    rewrite E.
    destruct (flat_map pointsOf (itemsForSelectedDay st));
      split; congruence.
  - intros W. apply wellShaped_day in W.
    assert (P : forall it,
               wellShaped it ->
               List.length (filter isCircle (layerOf it))
               = if isRaw it then 1%nat else 0%nat).
    { intros it (_ & _ & _ & _ & _ & K).
      unfold isRaw, layerOf, drawItem. destruct (kind it); simpl.
      - destruct (path it) as [|p [|q r]]; reflexivity.
      - destruct (point it); reflexivity.
      - destruct K as (_ & (p & ->) & _). reflexivity. }
    induction W as [|it its Wi _ IH]; [reflexivity|].
    cbn [flat_map filter]. rewrite filter_app, length_app, IH, (P it Wi).
    destruct (isRaw it); reflexivity.
Qed.
End MapRendering.

(* ------------------------------------------------------------------ *)
(** ** The caches of the service worker *)

Section ServiceWorkerFacts.
  Import ServiceWorker.

Lemma isPrefix_app p s : Str.isPrefix p (p ++ s) = true.
Proof.
  induction p as [|x p IH]; simpl; [reflexivity|].
  now rewrite N.eqb_refl, IH.
Qed.

Lemma existsb_eqb k l : existsb (Str.eqb k) l = true <-> In k l.
Proof.
  rewrite existsb_exists. split.
  - intros (x & Hx & E). apply Str.eqb_eq in E. now subst.
  - intros H. exists k. split; [exact H | apply Str.eqb_refl].
Qed.

Lemma cacheName_inj s1 s2 : cacheName s1 = cacheName s2 -> s1 = s2.
Proof.
  unfold cacheName. intros E.
  apply app_inv_head in E. now apply app_inv_head in E.
Qed.

Lemma stale_In scope keys k :
  In k (stale scope keys)
  <-> In k keys /\ Str.isPrefix PRECACHE k = true /\ k <> cacheName scope.
Proof.
  unfold stale. rewrite filter_In, andb_true_iff, negb_true_iff.
  destruct (Str.eqb_spec k (cacheName scope)); intuition congruence.
Qed.

Lemma activate_In scope keys k :
  In k (activate scope keys)
  <-> In k keys /\ (Str.isPrefix PRECACHE k = true -> k = cacheName scope).
Proof.
  unfold activate. rewrite filter_In, negb_true_iff.
  split.
  - intros (Hk & E). split; [exact Hk|]. intros P.
    destruct (Str.eqb_spec k (cacheName scope)) as [->|N]; [reflexivity|].
    exfalso. apply not_true_iff_false in E. apply E.
    apply existsb_eqb, stale_In. auto.
  - intros (Hk & P). split; [exact Hk|].
    apply not_true_iff_false. intros E.
    apply existsb_eqb, stale_In in E as (_ & Q & N). auto.
Qed.

(** X23. The caches after [activate]. The handler deletes exactly the
    caches whose name starts with [PRECACHE] and is not the name of the
    cache of this worker. So the cache of this worker is never deleted
    and, after [install], is there; a cache whose name does not start
    with [PRECACHE] (that of another application, or of an older version
    of the prefix) is never deleted; and the cache of the same version
    registered under another scope is deleted: of the caches that start
    with [PRECACHE] only that of this worker is left. *)
Theorem activate_keeps_its_own_cache_only (scope : jsstring)
    (keys : list jsstring) :
  (forall k,
      In k (stale scope keys)
      <-> In k keys /\ Str.isPrefix PRECACHE k = true
          /\ k <> cacheName scope)
  /\ (forall k,
         In k (activate scope keys)
         <-> In k keys /\ ~ In k (stale scope keys))
  /\ In (cacheName scope) (activate scope (install scope keys))
  /\ (forall k,
         In k (activate scope keys) -> Str.isPrefix PRECACHE k = true ->
         k = cacheName scope)
  /\ (forall k,
         In k keys -> Str.isPrefix PRECACHE k = false ->
         In k (activate scope keys))
  /\ (forall other,
         other <> scope -> In (cacheName other) keys ->
         In (cacheName other) (stale scope keys)
         /\ ~ In (cacheName other) (activate scope keys)).
Proof.
  split; [intros k; apply stale_In|].
  split; [|split; [|split; [|split]]].
  - intros k. rewrite activate_In, stale_In. split.
    + intros (Hk & P). split; [exact Hk|]. intros (_ & Q & N). auto.
    + intros (Hk & N). split; [exact Hk|]. intros Q.
      destruct (Str.eqb_spec k (cacheName scope)) as [E|D]; [exact E|].
      exfalso. apply N. auto.
  - apply activate_In. split; [|reflexivity].
    unfold install.
    destruct (existsb (Str.eqb (cacheName scope)) keys) eqn:E.
    + now apply existsb_eqb.
    + apply in_or_app. right. now left.
  - intros k H P. apply activate_In in H as (_ & Q). auto.
  - intros k Hk P. apply activate_In. split; [exact Hk|].
    intros Q. congruence.
  - intros other N H.
    assert (D : cacheName other <> cacheName scope)
      by (intros E; apply N, cacheName_inj, E).
    split.
    + apply stale_In. split; [exact H|]. split; [|exact D].
      apply isPrefix_app.
    + intros A. apply activate_In in A as (_ & Q).
      apply D, Q, isPrefix_app.
Qed.
End ServiceWorkerFacts.

(* ------------------------------------------------------------------ *)
(** ** The calendar of a month *)

Module MonthFacts.
Import Dates DatesFacts CalendarOrder.

Lemma YearFromDay_unique y d :
  DayFromYear y <= d < DayFromYear (y + 1) -> YearFromDay d = y.
Proof.
  intros H. pose proof (YearFromDay_spec d) as S.
  destruct (Z_lt_le_dec (YearFromDay d) y) as [L|G].
  - pose proof (DayFromYear_mono (YearFromDay d + 1) y ltac:(lia)). lia.
  - destruct (Z_lt_le_dec y (YearFromDay d)) as [L'|G']; [|lia].
    pose proof (DayFromYear_mono (y + 1) (YearFromDay d) ltac:(lia)). lia.
Qed.

(** The number of days of month [m] (0-based) of a year. *)
Definition monthLength (leap m : Z) : Z :=
  monthStart leap (m + 1) - monthStart leap m.

Lemma month_cases m : 0 <= m <= 11 ->
  m = 0 \/ m = 1 \/ m = 2 \/ m = 3 \/ m = 4 \/ m = 5 \/ m = 6 \/ m = 7
  \/ m = 8 \/ m = 9 \/ m = 10 \/ m = 11.
Proof. lia. Qed.

(** Compute the starts of the months once the year type and the month
    are known. *)
Ltac months :=
  repeat match goal with
         | |- context [monthStart ?l ?m] =>
             let v := eval vm_compute in (monthStart l m) in
             change (monthStart l m) with v
         | H : context [monthStart ?l ?m] |- _ =>
             let v := eval vm_compute in (monthStart l m) in
             change (monthStart l m) with v in H
         end.

Lemma monthLength_range y m :
  0 <= m <= 11 -> 28 <= monthLength (InLeapYear y) m <= 31.
Proof.
  intros M. unfold monthLength.
  destruct (InLeapYear_01 y) as [-> | ->];
    destruct (month_cases m M)
      as [-> | [-> | [-> | [-> | [-> | [-> | [-> | [-> | [-> | [-> | [-> | ->]]]]]]]]]]];
    months; lia.
Qed.

Lemma MakeDay_month y m d :
  0 <= m <= 11 ->
  MakeDay y m d = DayFromYear y + monthStart (InLeapYear y) m + d - 1.
Proof.
  intros M. unfold MakeDay.
  rewrite Z.div_small, Z.mod_small by lia. now rewrite Z.add_0_r.
Qed.

(** The year, the month and the date of the day that [MakeDay] makes of
    a date of the month. *)
Lemma civil_inverse y m d :
  0 <= m <= 11 -> 1 <= d <= monthLength (InLeapYear y) m ->
  let t := MakeDay y m d * msPerDay in
  YearFromTime t = y /\ MonthFromTime t = m /\ DateFromTime t = d.
Proof.
  intros M D t.
  assert (Dt : Day t = DayFromYear y + monthStart (InLeapYear y) m + d - 1).
  { subst t. now rewrite Day_midnight, MakeDay_month. }
  assert (W : 0 <= monthStart (InLeapYear y) m + d - 1
              < 365 + InLeapYear y
              /\ monthStart (InLeapYear y) m
                 <= monthStart (InLeapYear y) m + d - 1
                 < monthStart (InLeapYear y) (m + 1)).
  { unfold monthLength in D.
    destruct (InLeapYear_01 y) as [L|L]; rewrite L in *;
      destruct (month_cases m M)
        as [-> | [-> | [-> | [-> | [-> | [-> | [-> | [-> | [-> | [-> | [-> | ->]]]]]]]]]]];
      months; lia. }
  assert (Y : YearFromTime t = y).
  { unfold YearFromTime. rewrite Dt. apply YearFromDay_unique.
    rewrite DayFromYear_succ. lia. }
  assert (DW : DayWithinYear t = monthStart (InLeapYear y) m + d - 1)
    by (unfold DayWithinYear; rewrite Y, Dt; lia).
  assert (Mo : MonthFromTime t = m).
  { unfold MonthFromTime. rewrite DW, Y.
    destruct W as (_ & W).
    destruct (InLeapYear_01 y) as [L|L]; rewrite L in *;
      destruct (month_cases m M)
        as [-> | [-> | [-> | [-> | [-> | [-> | [-> | [-> | [-> | [-> | [-> | ->]]]]]]]]]]];
      months;
      repeat match goal with
             | |- context [if ?a <? ?b then _ else _] =>
                 destruct (Z.ltb_spec a b); try lia
             end. }
  split; [exact Y|]. split; [exact Mo|].
  unfold DateFromTime. rewrite DW, Y, Mo. lia.
Qed.

(** The day before the first of the next month is the last of the
    month. *)
Lemma month_end y m :
  0 <= m <= 11 ->
  MakeDay y (m + 1) 0 = MakeDay y m (monthLength (InLeapYear y) m).
Proof.
  intros M. rewrite (MakeDay_month y m) by exact M. unfold monthLength.
  destruct (Z.eq_dec m 11) as [->|N].
  - unfold MakeDay. change ((11 + 1) / 12) with 1.
    change ((11 + 1) mod 12) with 0. rewrite DayFromYear_succ.
    destruct (InLeapYear_01 y) as [L|L]; rewrite L; months; lia.
  - rewrite MakeDay_month by lia. lia.
Qed.

Lemma DayFromYear_range y :
  100 <= y <= 275000 ->
  -683003 <= DayFromYear y /\ DayFromYear (y + 1) <= 99722525.
Proof.
  intros H. unfold DayFromYear. Z.to_euclidean_division_equations; lia.
Qed.

Lemma MakeDay_range y m d :
  100 <= y <= 275000 -> 0 <= m <= 11 ->
  1 <= d <= monthLength (InLeapYear y) m ->
  -683003 <= MakeDay y m d < 99722525.
Proof.
  intros Y M D. rewrite MakeDay_month by exact M.
  pose proof (DayFromYear_range y Y) as R. rewrite DayFromYear_succ in R.
  unfold monthLength in D.
  destruct (InLeapYear_01 y) as [L|L]; rewrite L in *;
    destruct (month_cases m M)
      as [-> | [-> | [-> | [-> | [-> | [-> | [-> | [-> | [-> | [-> | [-> | ->]]]]]]]]]]];
    months; lia.
Qed.
End MonthFacts.

Section CalendarZone.
  Import Dates DatesFacts CalendarOrder MonthFacts.
  Context {RT : Runtime}.
  Variable c : Z.
  Hypothesis fixed : forall t b, LocalTZA t b = c.
  Hypothesis small : Z.abs c <= msPerDay.

(** The key of the date [d] of month [m] of year [y]. *)
Definition keyOfDate (y m d : Z) : Z := y * 10000 + (m + 1) * 100 + d.

(** [new Date(y, m, d)] for a date of the month. *)
Lemma ofYMD_fixed y m d :
  100 <= y <= 275000 -> 0 <= m <= 11 ->
  1 <= d <= monthLength (InLeapYear y) m ->
  ofYMD (Some y) (Some m) (Some d) = Some (MakeDay y m d * msPerDay - c)
  /\ dayKey (Some (MakeDay y m d * msPerDay - c)) = Some (keyOfDate y m d)
  /\ getDate (Some (MakeDay y m d * msPerDay - c)) = Some d.
Proof.
  intros Y M D. pose proof (MakeDay_range y m d Y M D) as R.
  destruct (civil_inverse y m d M D) as (Ey & Em & Ed).
  split; [|split].
  - unfold ofYMD.
    replace ((0 <=? y) && (y <=? 99)) with false
      by (symmetry; apply andb_false_iff; right; apply Z.leb_gt; lia).
    unfold MakeDate, UTC. rewrite fixed, Z.add_0_r. unfold TimeClip.
    unfold msPerDay in *.
    destruct (Z.ltb_spec 8640000000000000
                (Z.abs (MakeDay y m d * 86400000 - c)));
      [lia | reflexivity].
  - rewrite (dayKey_civilKey c fixed). unfold civilKey, keyOfDate.
    replace (MakeDay y m d * msPerDay - c + c) with (MakeDay y m d * msPerDay)
      by lia.
    now rewrite Ey, Em, Ed.
  - unfold getDate, LocalTime. cbn [option_map]. rewrite fixed.
    replace (MakeDay y m d * msPerDay - c + c) with (MakeDay y m d * msPerDay)
      by lia.
    now rewrite Ed.
Qed.

Lemma map_seq_nth {A} (f : nat -> A) n i :
  (i < n)%nat -> nth_error (List.map f (seq 0 n)) i = Some (f i).
Proof.
  intros H. rewrite nth_error_map, nth_error_seq.
  destruct (Nat.ltb_spec i n); [reflexivity | lia].
Qed.

Lemma DateFromTime_month t :
  1 <= DateFromTime t
  <= monthLength (InLeapYear (YearFromTime t)) (MonthFromTime t).
Proof.
  unfold monthLength, DateFromTime, MonthFromTime.
  pose proof (DayWithinYear_range t) as R.
  destruct (InLeapYear_01 (YearFromTime t)) as [L|L]; rewrite L in *;
    repeat match goal with
           | |- context [if ?a <? ?b then _ else _] =>
               destruct (Z.ltb_spec a b)
           end; months; lia.
Qed.

Lemma renderCalendar_fixed st a :
  monthAnchor st = Some (Some a) ->
  sortedDays st <> [] ->
  100 <= YearFromTime (a + c) <= 275000 ->
  let y := YearFromTime (a + c) in
  let m := MonthFromTime (a + c) in
  let n := monthLength (InLeapYear y) m in
  let lead := (MakeDay y m 1 + 4) mod 7 in
  renderCalendar st
  = Some (List.map
            (fun i => dateCell st (Some y) (Some m) lead (Z.of_nat i))
            (seq 0 (Z.to_nat (lead + n))))
  /\ 0 <= lead <= 6 /\ 28 <= n <= 31.
Proof.
  intros A S Y y m n lead.
  pose proof (MonthFromTime_range (a + c)) as M. fold m in M.
  pose proof (monthLength_range y m M) as N. fold n in N.
  assert (L : 0 <= lead < 7) by (apply Z.mod_pos_bound; lia).
  split; [|lia].
  unfold renderCalendar. rewrite A.
  destruct (Nat.eqb_spec (List.length (sortedDays st)) 0) as [Z0|_].
  { apply length_zero_iff_nil in Z0. contradiction. }
  unfold getFullYear, getMonth, LocalTime. cbn [option_map lift2].
  rewrite fixed. fold y m.
  destruct (ofYMD_fixed y m 1 Y M ltac:(lia)) as (E1 & _ & _).
  rewrite E1.
  assert (En : ofYMD (Some y) (Some (m + 1)) (Some 0)
               = Some (MakeDay y m n * msPerDay - c)).
  { destruct (ofYMD_fixed y m n Y M ltac:(lia)) as (E & _ & _).
    rewrite <- E. unfold ofYMD.
    replace ((0 <=? y) && (y <=? 99)) with false
      by (symmetry; apply andb_false_iff; right; apply Z.leb_gt; lia).
    now rewrite (month_end y m M). }
  rewrite En.
  destruct (ofYMD_fixed y m n Y M ltac:(lia)) as (_ & _ & Gn).
  rewrite Gn.
  unfold getDay, LocalTime. cbn [option_map lift2]. rewrite fixed.
  replace (MakeDay y m 1 * msPerDay - c + c) with (MakeDay y m 1 * msPerDay)
    by lia.
  rewrite Day_midnight. fold lead. reflexivity.
Qed.

Lemma dateCell_fixed st y m lead d :
  100 <= y <= 275000 -> 0 <= m <= 11 ->
  1 <= d <= monthLength (InLeapYear y) m ->
  dateCell st (Some y) (Some m) lead (lead + d - 1)
  = cellOf st (Some (keyOfDate y m d))
      (Some (MakeDay y m d * msPerDay - c)) d.
Proof.
  intros Y M D. unfold dateCell.
  destruct (Z.ltb_spec (lead + d - 1) lead); [lia|].
  replace (lead + d - 1 - lead + 1) with d by lia.
  destruct (ofYMD_fixed y m d Y M D) as (Ed & Kd & _).
  rewrite Ed, Kd. reflexivity.
Qed.

(** X24. The calendar shows the month of its anchor. In a zone of fixed
    offset, with an anchor whose local year is between 100 and 275000
    and an index that is not empty, the grid has, after as many empty
    cells as the first of the month is days after Sunday (0 to 6), one
    cell for each date of the month (28 to 31), numbered from 1. The
    cell of a date is available exactly when the set of keys has the key
    of that date; its click then selects the local midnight of that
    date; it is marked as selected exactly when the selected day has the
    key of that date. *)
Theorem calendar_shows_the_month_of_the_anchor (st : State) (a : Z) :
  monthAnchor st = Some (Some a) ->
  sortedDays st <> [] ->
  100 <= YearFromTime (a + c) <= 275000 ->
  let y := YearFromTime (a + c) in
  let m := MonthFromTime (a + c) in
  let n := monthLength (InLeapYear y) m in
  let lead := (MakeDay y m 1 + 4) mod 7 in
  0 <= lead <= 6 /\ 28 <= n <= 31
  /\ exists cells,
      renderCalendar st = Some cells
      /\ Z.of_nat (List.length cells) = lead + n
      /\ (forall i, 0 <= i < lead ->
                    nth_error cells (Z.to_nat i) = Some emptyCell)
      /\ (forall d, 1 <= d <= n ->
                    nth_error cells (Z.to_nat (lead + d - 1))
                    = Some (cellOf st (Some (keyOfDate y m d))
                              (Some (MakeDay y m d * msPerDay - c)) d)).
Proof.
  intros A S Y y m n lead.
  destruct (renderCalendar_fixed st a A S Y) as (E & L & N).
  fold y m n lead in E, L, N.
  pose proof (MonthFromTime_range (a + c)) as M. fold m in M.
  split; [exact L|]. split; [exact N|].
  eexists. split; [exact E|]. split; [|split].
  - rewrite length_map, length_seq. lia.
  - intros i Hi. rewrite map_seq_nth by lia.
    unfold dateCell. rewrite Z2Nat.id by lia.
    destruct (Z.ltb_spec i lead); [reflexivity | lia].
  - intros d Hd. rewrite map_seq_nth by lia.
    rewrite Z2Nat.id by lia.
    now rewrite (dateCell_fixed st y m lead d Y M Hd).
Qed.

(** An item of a year that the calendar can show. *)
Definition calendarItem (it : Item) : Prop :=
  exists t, start it = Some t /\ ordinary c t
            /\ YearFromTime (t + c) <= 275000.

Lemma calendarItem_ordinary its :
  Forall calendarItem its -> Forall (ordinaryItem c) its.
Proof.
  apply Forall_impl. intros it (t & E & O & _). exists t. auto.
Qed.

Lemma dayList_key st t it :
  ordinary c t ->
  In it (itemsForSelectedDay (select (Some (Some (midnight c t))) st))
  <-> In it (items st) /\ dayKey (start it) = dayKey (Some t).
Proof.
  intros O.
  rewrite (dayList_In st (Some (midnight c t)) it).
  rewrite (inDay_key c fixed small (midnight c t) it)
    by (apply (midnight_ordinary c small), O).
  replace (dayKey (Some (midnight c t))) with (dayKey (Some t)); [reflexivity|].
  symmetry. apply (dayKey_same_day c fixed), Day_midnight_c.
Qed.

Lemma key_of_cell t y m d :
  0 <= m <= 11 -> 1 <= d <= monthLength (InLeapYear y) m ->
  civilKey (t + c) = keyOfDate y m d ->
  midnight c t = MakeDay y m d * msPerDay - c.
Proof.
  intros M D E. destruct (civil_inverse y m d M D) as (Ey & Em & Ed).
  assert (K : civilKey (t + c) = civilKey (MakeDay y m d * msPerDay)).
  { rewrite E. unfold civilKey, keyOfDate. now rewrite Ey, Em, Ed. }
  apply civilKey_inj in K. rewrite Day_midnight in K.
  unfold midnight. now rewrite K.
Qed.

(** X25. The available cells are the days with items. In a zone of
    fixed offset, after [rebuildDays] on items that the calendar can
    show, of which there is at least one: the grid is that of the month
    of the earliest item; the click of an available cell selects a day of
    the index, whose list is not empty; and every item of that month has
    an available cell that selects its day. *)
Theorem available_cells_are_days_with_items (st : State) :
  Forall calendarItem (items st) ->
  items st <> [] ->
  let st' := rebuildDays st in
  exists a cells,
    monthAnchor st' = Some (Some a)
    /\ hd_error (sortedDays st') = Some (Some a)
    /\ renderCalendar st' = Some cells
    /\ (forall cell D,
           In cell cells -> onClick cell = Some D ->
           In D (sortedDays st')
           /\ itemsForSelectedDay (clickCell D st') <> [])
    /\ (forall it t,
           In it (items st) -> start it = Some t ->
           YearFromTime (t + c) = YearFromTime (a + c) ->
           MonthFromTime (t + c) = MonthFromTime (a + c) ->
           exists cell,
             In cell cells
             /\ onClick cell = Some (Some (midnight c t))
             /\ textContent cell = Str.ofNat (DateFromTime (t + c))).
Proof.
  intros CI NE st'.
  pose proof (calendarItem_ordinary _ CI) as O.
  pose proof (ordinary_modern c _ O) as Mo.
  pose proof (sortedDays_midnights c fixed small st Mo) as SD. fold st' in SD.
  destruct (rebuildDays_fields st) as (I & K & _ & S & L).
  fold st' in I, K, S, L.
  assert (An : monthAnchor st' = hd_error (sortedDays st')) by exact S.
  rewrite Forall_forall in CI.
  destruct (sortedDays st') as [|d0 ds] eqn:Ds.
  { exfalso. destruct (items st) as [|it its] eqn:Its; [congruence|].
    assert (In (dayKey (start it)) (dayKeys (it :: its)))
      by (apply dayKeys_In; exists it; split; [now left | reflexivity]).
    destruct (dayKeys (it :: its)); [contradiction | discriminate]. }
  destruct (proj1 (SD d0) (or_introl eq_refl)) as (i0 & t0 & Hi0 & E0 & ->).
  destruct (CI i0 Hi0) as (t0' & E0' & O0 & U0). rewrite E0 in E0'.
  inversion E0'; subst t0'.
  set (a := midnight c t0) in *.
  assert (Ya : YearFromTime (a + c) = YearFromTime (t0 + c)
               /\ MonthFromTime (a + c) = MonthFromTime (t0 + c)).
  { subst a. unfold midnight.
    replace (Day (t0 + c) * msPerDay - c + c) with (Day (t0 + c) * msPerDay)
      by lia.
    destruct (civil_of_day (t0 + c)) as (-> & -> & _). auto. }
  assert (Y : 100 <= YearFromTime (a + c) <= 275000).
  { destruct Ya as (-> & _). destruct O0 as ((_ & Y0) & _). lia. }
  assert (A : monthAnchor st' = Some (Some a)) by (rewrite An; reflexivity).
  assert (NS : sortedDays st' <> []) by (rewrite Ds; discriminate).
  destruct (renderCalendar_fixed st' a A NS Y) as (E & Ld & N).
  pose proof (MonthFromTime_range (a + c)) as M.
  set (y := YearFromTime (a + c)) in *.
  set (m := MonthFromTime (a + c)) in *.
  set (lead := (MakeDay y m 1 + 4) mod 7) in *.
  set (n := monthLength (InLeapYear y) m) in *.
  exists a. eexists. split; [exact A|]. split; [reflexivity|].
  split; [exact E|]. split.
  - intros cell D Hc Click.
    apply in_map_iff in Hc as (i & <- & Hi). apply in_seq in Hi.
    unfold dateCell in Click.
    destruct (Z.ltb_spec (Z.of_nat i) lead) as [Lt|Ge];
      [discriminate Click|].
    set (d := Z.of_nat i - lead + 1) in *.
    assert (Hd : 1 <= d <= n) by (subst d; lia).
    destruct (ofYMD_fixed y m d Y M Hd) as (Ed & Kd & _).
    rewrite Ed, Kd in Click. unfold cellOf in Click. cbn [onClick] in Click.
    destruct (existsb _ (dayKeySet st')) eqn:Av; [|discriminate Click].
    inversion Click; subst D. clear Click.
    apply existsb_exists in Av as (k & Hk & Ek).
    apply sameValueZero_eq in Ek. subst k.
    rewrite K in Hk. apply dayKeys_In in Hk as (it & Hit & Ek).
    destruct (CI it Hit) as (t & Et & Ot & _). rewrite Et in Ek.
    rewrite (dayKey_civilKey c fixed) in Ek. inversion Ek as [Ek'].
    rewrite <- (key_of_cell t y m d M Hd Ek').
    split.
    + apply SD. eauto.
    + intros Nil.
      assert (Hin : In it (itemsForSelectedDay
                             (select (Some (Some (midnight c t))) st'))).
      { apply dayList_key; [exact Ot|]. rewrite I, Et. auto. }
      change (itemsForSelectedDay (clickCell (Some (midnight c t)) st'))
        with (itemsForSelectedDay
                (select (Some (Some (midnight c t))) st')) in Nil.
      rewrite Nil in Hin. contradiction.
  - intros it t Hit Et Yt Mt.
    set (d := DateFromTime (t + c)).
    pose proof (DateFromTime_month (t + c)) as Dm. fold d in Dm.
    rewrite Yt, Mt in Dm. fold y m n in Dm.
    exists (cellOf st' (Some (keyOfDate y m d))
              (Some (MakeDay y m d * msPerDay - c)) d).
    split; [|split].
    + apply in_map_iff. exists (Z.to_nat (lead + d - 1)). split.
      * rewrite Z2Nat.id by lia. apply (dateCell_fixed st' y m lead d Y M Dm).
      * apply in_seq. lia.
    + assert (Ek : civilKey (t + c) = keyOfDate y m d).
      { unfold civilKey, keyOfDate. fold d. now rewrite Yt, Mt. }
      rewrite <- (key_of_cell t y m d M Dm Ek).
      unfold cellOf. cbn [onClick].
      replace (existsb _ (dayKeySet st')) with true; [reflexivity|].
      symmetry. apply existsb_exists.
      exists (Some (civilKey (t + c))). split.
      * rewrite K. apply dayKeys_In. exists it. split; [exact Hit|].
        rewrite Et. apply (dayKey_civilKey c fixed).
      * rewrite Ek. apply sameValueZero_eq. reflexivity.
    + reflexivity.
Qed.
End CalendarZone.

Section CalendarPage.
  Context {RT : Runtime}.

(** What a cell shows but for its marks: its number and its click. *)
Definition cellFace (cell : Cell) : jsstring * option Date :=
  (textContent cell, onClick cell).

Lemma renderCalendar_faces st1 st2 :
  monthAnchor st1 = monthAnchor st2 ->
  dayKeySet st1 = dayKeySet st2 ->
  List.length (sortedDays st1) = List.length (sortedDays st2) ->
  option_map (List.map cellFace) (renderCalendar st1)
  = option_map (List.map cellFace) (renderCalendar st2).
Proof.
  intros A K L. unfold renderCalendar. rewrite A, L.
  destruct (monthAnchor st2) as [anchor|]; [|reflexivity].
  destruct (Nat.eqb (List.length (sortedDays st2)) 0); [reflexivity|].
  destruct (lift2 Z.add _ _) as [total|]; [|reflexivity].
  destruct (getDay _) as [lead|]; [|reflexivity].
  cbn [option_map]. f_equal. rewrite !map_map. apply map_ext.
  intros i. unfold dateCell.
  destruct (Z.of_nat i <? lead); [reflexivity|].
  unfold cellFace, cellOf. cbn [textContent onClick]. now rewrite K.
Qed.

(** X26. The calendar does not follow the selection. After [goPrev],
    [goNext] or the click of a cell the anchor of the calendar is what it
    was, so the grid has the same cells, with the same numbers and the
    same clicks: only the marks of the selected cell can differ, also
    when the day that is selected now lies in another month. *)
Theorem calendar_does_not_follow_the_selection (st : State) :
  (forall st',
      st' = goPrev st \/ st' = goNext st
      \/ (exists D, st' = clickCell D st) ->
      monthAnchor st' = monthAnchor st
      /\ option_map (List.map cellFace) (renderCalendar st')
         = option_map (List.map cellFace) (renderCalendar st))
  /\ (forall D, selectedDay (clickCell D st) = Some D
                /\ items (clickCell D st) = items st
                /\ sortedDays (clickCell D st) = sortedDays st).
Proof.
  split.
  - intros st' H.
    assert (F : monthAnchor st' = monthAnchor st
                /\ dayKeySet st' = dayKeySet st
                /\ sortedDays st' = sortedDays st).
    { destruct H as [-> | [-> | (D & ->)]].
      - unfold goPrev. destruct (0 <? currentDayIndex st); auto.
      - unfold goNext. destruct (_ && _); auto.
      - auto. }
    destruct F as (A & K & S). split; [exact A|].
    apply renderCalendar_faces; auto. now rewrite S.
  - intros D. repeat split.
Qed.
End CalendarPage.

Lemma twoDays_anchor : monthAnchor twoDays = Some (Some 1682899200000).
Proof. vm_compute. reflexivity. Qed.

Lemma twoDays_index : sortedDays twoDays <> [].
Proof. vm_compute. discriminate. Qed.

Lemma calendar_shows_the_month_of_the_anchor_witness :
  exists cells,
    @renderCalendar utc twoDays = Some cells
    /\ Z.of_nat (List.length cells) = 32
    /\ nth_error cells 0 = Some emptyCell.
Proof.
  destruct (@calendar_shows_the_month_of_the_anchor utc 0 utc_fixed utc_small
              twoDays 1682899200000 twoDays_anchor twoDays_index)
    as (_ & _ & cells & E & L & Em & _).
  - vm_compute. intuition discriminate.
  - exists cells. split; [exact E|]. split.
    + rewrite L. vm_compute. reflexivity.
    + apply (Em 0). vm_compute. intuition discriminate.
Defined.

Lemma twoDays_calendarItems : Forall (@calendarItem 0) (items twoDays).
Proof.
  assert (O : forall t, In t [1682926200000; 1682964000000; 1683018000000]
                        -> ordinary 0 t
                           /\ Dates.YearFromTime (t + 0) <= 275000).
  { intros t [<-|[<-|[<-|[]]]]; vm_compute; intuition discriminate. }
  destruct twoDays_days as (_ & S).
  destruct (items twoDays) as [|a [|b [|x [|y l]]]]; try discriminate S.
  inversion S as [[Sa Sb Sx]].
  repeat constructor; eexists; (split; [eassumption|]); apply O;
    simpl; tauto.
Qed.

Lemma twoDays_items : items twoDays <> [].
Proof. vm_compute. discriminate. Qed.

Lemma available_cells_are_days_with_items_witness :
  exists a cells,
    monthAnchor (@rebuildDays utc twoDays) = Some (Some a)
    /\ @renderCalendar utc (@rebuildDays utc twoDays) = Some cells.
Proof.
  destruct (@available_cells_are_days_with_items utc 0 utc_fixed utc_small
              twoDays twoDays_calendarItems twoDays_items)
    as (a & cells & A & _ & E & _).
  exists a, cells. split; assumption.
Defined.

Section LocalMidnight.
  Import Dates DatesFacts CalendarOrder.
  Context {RT : Runtime}.
  Variable c : Z.
  Hypothesis fixed : forall t b, LocalTZA t b = c.
  Hypothesis small : Z.abs c <= msPerDay.

(** X27. [startOfDay] is the local midnight. In a zone of fixed offset
    and for a date whose local year is 100 or later, [startOfDay] gives a
    valid date at most a day before, with the same key, that
    [startOfDay] leaves as it is; and two such dates have the same key
    exactly when they have the same [startOfDay]. *)
Theorem startOfDay_is_the_local_midnight (t : Z) :
  modern c t ->
  exists s,
    startOfDay (Some t) = Some s
    /\ s <= t < s + msPerDay
    /\ dayKey (Some s) = dayKey (Some t)
    /\ startOfDay (Some s) = Some s
    /\ forall u,
        modern c u ->
        (dayKey (Some u) = dayKey (Some t)
         <-> startOfDay (Some u) = startOfDay (Some t)).
Proof.
  intros M. exists (midnight c t).
  pose proof (midnight_range c small t M) as R.
  pose proof (Day_floor (t + c)) as F.
  split; [apply (startOfDay_fixed c fixed small), M|].
  split; [unfold midnight in *; lia|].
  split; [apply (dayKey_same_day c fixed), Day_midnight_c|].
  split.
  - rewrite (startOfDay_fixed c fixed small)
      by (apply (midnight_modern c small), M).
    now rewrite midnight_idem.
  - intros u Mu.
    rewrite !(startOfDay_fixed c fixed small) by assumption.
    rewrite (dayKey_same_day c fixed). unfold midnight. split.
    + intros ->. reflexivity.
    + intros E. inversion E. unfold msPerDay in *. lia.
Qed.
End LocalMidnight.

Lemma startOfDay_is_the_local_midnight_witness :
  @startOfDay utc (Some 1682926200000) = Some 1682899200000.
Proof.
  destruct (@startOfDay_is_the_local_midnight utc 0 utc_fixed utc_small
              1682926200000) as (s & E & _).
  - vm_compute. intuition discriminate.
  - rewrite E. vm_compute in E. symmetry. exact E.
Defined.

(* ------------------------------------------------------------------ *)
(** ** From the first day to the last *)

Section Walk.
  Context {RT : Runtime}.

(** What a step of the navigator reads and keeps: the items and the
    index of [st], with the day at index [k] selected. *)
Definition atDay (st : State) (k : nat) (s : State) : Prop :=
  items s = items st /\ sortedDays s = sortedDays st
  /\ exists d, nth_error (sortedDays st) k = Some d
               /\ selectedDay s = Some d.

Lemma atDay_index st k s :
  distinctDays st -> atDay st k s -> currentDayIndex s = Z.of_nat k.
Proof.
  intros (ND & V) (_ & Sd & d & E & Sel).
  unfold currentDayIndex. rewrite Sel, Sd. now apply findIndex_nth.
Qed.

Lemma atDay_next st k s :
  distinctDays st -> atDay st k s ->
  (S k < List.length (sortedDays st))%nat ->
  atDay st (S k) (goNext s).
Proof.
  intros DD A L. pose proof (atDay_index st k s DD A) as I.
  destruct A as (It & Sd & d & E & Sel).
  destruct (nth_error (sortedDays st) (S k)) as [d'|] eqn:E';
    [|apply nth_error_None in E'; lia].
  unfold goNext. rewrite I, Sd.
  replace ((0 <=? Z.of_nat k)
           && (Z.of_nat k <? Z.of_nat (List.length (sortedDays st)) - 1))
    with true
    by (symmetry; apply andb_true_iff; split;
        [apply Z.leb_le | apply Z.ltb_lt]; lia).
  replace (Z.to_nat (Z.of_nat k + 1)) with (S k) by lia.
  rewrite E'. repeat split; auto. exists d'. auto.
Qed.

Lemma atDay_iter st k :
  distinctDays st ->
  (k < List.length (sortedDays st))%nat ->
  forall s, atDay st 0 s -> atDay st k (Nat.iter k goNext s).
Proof.
  intros DD. induction k as [|k IH]; intros L s A; [exact A|].
  cbn [Nat.iter]. apply atDay_next; [exact DD | apply IH; [lia | exact A] | lia].
Qed.

Lemma atDay_list st k s :
  atDay st k s ->
  exists d, nth_error (sortedDays st) k = Some d
            /\ itemsForSelectedDay s = itemsForSelectedDay (select (Some d) st).
Proof.
  intros (It & _ & d & E & Sel). exists d. split; [exact E|].
  unfold itemsForSelectedDay. rewrite Sel, It. reflexivity.
Qed.
End Walk.

Section WalkZone.
  Import Dates DatesFacts CalendarOrder.
  Context {RT : Runtime}.
  Variable c : Z.
  Hypothesis fixed : forall t b, LocalTZA t b = c.
  Hypothesis small : Z.abs c <= msPerDay.

(** X28. The button to the day after leads through all the days. In a
    zone of fixed offset, after [rebuildDays] on items from the year 100
    on that start a day or more before the end of the range of dates:
    [k] steps of [goNext], for [k] less than the number of days, select
    the day at index [k] of the index and leave the items and the index
    as they are; the list of that day is not empty; and every item is in
    the list that some number of steps shows. *)
Theorem next_leads_through_all_the_days (st : State) :
  Forall (ordinaryItem c) (items st) ->
  let st' := rebuildDays st in
  (forall k,
      (k < List.length (sortedDays st'))%nat ->
      let s := Nat.iter k goNext st' in
      selectedDay s = nth_error (sortedDays st') k
      /\ currentDayIndex s = Z.of_nat k
      /\ items s = items st /\ sortedDays s = sortedDays st'
      /\ itemsForSelectedDay s <> [])
  /\ (forall it,
         In it (items st) ->
         exists k,
           (k < List.length (sortedDays st'))%nat
           /\ In it (itemsForSelectedDay (Nat.iter k goNext st'))).
Proof.
  intros O st'. pose proof (ordinary_modern c _ O) as M.
  pose proof (rebuildDays_distinct c fixed small st M) as DD. fold st' in DD.
  pose proof (sortedDays_midnights c fixed small st M) as SD. fold st' in SD.
  destruct (rebuildDays_fields st) as (I & _ & _ & Se & _).
  fold st' in I, Se.
  assert (A0 : (0 < List.length (sortedDays st'))%nat -> atDay st' 0 st').
  { intros L. repeat split.
    destruct (sortedDays st') as [|d0 ds] eqn:Ds; [simpl in L; lia|].
    exists d0. split; [reflexivity | exact Se]. }
  assert (Ak : forall k, (k < List.length (sortedDays st'))%nat ->
                         atDay st' k (Nat.iter k goNext st')).
  { intros k L. apply atDay_iter; [exact DD | exact L | apply A0; lia]. }
  assert (Day : forall k d,
             nth_error (sortedDays st') k = Some d ->
             exists i t, In i (items st) /\ start i = Some t /\ ordinary c t
                         /\ d = Some (midnight c t)).
  { intros k d E. apply nth_error_In, SD in E as (i & t & Hi & Et & ->).
    rewrite Forall_forall in O. destruct (O i Hi) as (t' & Et' & Ot).
    rewrite Et in Et'. inversion Et'; subst t'. eauto 6. }
  split.
  - intros k L s. pose proof (Ak k L) as A. fold s in A.
    pose proof (atDay_index st' k s DD A) as Ix.
    destruct (atDay_list st' k s A) as (d & E & Li).
    destruct A as (It & Sd & d' & E' & Sel). rewrite E in E'.
    inversion E'; subst d'.
    split; [now rewrite Sel, E|]. split; [exact Ix|].
    split; [now rewrite It, I|]. split; [exact Sd|].
    destruct (Day k d E) as (i & t & Hi & Et & Ot & ->).
    intros Nil. rewrite Li in Nil.
    assert (Hin : In i (itemsForSelectedDay
                          (select (@Some Date (Some (midnight c t))) st'))).
    { apply (dayList_key c fixed small); [exact Ot|]. rewrite I, Et. auto. }
    rewrite Nil in Hin. contradiction.
  - intros it Hit. rewrite Forall_forall in O.
    destruct (O it Hit) as (t & Et & Ot).
    assert (HD : @In Date (Some (midnight c t)) (sortedDays st'))
      by (apply SD; eauto).
    apply (@In_nth_error Date) in HD as (k & E).
    assert (L : (k < List.length (sortedDays st'))%nat)
      by (apply nth_error_Some; rewrite E; discriminate).
    exists k. split; [exact L|].
    destruct (atDay_list st' k _ (Ak k L)) as (d & E' & Li).
    rewrite E in E'. inversion E'; subst d. rewrite Li.
    apply (dayList_key c fixed small); [exact Ot|]. rewrite I, Et. auto.
Qed.
End WalkZone.

Lemma next_leads_through_all_the_days_witness :
  selectedDay (@goNext utc (@rebuildDays utc twoDays))
  = Some (Some 1682985600000).
Proof.
  destruct (@next_leads_through_all_the_days utc 0 utc_fixed utc_small
              twoDays twoDays_ordinary) as (W & _).
  destruct (W 1%nat) as (Sel & _).
  - vm_compute. apply le_n.
  - transitivity (nth_error (sortedDays (@rebuildDays utc twoDays)) 1);
      [exact Sel | vm_compute; reflexivity].
Defined.
